(** * Sparse_Matrix: a shallow embedding of [sparse_matrix.py]

    The class [Sparse_Matrix] keeps three attributes: [rows], [cols] and
    [matrix], a Python dictionary from [(row, col)] tuples to the values that
    are not zero.  The methods are embedded one by one and named after the
    Python methods.

    - Python [int] is [Z]; Python [float] is a binary64 number ([float]).
    - A Python dictionary keeps its keys in insertion order and several
      methods depend on that order, so [dict] is an association list.
    - A method that may raise returns a [result]; a method that mutates
      [self] runs in the monad [M], which threads the object and keeps the
      object as it was at the moment of the raise.
    - [str] of an int raises [ValueError] when the int has more than 4300
      decimal digits, the default limit of CPython for the conversion of an
      int to text.  The methods that render the matrix can therefore raise,
      and so can every [raise] and every failing [assert] whose message
      formats an operand with [str]: the operands are evaluated before the
      exception is built ([raise_msg]).
    - An exception carries the fixed head of its message; of the operands
      formatted into it only the effect of their evaluation is kept.
      [type_as_str], imported from the module [goody], gives the name of
      the type of its argument and does not raise.
    - Memory and time are not modelled: a loop over [range(n)] is the list
      of its [n] items, however large [n] is. *)

From Stdlib Require Import ZArith List Bool Lia String Ascii Floats.
From Stdlib Require Import Permutation Sorted DecimalString DecimalZ.
Import ListNotations.
Local Open Scope Z_scope.

(** ** Python values *)

(** The dictionary of a [Sparse_Matrix].  Every route into it
    ([__init__], [__setitem__]) first checks [type(v) is int] on the key
    parts and on the value, and the arithmetic of the class maps [int] to
    [int], so keys are pairs of [Z] and stored values are [Z]. *)
Abbreviation key := (Z * Z)%type (only parsing).
Definition dict : Type := list (key * Z).

Record Sparse_Matrix : Type := Build_Sparse_Matrix
  { rows : Z; cols : Z; matrix : dict }.

Inductive pytype : Type :=
  | t_int | t_float | t_bool | t_str | t_NoneType | t_tuple | t_Sparse_Matrix.

#[local] Set Warnings "-register-all".
Inductive pyval : Type :=
  | PInt (z : Z)
  | PFloat (f : float)
  | PBool (b : bool)
  | PStr (s : string)
  | PNone
  | PTuple (items : list pyval)
  | PMatrix (m : Sparse_Matrix).

Definition type (v : pyval) : pytype :=
  match v with
  | PInt _ => t_int
  | PFloat _ => t_float
  | PBool _ => t_bool
  | PStr _ => t_str
  | PNone => t_NoneType
  | PTuple _ => t_tuple
  | PMatrix _ => t_Sparse_Matrix
  end.

Definition pytype_is (a b : pytype) : bool :=
  match a, b with
  | t_int, t_int | t_float, t_float | t_bool, t_bool | t_str, t_str
  | t_NoneType, t_NoneType | t_tuple, t_tuple
  | t_Sparse_Matrix, t_Sparse_Matrix => true
  | _, _ => false
  end.

(** [a or b] on class objects: a class object is truthy, so the expression
    is its left operand. *)
Definition pytype_truthy (a : pytype) : bool := true.
Definition py_or (a b : pytype) : pytype := if pytype_truthy a then a else b.

(** The guard [type(v) is (int or float)], giving the integer it lets in. *)
Definition is_int_or_float (v : pyval) : bool := pytype_is (type v) (py_or t_int t_float).

Definition checked_number (v : pyval) : option Z :=
  if is_int_or_float v then match v with PInt z => Some z | _ => None end else None.

(** ** Exceptions and results *)

Inductive exn : Type :=
  | TypeError (msg : string)
  | AssertionError (msg : string)
  | IndexError (msg : string)
  | UnboundLocalError (msg : string)
  | ValueError (msg : string).

Inductive result (A : Type) : Type :=
  | Return (a : A)
  | Raise (e : exn).
Arguments Return {A} a.
Arguments Raise {A} e.

Definition rbind {A B} (x : result A) (f : A -> result B) : result B :=
  match x with Return a => f a | Raise e => Raise e end.

Notation "x <- c ;; k" := (rbind c (fun x => k))
  (at level 61, c at next level, right associativity).

Fixpoint mapM {A B} (f : A -> result B) (l : list A) : result (list B) :=
  match l with
  | [] => Return []
  | a :: l' => b <- f a ;; bs <- mapM f l' ;; Return (b :: bs)
  end.

Fixpoint foldM {A B} (f : B -> A -> result B) (l : list A) (b : B) : result B :=
  match l with
  | [] => Return b
  | a :: l' => b' <- f b a ;; foldM f l' b'
  end.

(** Methods that mutate [self]. *)
Definition M (A : Type) : Type := Sparse_Matrix -> result A * Sparse_Matrix.

Definition ret {A} (a : A) : M A := fun self => (Return a, self).
Definition throw {A} (e : exn) : M A := fun self => (Raise e, self).
Definition bind {A B} (x : M A) (f : A -> M B) : M B :=
  fun self => match x self with
              | (Return a, self') => f a self'
              | (Raise e, self') => (Raise e, self')
              end.

Fixpoint for_each {A} (l : list A) (body : A -> M unit) : M unit :=
  match l with
  | [] => ret tt
  | a :: l' => bind (body a) (fun _ => for_each l' body)
  end.

(** [range(n)] and [range(a, b)]. *)
Definition range (n : Z) : list Z := map Z.of_nat (seq 0 (Z.to_nat n)).
Definition range2 (a b : Z) : list Z :=
  map (fun i => a + Z.of_nat i) (seq 0 (Z.to_nat (b - a))).

(** ** Dictionary operations *)

Definition key_eqb (a b : key) : bool := (fst a =? fst b) && (snd a =? snd b).

Fixpoint dict_get (d : dict) (k : key) : option Z :=
  match d with
  | [] => None
  | (k', v) :: d' => if key_eqb k' k then Some v else dict_get d' k
  end.

(** [k in d] *)
Definition dict_in (k : key) (d : dict) : bool :=
  match dict_get d k with Some _ => true | None => false end.

(** [d.get(k, 0)]; where the source reads [d[k]] it does so under the guard
    [k in d], and the two agree there. *)
Definition dict_get0 (d : dict) (k : key) : Z :=
  match dict_get d k with Some v => v | None => 0 end.

(** [d[k] = v]: a key already present keeps its place, a new key goes last. *)
Fixpoint dict_setitem (d : dict) (k : key) (v : Z) : dict :=
  match d with
  | [] => [(k, v)]
  | (k', v') :: d' =>
      if key_eqb k' k then (k', v) :: d' else (k', v') :: dict_setitem d' k v
  end.

(** [d.pop(k)] for a key that is present. *)
Fixpoint dict_pop (d : dict) (k : key) : dict :=
  match d with
  | [] => []
  | (k', v') :: d' => if key_eqb k' k then d' else (k', v') :: dict_pop d' k
  end.

Definition keys (d : dict) : list key := map fst d.
Definition values (d : dict) : list Z := map snd d.

(** ** Messages *)

Local Open Scope string_scope.
Definition msg_init_rows := "Sparse_Matrix.__init__: invalid row argument".
Definition msg_init_cols := "Sparse_Matrix.__init__: invalid column argument".
Definition msg_init_index_type := "Sparse_Matrix.__init__: invalid row, column index type(s)".
Definition msg_init_index := "Sparse_Matrix.__init__: invalid row, column index".
Definition msg_init_dup := "Sparse_Matrix.__init__: row and column index duplicated".
Definition msg_init_value := "Sparse_Matrix.__init__: invalid matrix value type".
Definition msg_argument (meth : string) := "Sparse_Matrix." ++ meth ++ ": invalid argument".
Definition msg_row_index (meth : string) := "Sparse_Matrix." ++ meth ++ ": invalid row index".
Definition msg_col_index (meth : string) := "Sparse_Matrix." ++ meth ++ ": invalid column index".
Definition msg_set_value := "Sparse_Matrix.__setitem__: invalid value type".
Definition msg_call_row := "Sparse_Matrix.__call__: invalid row".
Definition msg_call_col := "Sparse_Matrix.__call__: invalid column".
Definition msg_unbound_k := "local variable 'k' referenced before assignment".
Definition msg_row := "Sparse_Matrix.row: invalid argument".
Definition msg_col := "Sparse_Matrix.col: invalid argument".
Definition msg_tuple_index := "tuple index out of range".
Definition msg_list_index := "list index out of range".
Definition msg_string_index := "string index out of range".
Definition msg_int_digits := "Exceeds the limit (4300 digits) for integer string conversion".
(** The wording of CPython up to 3.11; no property below reads it. *)
Definition msg_max_empty := "max() arg is an empty sequence".

Definition type_name (t : pytype) : string :=
  match t with
  | t_int => "int"
  | t_float => "float"
  | t_bool => "bool"
  | t_str => "str"
  | t_NoneType => "NoneType"
  | t_tuple => "tuple"
  | t_Sparse_Matrix => "Sparse_Matrix"
  end.

Definition msg_not_subscriptable (t : pytype) :=
  "'" ++ type_name t ++ "' object is not subscriptable".

(** ** Text: [str] of an int, of a tuple and of the dictionary *)

(** The decimal text of an int. *)
Definition str_int (z : Z) : string := NilZero.string_of_int (Z.to_int z).

(** The first int that has more than 4300 decimal digits. *)
Definition str_limit : Z := Eval vm_compute in 10 ^ 4300.
Arguments str_limit : simpl never.

(** [str(z)], [repr(z)] and [format(z, ...)] on an int: the decimal text,
    or [ValueError] when the int has more than 4300 digits. *)
Definition str_of_int (z : Z) : result string :=
  if (Z.abs z <? str_limit)%Z then Return (str_int z)
  else Raise (ValueError msg_int_digits).

Fixpoint join (sep : string) (items : list string) : string :=
  match items with
  | [] => ""
  | [x] => x
  | x :: rest => x ++ sep ++ join sep rest
  end.

(** [str] of a tuple whose items are already rendered: a tuple of one item
    carries a trailing comma. *)
Definition str_tuple (items : list string) : string :=
  match items with
  | [] => "()"
  | [x] => "(" ++ x ++ ",)"
  | _ => "(" ++ join ", " items ++ ")"
  end.

(** [str] of a tuple of ints: the items are rendered first, in order. *)
Definition str_of_ints (l : list Z) : result string :=
  items <- mapM str_of_int l ;;
  Return (str_tuple items).

(** [str] of a tuple of tuples of ints. *)
Definition str_of_rows (rws : list (list Z)) : result string :=
  items <- mapM str_of_ints rws ;;
  Return (str_tuple items).

(** [str] of the dictionary: each key, then its value, in insertion order. *)
Definition str_of_dict (d : dict) : result string :=
  items <- mapM (fun kv =>
                   k <- str_of_ints [fst (fst kv); snd (fst kv)] ;;
                   v <- str_of_int (snd kv) ;;
                   Return (k ++ ": " ++ v)) d ;;
  Return ("{" ++ join ", " items ++ "}").

(** [s.split(sep)] for a separator that is not empty.  [skip] counts the
    characters of a separator just matched that are still to be passed over. *)
Fixpoint split_from (sep s : string) (skip : nat) (cur : string) : list string :=
  match s with
  | EmptyString => [cur]
  | String ch s' =>
      match skip with
      | S n => split_from sep s' n cur
      | O => if prefix sep s
             then cur :: split_from sep s' (String.length sep - 1) ""
             else split_from sep s' 0 (cur ++ String ch "")
      end
  end.

Definition split (s sep : string) : list string := split_from sep s 0 "".

Definition list_index {A} (l : list A) (i : nat) : result A :=
  match nth_error l i with
  | Some a => Return a
  | None => Raise (IndexError msg_list_index)
  end.

(** [n * ' '] *)
Fixpoint spaces (n : nat) : string :=
  match n with
  | O => ""
  | S n' => String " " (spaces n')
  end.

(** ['{num: >{width}}'.format(num=num, width=width)] for an int whose text
    exists: the text with spaces on its left up to [width] characters,
    never cut. *)
Definition format_right (num : Z) (width : nat) : string :=
  spaces (width - String.length (str_int num)) ++ str_int num.

(** [max] of a sequence; it raises [ValueError] on an empty one. *)
Definition py_max (l : list nat) : result nat :=
  match l with
  | [] => Raise (ValueError msg_max_empty)
  | x :: l' => Return (fold_left Nat.max l' x)
  end.

Definition newline : string := String (ascii_of_nat 10) "".

Local Close Scope string_scope.

(** ** The class: size and the two renderings *)

Definition size (self : Sparse_Matrix) : Z * Z := (rows self, cols self).

Definition __len__ (self : Sparse_Matrix) : Z := rows self * cols self.

Definition __bool__ (self : Sparse_Matrix) : bool :=
  if negb (Z.of_nat (List.length (matrix self)) =? 0) then true else false.

Local Open Scope string_scope.

(** [__str__]: the size, then the dense view, every cell right-aligned to
    the width of the longest one.  [max] draws the widths from a generator
    that renders the cells column by column, so a cell that cannot be
    rendered raises there; the formatting that follows renders the same
    cells again and cannot raise. *)
Definition __str__ (self : Sparse_Matrix) : result string :=
  rs <- str_of_int (rows self) ;;
  cs <- str_of_int (cols self) ;;
  let size := rs ++ "x" ++ cs in
  widths <- mapM (fun rc => s <- str_of_int (dict_get0 (matrix self) rc) ;;
                            Return (String.length s))
                 (flat_map (fun c => map (fun r => (r, c)) (range (rows self)))
                           (range (cols self))) ;;
  width <- py_max widths ;;
  Return (size ++ ":["
          ++ join (newline ++ spaces (2 + String.length size))
               (map (fun r => join "  "
                                (map (fun c => format_right (dict_get0 (matrix self) (r, c)) width)
                                     (range (cols self))))
                    (range (rows self)))
          ++ "]").

Definition __repr__ (self : Sparse_Matrix) : result string :=
  triples_list <- mapM (fun kv => str_of_ints [fst (fst kv); snd (fst kv); snd kv])
                       (matrix self) ;;
  let triples_str := join "," triples_list in
  rs <- str_of_int (rows self) ;;
  cs <- str_of_int (cols self) ;;
  Return ("Sparse_Matrix(" ++ rs ++ ", " ++ cs ++ ", " ++ triples_str ++ ")").

Local Close Scope string_scope.

(** ** Messages that format their operands *)

(** What evaluating [repr(v)] does: it returns, or it raises.  A tuple
    renders its items in order; a [Sparse_Matrix] is rendered by its
    [__repr__]. *)
Fixpoint repr_effect (v : pyval) : result unit :=
  match v with
  | PInt z => _ <- str_of_int z ;; Return tt
  | PFloat _ | PBool _ | PStr _ | PNone => Return tt
  | PTuple items =>
      (fix each (l : list pyval) : result unit :=
         match l with
         | [] => Return tt
         | x :: l' => _ <- repr_effect x ;; each l'
         end) items
  | PMatrix m => _ <- __repr__ m ;; Return tt
  end.

(** What evaluating [str(v)] does: as [repr(v)], but for a
    [Sparse_Matrix], which is rendered by its [__str__]. *)
Definition str_effect (v : pyval) : result unit :=
  match v with
  | PMatrix m => _ <- __str__ m ;; Return tt
  | _ => repr_effect v
  end.

(** [raise E(head + str(a) + ... )], and a failing [assert] with such a
    message: the operands are evaluated from left to right, and the
    exception [e] is raised when none of them has raised. *)
Definition raise_msg {A} (operands : list (result unit)) (e : exn) : result A :=
  match foldM (fun _ (o : result unit) => o) operands tt with
  | Return _ => Raise e
  | Raise e' => Raise e'
  end.

(** The tuple [self.size()] as a Python value. *)
Definition size_value (self : Sparse_Matrix) : pyval :=
  PTuple [PInt (rows self); PInt (cols self)].

(** ** The class: indexed access *)

Definition with_matrix (self : Sparse_Matrix) (d : dict) : Sparse_Matrix :=
  {| rows := rows self; cols := cols self; matrix := d |}.

(** The three checks that open [__getitem__], [__setitem__] and
    [__delitem__]; they differ in the method name of the message only. *)
Definition check_row_col (meth : string) (self : Sparse_Matrix) (row_col : pyval)
  : result key :=
  match row_col with
  | PTuple [PInt r; PInt c] =>
      if (r <? 0) || (r >? rows self - 1)
      then raise_msg [str_effect (PInt r);
                      str_effect (PInt (rows self)); str_effect (PInt (cols self))]
                     (TypeError (msg_row_index meth))
      else if (c <? 0) || (c >? cols self - 1)
      then raise_msg [str_effect (PInt c);
                      str_effect (PInt (rows self)); str_effect (PInt (cols self))]
                     (TypeError (msg_col_index meth))
      else Return (r, c)
  | _ => raise_msg [str_effect row_col] (TypeError (msg_argument meth))
  end.

Definition __getitem__ (self : Sparse_Matrix) (row_col : pyval) : result Z :=
  k <- check_row_col "__getitem__" self row_col ;;
  if negb (dict_in k (matrix self)) then Return 0
  else Return (dict_get0 (matrix self) k).

Definition __setitem__ (row_col value : pyval) : M unit :=
  fun self =>
  match check_row_col "__setitem__" self row_col with
  | Raise e => (Raise e, self)
  | Return k =>
      match checked_number value with
      | None => (Raise (TypeError msg_set_value), self)
      | Some v =>
          if (v =? 0) && dict_in k (matrix self)
          then (Return tt, with_matrix self (dict_pop (matrix self) k))
          else if negb (v =? 0)
          then (Return tt, with_matrix self (dict_setitem (matrix self) k v))
          else (Return tt, self)
      end
  end.

Definition __delitem__ (row_col : pyval) : M unit :=
  fun self =>
  match check_row_col "__delitem__" self row_col with
  | Raise e => (Raise e, self)
  | Return k =>
      if dict_in k (matrix self)
      then (Return tt, with_matrix self (dict_pop (matrix self) k))
      else (Return tt, self)
  end.

(** The operands of the message of [row] and [col]: the argument, then the
    two dimensions. *)
Definition line_operands (self : Sparse_Matrix) (arg : pyval) : list (result unit) :=
  [str_effect arg; str_effect (PInt (rows self)); str_effect (PInt (cols self))].

Definition row (self : Sparse_Matrix) (r : pyval) : result (list Z) :=
  match r with
  | PInt r' =>
      if negb ((-1 <? r') && (r' <? rows self))
      then raise_msg (line_operands self r) (AssertionError msg_row) else
      Return (map (fun i => if negb (dict_in (r', i) (matrix self)) then 0
                            else dict_get0 (matrix self) (r', i))
                  (range (cols self)))
  | _ => raise_msg (line_operands self r) (AssertionError msg_row)
  end.

Definition col (self : Sparse_Matrix) (c : pyval) : result (list Z) :=
  match c with
  | PInt c' =>
      if negb ((-1 <? c') && (c' <? cols self))
      then raise_msg (line_operands self c) (AssertionError msg_col) else
      Return (map (fun i => if negb (dict_in (i, c') (matrix self)) then 0
                            else dict_get0 (matrix self) (i, c'))
                  (range (rows self)))
  | _ => raise_msg (line_operands self c) (AssertionError msg_col)
  end.

Local Open Scope string_scope.

Definition details (self : Sparse_Matrix) : result string :=
  all_rows <- mapM (fun i => row self (PInt i)) (range (rows self)) ;;
  rs <- str_of_int (rows self) ;;
  cs <- str_of_int (cols self) ;;
  let matrix_size := rs ++ "x" ++ cs in
  ds <- str_of_dict (matrix self) ;;
  ts <- str_of_rows all_rows ;;
  Return (matrix_size ++ " -> " ++ ds ++ " -> " ++ ts).

Local Close Scope string_scope.

(** ** The class: construction *)

(** [tup[i]] for [i] one of 0, 1, 2 on a seed of the constructor.  A tuple
    and a string are indexed; a [Sparse_Matrix] is asked through its
    [__getitem__], which refuses an int; the other values are not
    subscriptable. *)
Definition subscript (tup : pyval) (i : nat) : result pyval :=
  match tup with
  | PTuple items =>
      match nth_error items i with
      | Some x => Return x
      | None => Raise (IndexError msg_tuple_index)
      end
  | PStr s =>
      match String.get i s with
      | Some ch => Return (PStr (String ch EmptyString))
      | None => Raise (IndexError msg_string_index)
      end
  | PMatrix m => z <- __getitem__ m (PInt (Z.of_nat i)) ;; Return (PInt z)
  | _ => Raise (TypeError (msg_not_subscriptable (type tup)))
  end.

(** The body of the loop of [__init__] over the seeds. *)
Definition init_step (rows cols : Z) (matrix_dict : dict) (tup : pyval) : result dict :=
  t0 <- subscript tup 0 ;;
  match t0 with
  | PInt r =>
      t1 <- subscript tup 1 ;;
      match t1 with
      | PInt c =>
          if negb ((-1 <? r) && (r <? rows) && ((-1 <? c) && (c <? cols)))
          then raise_msg [str_effect (PInt r); str_effect (PInt c);
                          str_effect (PInt rows); str_effect (PInt cols)]
                         (AssertionError msg_init_index)
          else if dict_in (r, c) matrix_dict
          then raise_msg [str_effect (PInt r); str_effect (PInt c)]
                         (AssertionError msg_init_dup)
          else
            t2 <- subscript tup 2 ;;
            match checked_number t2 with
            | None => Raise (AssertionError msg_init_value)
            | Some v =>
                if negb (v =? 0)
                then Return (dict_setitem matrix_dict (r, c) v)
                else Return matrix_dict
            end
      | _ => Raise (AssertionError msg_init_index_type)
      end
  | _ => Raise (AssertionError msg_init_index_type)
  end.

Definition __init__ (rows cols : pyval) (matrix : list pyval) : result Sparse_Matrix :=
  match rows with
  | PInt rows_n =>
      if negb (rows_n >? 0)
      then raise_msg [str_effect rows] (AssertionError msg_init_rows) else
      match cols with
      | PInt cols_n =>
          if negb (cols_n >? 0)
          then raise_msg [str_effect cols] (AssertionError msg_init_cols) else
          matrix_dict <- foldM (init_step rows_n cols_n) matrix [] ;;
          Return (Build_Sparse_Matrix rows_n cols_n matrix_dict)
      | _ => raise_msg [str_effect cols] (AssertionError msg_init_cols)
      end
  | _ => raise_msg [str_effect rows] (AssertionError msg_init_rows)
  end.

(** ** The class: resizing *)

(** The variable [k] of the copying loop of [__call__] after that loop:
    the last key of the dictionary, unbound when the dictionary is empty. *)
Definition last_key (d : dict) : option key :=
  match rev d with
  | [] => None
  | (k, _) :: _ => Some k
  end.

Definition call_body (new_rows new_cols : Z) (k : option key) (k1 : key) : M unit :=
  bind (if fst k1 >=? new_rows
        then fun self =>
               for_each (range (cols self))
                 (fun c => __delitem__ (PTuple [PInt (fst k1); PInt c])) self
        else ret tt)
       (fun _ =>
          if snd k1 >=? new_cols
          then fun self =>
                 for_each (range (rows self))
                   (fun r => match k with
                             | Some k => __delitem__ (PTuple [PInt r; PInt (snd k)])
                             | None => throw (UnboundLocalError msg_unbound_k)
                             end) self
          else ret tt).

(** [__call__]: the two assertions, the copy of the dictionary, the pruning
    loop over the keys of the copy, and the rebinding of [rows] and [cols]
    (the [del] before each is what lets it through [__setattr__]). *)
Definition __call__ (new_rows new_cols : pyval) : M unit :=
  fun self =>
  match new_rows with
  | PInt new_rows_n =>
      if negb (new_rows_n >? 0)
      then (raise_msg [str_effect new_rows] (AssertionError msg_call_row), self) else
      match new_cols with
      | PInt new_cols_n =>
          if negb (new_cols_n >? 0)
          then (raise_msg [str_effect new_cols] (AssertionError msg_call_col), self) else
          let matrix_copy := fold_left (fun cp kv => dict_setitem cp (fst kv) (snd kv))
                                       (matrix self) [] in
          let k := last_key (matrix self) in
          bind (for_each (keys matrix_copy) (call_body new_rows_n new_cols_n k))
               (fun _ self' =>
                  (Return tt,
                   {| rows := new_rows_n; cols := new_cols_n; matrix := matrix self' |}))
               self
      | _ => (raise_msg [str_effect new_cols] (AssertionError msg_call_col), self)
      end
  | _ => (raise_msg [str_effect new_rows] (AssertionError msg_call_row), self)
  end.

(** ** Iteration *)

(** [sorted(l, key=f)] is stable: of two items with equal keys the one that
    comes first in [l] comes first in the result.  The stable sorted
    permutation of a list is unique (lemma [sorted_characterised] below), so
    insertion from the right, each item placed before the first item whose
    key is not smaller, computes what the sort of Python returns. *)
Fixpoint insert_by {A} (f : A -> Z) (x : A) (l : list A) : list A :=
  match l with
  | [] => [x]
  | y :: l' => if f x <=? f y then x :: l else y :: insert_by f x l'
  end.

Definition sorted {A} (l : list A) (f : A -> Z) : list A :=
  fold_right (insert_by f) [] l.

(** [__iter__] is a generator; the list holds what it yields, in order. *)
Definition __iter__ (self : Sparse_Matrix) : list (Z * Z * Z) :=
  map (fun x => (fst (fst x), snd (fst x), snd x))
      (sorted (matrix self) (fun x => snd x)).

(** ** Arithmetic *)

Definition msg_add_size := "Sparse_Matrix.__add__: Sparse_Matrix size(s) incompatible for +"%string.
Definition msg_add_type := "Sparse_Matrix.__add__: unsupported operand type(s) for +"%string.
Definition msg_sub_size := "Sparse_Matrix.__sub__: Sparse_Matrix size(s) incompatible for -"%string.
Definition msg_sub_type := "Sparse_Matrix.__sub__: unsupported operand type(s) for -"%string.
Definition msg_mul_size := "Sparse_Matrix.__mul__: Sparse_Matrix size(s) incompatible for *"%string.
Definition msg_mul_type := "Sparse_Matrix.__mul__: unsupported operand type(s) for *"%string.
Definition msg_pow_operand := "Sparse_Matrix.__pow__: invalid operand"%string.
Definition msg_pow_size := "Sparse_Matrix.__pow__: Sparse_Matrix size incompatible for **: must have equal rows and columns"%string.
Definition msg_pow_type := "Sparse_Matrix.__pow__: unsupported operand type(s) for **"%string.

Definition size_eqb (a b : Z * Z) : bool := (fst a =? fst b) && (snd a =? snd b).

(** The operands of the message of a failed size assertion:
    [str(self.size())], then [str(right.size())]. *)
Definition size_operands (self right : Sparse_Matrix) : list (result unit) :=
  [str_effect (size_value self); str_effect (size_value right)].

(** [[(k[0], k[1], f(v)) for k, v in self.matrix.items()]] *)
Definition triples_of (f : Z -> Z) (d : dict) : list pyval :=
  map (fun kv => PTuple [PInt (fst (fst kv)); PInt (snd (fst kv)); PInt (f (snd kv))]) d.

Definition __pos__ (self : Sparse_Matrix) : result Sparse_Matrix :=
  __init__ (PInt (rows self)) (PInt (cols self)) (triples_of (fun v => v) (matrix self)).

Definition __neg__ (self : Sparse_Matrix) : result Sparse_Matrix :=
  __init__ (PInt (rows self)) (PInt (cols self)) (triples_of (fun v => - v) (matrix self)).

Definition __abs__ (self : Sparse_Matrix) : result Sparse_Matrix :=
  __init__ (PInt (rows self)) (PInt (cols self)) (triples_of Z.abs (matrix self)).

(** In the arithmetic methods [right_m] is [right] once it is known to be a
    [Sparse_Matrix], and [right_n] once it has passed the guard for
    numbers. *)
Definition __add__ (self : Sparse_Matrix) (right : pyval) : result Sparse_Matrix :=
  match right with
  | PMatrix right_m =>
      if negb (size_eqb (size self) (size right_m))
      then raise_msg (size_operands self right_m) (AssertionError msg_add_size) else
      matrix <- mapM (fun kv =>
                        x <- __getitem__ right_m (PTuple [PInt (fst (fst kv)); PInt (snd (fst kv))]) ;;
                        Return (PTuple [PInt (fst (fst kv)); PInt (snd (fst kv)); PInt (snd kv + x)]))
                     (matrix self) ;;
      __init__ (PInt (rows self)) (PInt (cols self)) matrix
  | _ =>
      match checked_number right with
      | Some right_n =>
          __init__ (PInt (rows self)) (PInt (cols self))
                   (triples_of (fun v => v + right_n) (matrix self))
      | None => Raise (TypeError msg_add_type)
      end
  end.

Definition __radd__ (self : Sparse_Matrix) (left : pyval) : result Sparse_Matrix :=
  __add__ self left.

Definition __sub__ (self : Sparse_Matrix) (right : pyval) : result Sparse_Matrix :=
  match right with
  | PMatrix right_m =>
      if negb (size_eqb (size self) (size right_m))
      then raise_msg (size_operands self right_m) (AssertionError msg_sub_size) else
      neg <- __neg__ right_m ;;
      __add__ self (PMatrix neg)
  | _ =>
      match checked_number right with
      | Some right_n => __add__ self (PInt (- right_n))
      | None => Raise (TypeError msg_sub_type)
      end
  end.

Definition __rsub__ (self : Sparse_Matrix) (left : pyval) : result Sparse_Matrix :=
  match checked_number left with
  | Some left_n =>
      __init__ (PInt (rows self)) (PInt (cols self))
               (triples_of (fun v => left_n - v) (matrix self))
  | None => __sub__ self left
  end.

(** [t[i]] on a tuple. *)
Definition tuple_index (t : list Z) (i : Z) : result Z :=
  let n := Z.of_nat (List.length t) in
  if (0 <=? i) && (i <? n) then Return (nth (Z.to_nat i) t 0)
  else if (- n <=? i) && (i <? 0) then Return (nth (Z.to_nat (n + i)) t 0)
  else Raise (IndexError msg_tuple_index).

(** The innermost loop of [__mul__]: [value] for the cell [(r, c)]. *)
Definition mul_value (self right : Sparse_Matrix) (r c : Z) : result Z :=
  foldM (fun value i =>
           rw <- row self (PInt r) ;;
           a <- tuple_index rw i ;;
           cl <- col right (PInt c) ;;
           b <- tuple_index cl i ;;
           Return (value + a * b))
        (range (cols self)) 0.

Definition __mul__ (self : Sparse_Matrix) (right : pyval) : result Sparse_Matrix :=
  match right with
  | PMatrix right_m =>
      if negb (cols self =? rows right_m)
      then raise_msg (size_operands self right_m) (AssertionError msg_mul_size) else
      matrix <- mapM (fun r =>
                        mapM (fun c =>
                                value <- mul_value self right_m r c ;;
                                Return (PTuple [PInt r; PInt c; PInt value]))
                             (range (cols right_m)))
                     (range (rows self)) ;;
      __init__ (PInt (rows self)) (PInt (cols right_m)) (List.concat matrix)
  | _ =>
      match checked_number right with
      | Some right_n =>
          __init__ (PInt (rows self)) (PInt (cols self))
                   (triples_of (fun v => v * right_n) (matrix self))
      | None => Raise (TypeError msg_mul_type)
      end
  end.

Definition __rmul__ (self : Sparse_Matrix) (left : pyval) : result Sparse_Matrix :=
  __mul__ self left.

Definition __pow__ (self : Sparse_Matrix) (right : pyval) : result Sparse_Matrix :=
  match right with
  | PInt right_n =>
      if negb (right_n >? 0)
      then raise_msg [str_effect right] (AssertionError msg_pow_operand) else
      if negb (rows self =? cols self)
      then raise_msg [str_effect (size_value self)] (AssertionError msg_pow_size) else
      foldM (fun pow_mat _ => __mul__ pow_mat (PMatrix self)) (range2 1 right_n) self
  | _ => Raise (TypeError msg_pow_type)
  end.

(** [l.count(x)] *)
Definition count (l : list Z) (x : Z) : Z :=
  Z.of_nat (List.length (filter (fun y => y =? x) l)).

Definition __eq__ (self : Sparse_Matrix) (right : pyval) : result bool :=
  match right with
  | PMatrix right_m =>
      if size_eqb (size right_m) (size self) then
        dr <- details right_m ;;
        tr <- list_index (split dr " -> ") 2 ;;
        ds <- details self ;;
        ts <- list_index (split ds " -> ") 2 ;;
        if String.eqb tr ts then Return true else Return false
      else Return false
  | _ =>
      match checked_number right with
      | Some right_n =>
          if (right_n =? 0) && negb (__bool__ self) then Return true
          else if negb (right_n =? 0) then
            let all_values := values (matrix self) in
            if count all_values right_n =? __len__ self then Return true else Return false
          else Return false
      | None => Return false
      end
  end.

(** ** The attribute guard *)

Local Open Scope string_scope.

(** The [__dict__] of an instance: the attributes bound so far, in the
    order of their binding.  [V] is the type of the attribute values. *)
Definition attrs (V : Type) : Type := list (string * V).

Fixpoint attr_get {V} (d : attrs V) (name : string) : option V :=
  match d with
  | [] => None
  | (n, v) :: d' => if String.eqb n name then Some v else attr_get d' name
  end.

(** [name in self.__dict__] *)
Definition attr_in {V} (name : string) (d : attrs V) : bool :=
  match attr_get d name with Some _ => true | None => false end.

(** [name in ['rows', 'cols', 'matrix']] *)
Definition declared (name : string) : bool :=
  existsb (String.eqb name) ["rows"; "cols"; "matrix"].

Definition msg_setattr :=
  "Sparse_Matrix.__setattr__: Sparse_Matrix object cannot store new attributes or re-bind existing attributes".

Definition __setattr__ {V} (name : string) (value : V) (d : attrs V) : result (attrs V) :=
  if negb (declared name && negb (attr_in name d))
  then Raise (AssertionError msg_setattr)
  else if declared name
       then if negb (attr_in name d) then Return (d ++ [(name, value)])%list else Return d
       else Return d.

(** [del self.name], which the class leaves to [object]: the binding goes;
    [None] stands for the [AttributeError] on a name that is not bound. *)
Fixpoint attr_del {V} (name : string) (d : attrs V) : option (attrs V) :=
  match d with
  | [] => None
  | (n, v) :: d' =>
      if String.eqb n name then Some d'
      else match attr_del name d' with
           | Some d'' => Some ((n, v) :: d'')
           | None => None
           end
  end.

Local Close Scope string_scope.

(** * Vocabulary of the properties *)

(** ** The invariants of the data model *)

Definition keys_in_bounds (self : Sparse_Matrix) : Prop :=
  Forall (fun kv => (0 <= fst (fst kv) < rows self) /\ (0 <= snd (fst kv) < cols self))
         (matrix self).

Definition no_zero_value (self : Sparse_Matrix) : Prop :=
  Forall (fun kv => snd kv <> 0) (matrix self).

(** Positive dimensions; keys distinct, as in any Python dictionary; no
    stored zero; every key inside the bounds. *)
Record invariant (self : Sparse_Matrix) : Prop := Build_invariant
  { inv_rows : 0 < rows self;
    inv_cols : 0 < cols self;
    inv_keys : NoDup (keys (matrix self));
    inv_no_zero : no_zero_value self;
    inv_bounds : keys_in_bounds self }.

(** The same on a dictionary inside an [R] by [C] matrix. *)
Definition dict_ok (R C : Z) (d : dict) : Prop :=
  NoDup (keys d)
  /\ Forall (fun kv => snd kv <> 0) d
  /\ Forall (fun kv => (0 <= fst (fst kv) < R) /\ (0 <= snd (fst kv) < C)) d.

(** ** Ints that can be rendered *)

(** [str] accepts the int: it has at most 4300 decimal digits. *)
Definition printable (z : Z) : bool := Z.abs z <? str_limit.

Definition printable_entry (kv : key * Z) : bool :=
  printable (fst (fst kv)) && printable (snd (fst kv)) && printable (snd kv).

(** Every int of the matrix can be rendered: the two dimensions, and the
    key and the value of every stored entry. *)
Definition printable_matrix (self : Sparse_Matrix) : bool :=
  printable (rows self) && printable (cols self) && forallb printable_entry (matrix self).

(** The two dimensions can be rendered. *)
Definition printable_size (self : Sparse_Matrix) : bool :=
  printable (rows self) && printable (cols self).

(** A matrix with a dimension, and one with a value, of 4301 digits. *)
Definition m_wide : Sparse_Matrix := {| rows := str_limit; cols := 1; matrix := [] |}.
Definition m_big : Sparse_Matrix := {| rows := 1; cols := 1; matrix := [((0, 0), str_limit)] |}.

(** ** Arguments, cells and entries *)

(** The triple [(r, c, v)] and the index [(r, c)] of ints. *)
Definition tup (r c v : Z) : pyval := PTuple [PInt r; PInt c; PInt v].
Definition at_ (r c : Z) : pyval := PTuple [PInt r; PInt c].

Definition entry_triple (kv : key * Z) : pyval :=
  PTuple [PInt (fst (fst kv)); PInt (snd (fst kv)); PInt (snd kv)].

Definition nonzero (kv : key * Z) : bool := negb (snd kv =? 0).

(** The value of the logical cell [(r, c)]: the stored value, or zero. *)
Definition cell (self : Sparse_Matrix) (r c : Z) : Z := dict_get0 (matrix self) (r, c).

(** The dense view: the rows of logical cells, top to bottom. *)
Definition all_rows (self : Sparse_Matrix) : list (list Z) :=
  map (fun r => map (fun c => cell self r c) (range (cols self))) (range (rows self)).

Definition item_triple (x : key * Z) : Z * Z * Z := (fst (fst x), snd (fst x), snd x).

(** The stored entries as triples, in the order of the dictionary. *)
Definition entries (self : Sparse_Matrix) : list (Z * Z * Z) :=
  map item_triple (matrix self).

Definition col_of (t : Z * Z * Z) : Z := snd (fst t).
Definition value_of (t : Z * Z * Z) : Z := snd t.

Definition ascending (f : Z * Z * Z -> Z) (l : list (Z * Z * Z)) : Prop :=
  StronglySorted (fun a b => f a <= f b) l.

(** The order that [sorted] establishes on the keys that [f] computes. *)
Definition key_le {A : Type} (f : A -> Z) (a b : A) : Prop := f a <= f b.

(** A seed that the constructor lets in: a tuple whose first three items
    are ints, the two indices inside the bounds.  Items after the third are
    never read. *)
Definition int_triple_in (R C : Z) (t : pyval) : Prop :=
  exists r c v rest,
    t = PTuple (PInt r :: PInt c :: PInt v :: rest) /\ 0 <= r < R /\ 0 <= c < C.

(** An item that the message of an assertion can render: an int of at most
    4300 digits, or anything that is not an int (and is not rendered). *)
Definition printable_item (v : pyval) : bool :=
  match v with PInt z => printable z | _ => true end.

(** A seed that is a tuple of three items or more whose first two items
    can be rendered. *)
Definition shaped (seed : pyval) : Prop :=
  exists t0 t1 t2 rest,
    seed = PTuple (t0 :: t1 :: t2 :: rest)
    /\ printable_item t0 = true /\ printable_item t1 = true.

(** The values that [tup[i]] can index: tuples, strings, and a
    [Sparse_Matrix] through its [__getitem__]. *)
Definition subscriptable (v : pyval) : bool :=
  match v with
  | PStr _ | PTuple _ | PMatrix _ => true
  | _ => false
  end.

(** The entry that the constructor reads from a seed. *)
Definition reads_as (seed : pyval) (kv : key * Z) : Prop :=
  exists rest,
    seed = PTuple (PInt (fst (fst kv)) :: PInt (snd (fst kv)) :: PInt (snd kv) :: rest).

(** A triple that [__iter__] yields, as an argument of the constructor. *)
Definition triple_arg (t : Z * Z * Z) : pyval :=
  tup (fst (fst t)) (snd (fst t)) (snd t).

(** ** Resizing, addition, products and powers *)

(** One turn of the pruning loop of [__call__] on the dictionary: the row of
    [k1] is emptied when it is out of the new range, and the column of the
    last key [k] is emptied when the column of [k1] is out of the new
    range. *)
Definition prune_step (new_rows new_cols R C : Z) (k : key) (d : dict) (k1 : key) : dict :=
  let d1 := if fst k1 >=? new_rows
            then fold_left (fun d c => dict_pop d (fst k1, c)) (range C) d
            else d in
  if snd k1 >=? new_cols
  then fold_left (fun d r => dict_pop d (r, snd k)) (range R) d1
  else d1.

(** The entries of [d], each with [f] of its key added, zeros dropped. *)
Definition add_entries (f : key -> Z) (d : dict) : dict :=
  filter nonzero (map (fun kv => (fst kv, snd kv + f (fst kv))) d).

(** The inner product of row [r] of [a] and column [c] of [b]. *)
Definition dot (a b : Sparse_Matrix) (r c : Z) : Z :=
  fold_left (fun value i => value + cell a r i * cell b i c) (range (cols a)) 0.

(** The cells [(r, c)] of an [R] by [C] grid in row-major order, each with
    the value [f r c]. *)
Definition grid (R C : Z) (f : Z -> Z -> Z) : list (key * Z) :=
  List.concat (map (fun r => map (fun c => ((r, c), f r c)) (range C)) (range R)).

(** The matrix product: shape [(a.rows, b.cols)], the inner products that
    are not zero stored in row-major order. *)
Definition product (a b : Sparse_Matrix) : Sparse_Matrix :=
  {| rows := rows a; cols := cols b;
     matrix := filter nonzero (grid (rows a) (cols b) (dot a b)) |}.

(** The power as the specification words it: [m] multiplied [n] times on
    the right by the original [m], one multiplication after the other. *)
Fixpoint power_chain (m : Sparse_Matrix) (n : nat) : result Sparse_Matrix :=
  match n with
  | O => Return m
  | S n' => p <- power_chain m n' ;; __mul__ p (PMatrix m)
  end.

(** The same with the matrix product in place of [__mul__]. *)
Fixpoint matrix_power (m : Sparse_Matrix) (n : nat) : Sparse_Matrix :=
  match n with
  | O => m
  | S n' => product (matrix_power m n') m
  end.

(** The identity matrix of size [n], its ones stored along the diagonal. *)
Definition identity (n : Z) : Sparse_Matrix :=
  {| rows := n; cols := n; matrix := map (fun i => ((i, i), 1)) (range n) |}.

(** ** Characters and rendered rows *)

Fixpoint all_chars (p : ascii -> bool) (s : string) : bool :=
  match s with
  | EmptyString => true
  | String c s' => p c && all_chars p s'
  end.

(** The characters of [str] of an int. *)
Definition numeric (c : ascii) : bool :=
  match c with
  | "0" | "1" | "2" | "3" | "4" | "5" | "6" | "7" | "8" | "9" | "-" => true
  | _ => false
  end%char.

Definition not_gt (c : ascii) : bool := negb (Ascii.eqb c ">").

(** The text of the dictionary, when every int in it can be rendered. *)
Definition str_dict (d : dict) : string :=
  ("{" ++ join ", " (map (fun kv => str_tuple [str_int (fst (fst kv)); str_int (snd (fst kv))]
                                    ++ ": " ++ str_int (snd kv)) d) ++ "}")%string.

(** [str] of a row of ints, and of the tuple of all rows. *)
Definition render_row (rw : list Z) : string := str_tuple (map str_int rw).
Definition render_rows (rws : list (list Z)) : string := str_tuple (map render_row rws).

(** [str((r, c, v))] for a stored entry, as [__repr__] writes it. *)
Definition str_triple (kv : Z * Z * Z) : string :=
  str_tuple [str_int (fst (fst kv)); str_int (snd (fst kv)); str_int (snd kv)].

(** The text of [__repr__], when every int in it can be rendered. *)
Definition repr_text (self : Sparse_Matrix) : string :=
  ("Sparse_Matrix(" ++ str_int (rows self) ++ ", " ++ str_int (cols self) ++ ", "
   ++ join "," (map str_triple (matrix self)) ++ ")")%string.


(** ** Attributes *)

(** A run of assignments [self.name = value], each in a [try]: one that
    raises leaves the attributes as they were. *)
Definition assign_all {V} (ops : list (string * V)) (d : attrs V) : attrs V :=
  fold_left (fun d op => match __setattr__ (fst op) (snd op) d with
                         | Return d' => d'
                         | Raise _ => d
                         end) ops d.

(** ** Matrices of the examples *)

(** [Sparse_Matrix(3, 3, (0,0,1), (1,1,3), (2,2,1))], the matrix of the main
    block of the source. *)
Definition m_3x3 : Sparse_Matrix :=
  {| rows := 3; cols := 3; matrix := [((0, 0), 1); ((1, 1), 3); ((2, 2), 1)] |}.

(** [Sparse_Matrix(2, 3, (0,2,5), (0,0,7))] *)
Definition m_2x3 : Sparse_Matrix :=
  {| rows := 2; cols := 3; matrix := [((0, 2), 5); ((0, 0), 7)] |}.

(** [Sparse_Matrix(2, 3, (1,1,9), (0,2,5), (0,0,7))] *)
Definition m_2x3' : Sparse_Matrix :=
  {| rows := 2; cols := 3; matrix := [((1, 1), 9); ((0, 2), 5); ((0, 0), 7)] |}.

(** [Sparse_Matrix(1, 2, (0,1,1), (0,0,2))] *)
Definition m_1x2 : Sparse_Matrix :=
  {| rows := 1; cols := 2; matrix := [((0, 1), 1); ((0, 0), 2)] |}.

(** [Sparse_Matrix(2, 2, (0,0,1))] and [Sparse_Matrix(2, 2, (1,1,1))] *)
Definition m_a : Sparse_Matrix := {| rows := 2; cols := 2; matrix := [((0, 0), 1)] |}.
Definition m_b : Sparse_Matrix := {| rows := 2; cols := 2; matrix := [((1, 1), 1)] |}.

(** [Sparse_Matrix(1, 1)] and [Sparse_Matrix(1, 1, (0,0,1))] *)
Definition m_1x1 : Sparse_Matrix := {| rows := 1; cols := 1; matrix := [] |}.
Definition m_1x1_one : Sparse_Matrix := {| rows := 1; cols := 1; matrix := [((0, 0), 1)] |}.

(** * Properties *)

(** ** Loops and ranges *)

Lemma mapM_Return {A B} (f : A -> result B) (g : A -> B) (l : list A) :
  (forall a, In a l -> f a = Return (g a)) -> mapM f l = Return (map g l).
Proof.
  induction l as [|a l IH]; intros H; [reflexivity|].
  cbn [mapM map]. rewrite (H a) by now left.
  cbn [rbind]. rewrite IH by (intros; apply H; now right). reflexivity.
Qed.

Lemma foldM_Return {A B} (f : B -> A -> result B) (g : B -> A -> B) (l : list A) (b : B) :
  (forall a b, In a l -> f b a = Return (g b a)) -> foldM f l b = Return (fold_left g l b).
Proof.
  revert b. induction l as [|a l IH]; intros b H; [reflexivity|].
  cbn [foldM fold_left]. rewrite (H a b) by now left.
  cbn [rbind]. apply IH. intros; apply H; now right.
Qed.

Lemma foldM_app {A B} (f : B -> A -> result B) (l1 l2 : list A) (b : B) :
  foldM f (l1 ++ l2) b = (b' <- foldM f l1 b ;; foldM f l2 b').
Proof.
  revert b. induction l1 as [|a l1 IH]; intros b; [reflexivity|].
  cbn [foldM app]. destruct (f b a); cbn [rbind]; [apply IH | reflexivity].
Qed.

Lemma foldM_preserves {A B} (P : B -> Prop) (f : B -> A -> result B) (l : list A) :
  (forall b a b', P b -> f b a = Return b' -> P b') ->
  forall b b', P b -> foldM f l b = Return b' -> P b'.
Proof.
  intros Hf. induction l as [|a l IH]; intros b b' Hb H.
  - inversion H; now subst.
  - cbn [foldM] in H. destruct (f b a) eqn:E; cbn [rbind] in H; [|discriminate].
    eapply IH; [|exact H]. eapply Hf; eauto.
Qed.

Lemma foldM_const {A B} (f : B -> result B) (l : list A) (b : B) :
  foldM (fun x _ => f x) l b
  = foldM (fun x _ => f x) (repeat tt (List.length l)) b.
Proof.
  revert b. induction l as [|a l IH]; intros b; [reflexivity|].
  cbn [foldM List.length repeat]. destruct (f b); cbn [rbind]; auto.
Qed.

Lemma for_each_skip {A} (l : list A) (body : A -> M unit) (self : Sparse_Matrix) :
  (forall a, In a l -> body a self = (Return tt, self)) ->
  for_each l body self = (Return tt, self).
Proof.
  induction l as [|a l IH]; intros H; simpl; [reflexivity|].
  unfold bind. rewrite (H a) by now left. apply IH. intros; apply H; now right.
Qed.

Lemma in_range (n i : Z) : In i (range n) <-> 0 <= i < n.
Proof.
  unfold range. rewrite in_map_iff. split.
  - intros (j & <- & Hj). apply in_seq in Hj. lia.
  - intros H. exists (Z.to_nat i). rewrite in_seq. split; lia.
Qed.

Lemma NoDup_range (n : Z) : NoDup (range n).
Proof.
  unfold range. apply NoDup_map_NoDup_ForallPairs; [|apply seq_NoDup].
  intros x y _ _ H. lia.
Qed.

Lemma length_range (n : Z) : List.length (range n) = Z.to_nat n.
Proof. unfold range. now rewrite length_map, length_seq. Qed.

Lemma nth_map_range (g : Z -> Z) (n i : Z) :
  0 <= i < n -> nth (Z.to_nat i) (map g (range n)) 0 = g i.
Proof.
  intros H. unfold range. rewrite map_map.
  rewrite (nth_indep _ 0 (g (Z.of_nat 0))) by (rewrite length_map, length_seq; lia).
  rewrite (map_nth (fun j => g (Z.of_nat j)) (seq 0 (Z.to_nat n)) 0%nat).
  rewrite seq_nth by lia. f_equal. lia.
Qed.

Lemma tuple_index_map_range (g : Z -> Z) (n i : Z) :
  0 <= i < n -> tuple_index (map g (range n)) i = Return (g i).
Proof.
  intros H. unfold tuple_index. rewrite length_map, length_range.
  destruct (Z.leb_spec 0 i); [|lia].
  destruct (Z.ltb_spec i (Z.of_nat (Z.to_nat n))); [|lia].
  cbn [andb]. now rewrite nth_map_range.
Qed.

Lemma range2_length (a b : Z) : List.length (range2 a b) = Z.to_nat (b - a).
Proof. unfold range2. now rewrite length_map, length_seq. Qed.

(** ** The dictionary *)

Lemma key_eqb_eq (a b : key) : key_eqb a b = true <-> a = b.
Proof.
  destruct a as [a1 a2], b as [b1 b2]. unfold key_eqb; simpl.
  rewrite andb_true_iff, !Z.eqb_eq. split; [intros []; congruence|].
  intros H; inversion H; auto.
Qed.

Lemma key_eqb_refl (a : key) : key_eqb a a = true.
Proof. now apply key_eqb_eq. Qed.

Lemma key_eqb_neq (a b : key) : key_eqb a b = false <-> a <> b.
Proof.
  rewrite <- key_eqb_eq. destruct (key_eqb a b); split; congruence.
Qed.

Lemma dict_in_keys (k : key) (d : dict) : dict_in k d = true <-> In k (keys d).
Proof.
  unfold dict_in. induction d as [|[k' v] d IH]; simpl.
  - split; [discriminate | tauto].
  - destruct (key_eqb k' k) eqn:E.
    + apply key_eqb_eq in E. split; auto.
    + apply key_eqb_neq in E. rewrite IH. split; [auto|]. intros [H|H]; [contradiction | exact H].
Qed.

Lemma dict_in_false (k : key) (d : dict) : dict_in k d = false <-> ~ In k (keys d).
Proof.
  rewrite <- dict_in_keys. destruct (dict_in k d); split; congruence.
Qed.

Lemma keys_app (d1 d2 : dict) : keys (d1 ++ d2) = keys d1 ++ keys d2.
Proof. apply map_app. Qed.

Lemma keys_dict_setitem (d : dict) (k : key) (v : Z) (k' : key) :
  In k' (keys (dict_setitem d k v)) <-> k' = k \/ In k' (keys d).
Proof.
  induction d as [|[k0 v0] d IH]; simpl.
  - split; intros [H|H]; auto; contradiction.
  - destruct (key_eqb k0 k) eqn:E; simpl.
    + apply key_eqb_eq in E. subst k0. intuition congruence.
    + rewrite IH. tauto.
Qed.

Lemma keys_dict_pop (d : dict) (k k' : key) :
  In k' (keys (dict_pop d k)) -> In k' (keys d).
Proof.
  induction d as [|[k0 v0] d IH]; simpl; [tauto|].
  destruct (key_eqb k0 k); simpl; tauto.
Qed.

Lemma keys_copy (d acc : dict) (k : key) :
  In k (keys (fold_left (fun cp kv => dict_setitem cp (fst kv) (snd kv)) d acc))
  -> In k (keys acc) \/ In k (keys d).
Proof.
  revert acc. induction d as [|[k0 v0] d IH]; simpl; intros acc H; [auto|].
  apply IH in H. rewrite keys_dict_setitem in H. simpl in H. intuition auto.
Qed.

Lemma keys_copy_complete (d acc : dict) (k : key) :
  In k (keys acc) \/ In k (keys d) ->
  In k (keys (fold_left (fun cp kv => dict_setitem cp (fst kv) (snd kv)) d acc)).
Proof.
  revert acc. induction d as [|[k0 v0] d IH]; cbn [fold_left]; intros acc H.
  - destruct H as [H|[]]. exact H.
  - apply IH. rewrite keys_dict_setitem. cbn [fst snd keys map] in *.
    destruct H as [H|[H|H]]; auto.
Qed.

Lemma dict_setitem_new (d : dict) (k : key) (v : Z) :
  dict_in k d = false -> dict_setitem d k v = d ++ [(k, v)].
Proof.
  rewrite dict_in_false.
  induction d as [|[k0 v0] d IH]; intros H; [reflexivity|].
  simpl in *. destruct (key_eqb k0 k) eqn:E.
  - apply key_eqb_eq in E. tauto.
  - rewrite IH by tauto. reflexivity.
Qed.

Lemma dict_pop_absent (d : dict) (k : key) : dict_in k d = false -> dict_pop d k = d.
Proof.
  rewrite dict_in_false. induction d as [|[k0 v0] d IH]; intros H; [reflexivity|].
  cbn [dict_pop]. destruct (key_eqb k0 k) eqn:E.
  - apply key_eqb_eq in E. subst. exfalso. apply H. now left.
  - rewrite IH; [reflexivity|]. intros Hin. apply H. now right.
Qed.

Lemma NoDup_keys_dict_setitem (d : dict) (k : key) (v : Z) :
  NoDup (keys d) -> NoDup (keys (dict_setitem d k v)).
Proof.
  induction d as [|[k0 v0] d IH]; intros H.
  - repeat constructor. simpl. tauto.
  - inversion H as [|? ? Hk0 Hd]; subst. cbn [dict_setitem].
    destruct (key_eqb k0 k) eqn:E; [exact H|].
    cbn [keys map fst]. constructor; [|now apply IH].
    fold (keys (dict_setitem d k v)). rewrite keys_dict_setitem.
    apply key_eqb_neq in E. intros [->|Hin]; [now apply E | now apply Hk0].
Qed.

Lemma Forall_dict_setitem (P : key * Z -> Prop) (d : dict) (k : key) (v : Z) :
  Forall P d -> P (k, v) -> Forall P (dict_setitem d k v).
Proof.
  induction d as [|[k0 v0] d IH]; intros H Hkv.
  - now constructor.
  - inversion H; subst. cbn [dict_setitem].
    destruct (key_eqb k0 k) eqn:E.
    + apply key_eqb_eq in E. subst k0. now constructor.
    + constructor; auto.
Qed.

Lemma NoDup_keys_dict_pop (d : dict) (k : key) :
  NoDup (keys d) -> NoDup (keys (dict_pop d k)).
Proof.
  induction d as [|[k0 v0] d IH]; intros H; [exact H|].
  inversion H as [|? ? Hk0 Hd]; subst. cbn [dict_pop].
  destruct (key_eqb k0 k); [exact Hd|].
  cbn [keys map fst]. constructor; [|now apply IH].
  intros Hin. apply Hk0. eapply keys_dict_pop. exact Hin.
Qed.

Lemma Forall_dict_pop (P : key * Z -> Prop) (d : dict) (k : key) :
  Forall P d -> Forall P (dict_pop d k).
Proof.
  induction d as [|[k0 v0] d IH]; intros H; [exact H|].
  inversion H; subst. cbn [dict_pop].
  destruct (key_eqb k0 k); [assumption | constructor; auto].
Qed.

Lemma dict_get_setitem_same (d : dict) (k : key) (v : Z) :
  dict_get (dict_setitem d k v) k = Some v.
Proof.
  induction d as [|[k0 v0] d IH]; cbn [dict_setitem dict_get].
  - now rewrite key_eqb_refl.
  - destruct (key_eqb k0 k) eqn:E; cbn [dict_get]; now rewrite E.
Qed.

Lemma dict_get_setitem_other (d : dict) (k k' : key) (v : Z) :
  k' <> k -> dict_get (dict_setitem d k v) k' = dict_get d k'.
Proof.
  intros Hne. induction d as [|[k0 v0] d IH]; cbn [dict_setitem dict_get].
  - assert (E : key_eqb k k' = false) by (apply key_eqb_neq; congruence).
    now rewrite E.
  - destruct (key_eqb k0 k) eqn:E; cbn [dict_get]; [|now rewrite IH].
    apply key_eqb_eq in E. subst k0.
    assert (E : key_eqb k k' = false) by (apply key_eqb_neq; congruence).
    now rewrite E.
Qed.

Lemma dict_get_pop_same (d : dict) (k : key) :
  NoDup (keys d) -> dict_get (dict_pop d k) k = None.
Proof.
  induction d as [|[k0 v0] d IH]; intros H; [reflexivity|].
  inversion H as [|? ? Hk0 Hd]; subst. cbn [dict_pop].
  destruct (key_eqb k0 k) eqn:E.
  - apply key_eqb_eq in E. subst k0.
    destruct (dict_get d k) eqn:G; [|reflexivity].
    exfalso. apply Hk0. apply dict_in_keys. unfold dict_in. now rewrite G.
  - cbn [dict_get]. rewrite E. now apply IH.
Qed.

Lemma dict_get_pop_other (d : dict) (k k' : key) :
  k' <> k -> dict_get (dict_pop d k) k' = dict_get d k'.
Proof.
  intros Hne. induction d as [|[k0 v0] d IH]; [reflexivity|].
  cbn [dict_pop]. destruct (key_eqb k0 k) eqn:E.
  - apply key_eqb_eq in E. subst k0. cbn [dict_get].
    assert (E' : key_eqb k k' = false) by (apply key_eqb_neq; congruence).
    now rewrite E'.
  - cbn [dict_get]. now rewrite IH.
Qed.

Lemma dict_get_in (d : dict) (k : key) (v : Z) :
  dict_get d k = Some v -> In (k, v) d.
Proof.
  induction d as [|[k0 v0] d IH]; cbn [dict_get]; [discriminate|].
  destruct (key_eqb k0 k) eqn:E.
  - apply key_eqb_eq in E. intros H; inversion H; subst. now left.
  - intros H. right. now apply IH.
Qed.

Lemma dict_get_NoDup_in (d : dict) (k : key) (v : Z) :
  NoDup (keys d) -> In (k, v) d -> dict_get d k = Some v.
Proof.
  induction d as [|[k0 v0] d IH]; intros Hnd Hin; [contradiction|].
  inversion Hnd as [|? ? Hk0 Hd]; subst. cbn [dict_get].
  destruct Hin as [Heq|Hin].
  - inversion Heq; subst. now rewrite key_eqb_refl.
  - destruct (key_eqb k0 k) eqn:E; [|now apply IH].
    apply key_eqb_eq in E. subst k0. exfalso. apply Hk0.
    unfold keys. change k with (fst (k, v)). now apply in_map.
Qed.

Lemma dict_get0_absent (d : dict) (k : key) : ~ In k (keys d) -> dict_get0 d k = 0.
Proof.
  intros H. apply dict_in_false in H. unfold dict_in, dict_get0 in *.
  now destruct (dict_get d k).
Qed.

Lemma dict_get0_not_in (d : dict) (k : key) :
  (if negb (dict_in k d) then 0 else dict_get0 d k) = dict_get0 d k.
Proof.
  unfold dict_in, dict_get0. now destruct (dict_get d k).
Qed.

Lemma dict_get_filter_nonzero (l : dict) (k : key) (v : Z) :
  NoDup (keys l) -> In (k, v) l -> dict_get0 (filter nonzero l) k = v.
Proof.
  unfold dict_get0.
  induction l as [|[k0 v0] l IH]; intros Hnd Hin; [contradiction|].
  inversion Hnd as [|? ? Hk Hnd']; subst.
  destruct Hin as [Heq|Hin].
  - inversion Heq; subst. cbn [filter]. unfold nonzero at 1. cbn [snd].
    destruct (Z.eqb_spec v 0) as [->|Hv]; cbn [negb].
    + destruct (dict_get (filter nonzero l) k) eqn:E; [|reflexivity].
      exfalso. apply Hk.
      assert (Hi : dict_in k (filter nonzero l) = true) by (unfold dict_in; now rewrite E).
      apply dict_in_keys in Hi. unfold keys in *. apply in_map_iff in Hi.
      destruct Hi as (x & <- & Hx). apply filter_In in Hx. apply in_map. tauto.
    + cbn [dict_get]. now rewrite key_eqb_refl.
  - assert (Hne : k0 <> k).
    { intros ->. apply Hk. unfold keys. change k with (fst (k, v)). now apply in_map. }
    cbn [filter]. destruct (nonzero (k0, v0)).
    + cbn [dict_get]. apply key_eqb_neq in Hne. rewrite Hne. now apply IH.
    + now apply IH.
Qed.

Lemma filter_nonzero_all (d : dict) :
  Forall (fun kv => snd kv <> 0) d -> filter nonzero d = d.
Proof.
  induction 1 as [|kv d Hkv _ IH]; [reflexivity|].
  cbn [filter]. unfold nonzero at 1. apply Z.eqb_neq in Hkv. rewrite Hkv.
  cbn [negb]. now rewrite IH.
Qed.

Lemma filter_nonzero_none (d : dict) :
  Forall (fun kv => snd kv = 0) d -> filter nonzero d = [].
Proof.
  induction 1 as [|kv d Hkv _ IH]; [reflexivity|].
  cbn [filter]. unfold nonzero at 1. rewrite Hkv. exact IH.
Qed.

Lemma keys_map_value (g : key * Z -> Z) (d : dict) :
  keys (map (fun kv => (fst kv, g kv)) d) = keys d.
Proof. unfold keys. rewrite map_map. now apply map_ext. Qed.

Lemma Forall_map_value (P : key -> Prop) (g : key * Z -> Z) (d : dict) :
  Forall (fun kv => P (fst kv)) d ->
  Forall (fun kv => P (fst kv)) (map (fun kv => (fst kv, g kv)) d).
Proof. intros H. apply Forall_map. exact H. Qed.

Lemma dict_get0_map_value (g : Z -> Z) (d : dict) (k : key) (v : Z) :
  NoDup (keys d) -> In (k, v) d ->
  dict_get0 (map (fun kv => (fst kv, g (snd kv))) d) k = g v.
Proof.
  intros Hnd Hin. unfold dict_get0.
  rewrite (dict_get_NoDup_in _ k (g v)); [reflexivity | |].
  - now rewrite (keys_map_value (fun kv => g (snd kv))).
  - apply in_map_iff. exists (k, v). auto.
Qed.

Section Pruning.
Context {A : Type} (h : A -> key).

Lemma in_dict_pop (d : dict) (k : key) (kv : key * Z) :
  In kv (dict_pop d k) -> In kv d.
Proof.
  induction d as [|[k0 v0] d IH]; [tauto|]. cbn [dict_pop].
  destruct (key_eqb k0 k); simpl; tauto.
Qed.

Lemma in_fold_pop (l : list A) (d : dict) (kv : key * Z) :
  In kv (fold_left (fun d x => dict_pop d (h x)) l d) -> In kv d.
Proof.
  revert d. induction l as [|x l IH]; intros d H; [exact H|].
  cbn [fold_left] in H. apply IH in H. eapply in_dict_pop; eauto.
Qed.

Lemma NoDup_keys_fold_pop (l : list A) (d : dict) :
  NoDup (keys d) -> NoDup (keys (fold_left (fun d x => dict_pop d (h x)) l d)).
Proof.
  revert d. induction l as [|x l IH]; intros d H; [exact H|].
  cbn [fold_left]. apply IH. now apply NoDup_keys_dict_pop.
Qed.

Lemma keys_fold_pop (l : list A) (d : dict) (k : key) :
  In k (keys (fold_left (fun d x => dict_pop d (h x)) l d)) -> In k (keys d).
Proof.
  unfold keys. rewrite !in_map_iff. intros (kv & <- & H).
  exists kv. split; [reflexivity|]. eapply in_fold_pop; eauto.
Qed.

Lemma fold_pop_removes (l : list A) (d : dict) (x : A) :
  NoDup (keys d) -> In x l ->
  ~ In (h x) (keys (fold_left (fun d x => dict_pop d (h x)) l d)).
Proof.
  revert d. induction l as [|a l IH]; intros d Hnd Hx; [contradiction|].
  cbn [fold_left]. destruct Hx as [->|Hx].
  - intros Hin. apply keys_fold_pop in Hin. apply dict_in_keys in Hin.
    unfold dict_in in Hin. now rewrite dict_get_pop_same in Hin.
  - apply IH; [now apply NoDup_keys_dict_pop | exact Hx].
Qed.
End Pruning.

(** ** Messages and the limit of [str] *)

Lemma str_limit_pos : 0 < str_limit.
Proof. reflexivity. Qed.

Lemma raise_msg_Return {A} (operands : list (result unit)) (e : exn) (a : A) :
  raise_msg operands e = Return a -> False.
Proof. unfold raise_msg. destruct (foldM _ _ _); discriminate. Qed.

Lemma raise_msg_raises {A} (operands : list (result unit)) (e : exn) :
  exists e', @raise_msg A operands e = Raise e'.
Proof. unfold raise_msg. destruct (foldM _ _ _); eauto. Qed.

Lemma operands_Return (operands : list (result unit)) (u : unit) :
  Forall (fun o => o = Return tt) operands ->
  foldM (fun _ (o : result unit) => o) operands u = Return tt.
Proof.
  revert u. induction operands as [|o operands IH]; intros u H.
  - now destruct u.
  - inversion H as [|? ? Ho Hos]; subst. cbn. now apply IH.
Qed.

Lemma raise_msg_ok {A} (operands : list (result unit)) (e : exn) :
  Forall (fun o => o = Return tt) operands -> @raise_msg A operands e = Raise e.
Proof. intros H. unfold raise_msg. now rewrite operands_Return. Qed.

Lemma operands_Raise (P : exn -> Prop) (operands : list (result unit)) (u : unit) (e : exn) :
  Forall (fun o => forall e', o = Raise e' -> P e') operands ->
  foldM (fun _ (o : result unit) => o) operands u = Raise e -> P e.
Proof.
  revert u. induction operands as [|o operands IH]; intros u H E; [discriminate|].
  inversion H as [|? ? Ho Hos]; subst. cbn in E.
  destruct o as [u'|e'] eqn:Eo; cbn in E.
  - eapply IH; eauto.
  - injection E as <-. now apply Ho.
Qed.

(** What a raise site raises: its own exception, or what an operand of its
    message raises. *)
Lemma raise_msg_cases {A} (P : exn -> Prop) (operands : list (result unit)) (e e' : exn) :
  P e -> Forall (fun o => forall e'', o = Raise e'' -> P e'') operands ->
  @raise_msg A operands e = Raise e' -> P e'.
Proof.
  intros He Hops. unfold raise_msg.
  destruct (foldM _ operands tt) as [u|e''] eqn:E; intros H; injection H as <-.
  - exact He.
  - eapply operands_Raise; eauto.
Qed.

Ltac no_return :=
  try discriminate;
  try (let H := fresh in intros H; exfalso; exact (raise_msg_Return _ _ _ H)).

Lemma str_of_int_printable (z : Z) :
  str_of_int z = if printable z then Return (str_int z) else Raise (ValueError msg_int_digits).
Proof. reflexivity. Qed.

Lemma printable_lt (z : Z) : printable z = true <-> Z.abs z < str_limit.
Proof. unfold printable. apply Z.ltb_lt. Qed.

Lemma printable_below (z n : Z) : 0 <= z < n -> printable n = true -> printable z = true.
Proof. rewrite !printable_lt. lia. Qed.

Lemma printable_0 : printable 0 = true.
Proof. reflexivity. Qed.

Lemma str_effect_int (z : Z) :
  str_effect (PInt z) = if printable z then Return tt else Raise (ValueError msg_int_digits).
Proof. cbn. rewrite str_of_int_printable. now destruct (printable z). Qed.

Lemma str_effect_size (self : Sparse_Matrix) :
  str_effect (size_value self)
  = if printable (rows self) && printable (cols self) then Return tt
    else Raise (ValueError msg_int_digits).
Proof.
  cbn. rewrite !str_of_int_printable.
  destruct (printable (rows self)); cbn; [|reflexivity].
  now destruct (printable (cols self)).
Qed.

(** Indexing a matrix with an int is refused. *)
Lemma getitem_int_raises (self : Sparse_Matrix) (z : Z) :
  exists e, __getitem__ self (PInt z) = Raise e.
Proof.
  unfold __getitem__, check_row_col.
  destruct (raise_msg_raises (A := Z * Z) [str_effect (PInt z)]
              (TypeError (msg_argument "__getitem__"))) as [e ->].
  now exists e.
Qed.

(** ** The constructor *)

Lemma checked_number_int (v : pyval) (z : Z) :
  checked_number v = Some z <-> v = PInt z.
Proof.
  split; [|intros ->; reflexivity].
  destruct v; cbn; intros H; try discriminate. now inversion H.
Qed.

Lemma invariant_dict_ok (self : Sparse_Matrix) :
  invariant self
  <-> 0 < rows self /\ 0 < cols self /\ dict_ok (rows self) (cols self) (matrix self).
Proof.
  unfold dict_ok. split.
  - intros []. auto.
  - intros (? & ? & ? & ? & ?). now constructor.
Qed.

Lemma dict_ok_setitem (R C : Z) (d : dict) (r c v : Z) :
  dict_ok R C d -> 0 <= r < R -> 0 <= c < C -> v <> 0 ->
  dict_ok R C (dict_setitem d (r, c) v).
Proof.
  intros (Hnd & Hnz & Hb) Hr Hc Hv. repeat split.
  - now apply NoDup_keys_dict_setitem.
  - now apply Forall_dict_setitem.
  - apply Forall_dict_setitem; simpl; auto.
Qed.

Lemma dict_ok_pop (R C : Z) (d : dict) (k : key) :
  dict_ok R C d -> dict_ok R C (dict_pop d k).
Proof.
  intros (Hnd & Hnz & Hb). repeat split.
  - now apply NoDup_keys_dict_pop.
  - now apply Forall_dict_pop.
  - now apply Forall_dict_pop.
Qed.

(** An item that is an int comes from a tuple. *)
Lemma subscript_int (t : pyval) (i : nat) (z : Z) :
  subscript t i = Return (PInt z) ->
  exists items, t = PTuple items /\ nth_error items i = Some (PInt z).
Proof.
  destruct t as [| | |s| |items|m]; cbn; try discriminate.
  - destruct (String.get i s); discriminate.
  - destruct (nth_error items i) as [x|] eqn:E; [|discriminate].
    intros H. injection H as ->. now exists items.
  - destruct (getitem_int_raises m (Z.of_nat i)) as [e ->]. discriminate.
Qed.

(** A turn of the loop of [__init__] that does not raise: the seed is a
    tuple that starts with three ints, the key is inside the bounds and
    new, and the entry is appended when its value is not zero. *)
Lemma init_step_Return (R C : Z) (d d' : dict) (t : pyval) :
  init_step R C d t = Return d' ->
  exists kv, reads_as t kv
    /\ (0 <= fst (fst kv) < R /\ 0 <= snd (fst kv) < C)
    /\ dict_in (fst kv) d = false
    /\ d' = d ++ filter nonzero [kv].
Proof.
  unfold init_step.
  destruct (subscript t 0) as [t0|] eqn:E0; cbn [rbind]; [|discriminate].
  destruct t0 as [r| | | | | |]; try discriminate.
  destruct (subscript t 1) as [t1|] eqn:E1; cbn [rbind]; [|discriminate].
  destruct t1 as [c| | | | | |]; try discriminate.
  destruct ((-1 <? r) && (r <? R) && ((-1 <? c) && (c <? C))) eqn:Eb; cbn [negb];
    [|no_return].
  destruct (dict_in (r, c) d) eqn:Ein; [no_return|].
  destruct (subscript t 2) as [t2|] eqn:E2; cbn [rbind]; [|discriminate].
  destruct (checked_number t2) as [v|] eqn:Ev; [|discriminate].
  apply checked_number_int in Ev. subst t2. intros H.
  exists ((r, c), v). cbn [fst snd filter]. unfold nonzero. cbn [snd].
  rewrite !andb_true_iff, !Z.ltb_lt in Eb.
  split; [|split; [lia|split; [exact Ein|]]].
  - apply subscript_int in E0, E1, E2.
    destruct E0 as [items [-> E0]]. destruct E1 as [items1 [H1 E1]].
    destruct E2 as [items2 [H2 E2]]. injection H1 as <-. injection H2 as <-.
    destruct items as [|x0 [|x1 [|x2 rest]]]; try discriminate.
    cbn in E0, E1, E2. injection E0 as ->. injection E1 as ->. injection E2 as ->.
    now exists rest.
  - destruct (v =? 0); cbn [negb] in *; inversion H; subst.
    + now rewrite app_nil_r.
    + now apply dict_setitem_new.
Qed.

Lemma init_step_dict_ok (R C : Z) (d d' : dict) (t : pyval) :
  dict_ok R C d -> init_step R C d t = Return d' -> dict_ok R C d'.
Proof.
  intros Hd H. apply init_step_Return in H.
  destruct H as [[[r c] v] [_ [[Hr Hc] [Hin ->]]]]. cbn [fst snd] in *.
  cbn [filter]. unfold nonzero. cbn [snd].
  destruct (Z.eqb_spec v 0); cbn [negb]; [now rewrite app_nil_r|].
  rewrite <- (dict_setitem_new d (r, c) v Hin). now apply dict_ok_setitem.
Qed.

Lemma m_3x3_constructed :
  __init__ (PInt 3) (PInt 3) [tup 0 0 1; tup 1 1 3; tup 2 2 1] = Return m_3x3.
Proof. reflexivity. Qed.

Lemma m_2x3_constructed :
  __init__ (PInt 2) (PInt 3) [tup 0 2 5; tup 0 0 7] = Return m_2x3.
Proof. reflexivity. Qed.

Lemma m_2x3'_constructed :
  __init__ (PInt 2) (PInt 3) [tup 1 1 9; tup 0 2 5; tup 0 0 7] = Return m_2x3'.
Proof. reflexivity. Qed.

Lemma m_1x2_constructed :
  __init__ (PInt 1) (PInt 2) [tup 0 1 1; tup 0 0 2] = Return m_1x2.
Proof. reflexivity. Qed.

(** What a returning constructor was given, and what it ran. *)
Lemma init_Return (r c : pyval) (seeds : list pyval) (self : Sparse_Matrix) :
  __init__ r c seeds = Return self ->
  r = PInt (rows self) /\ c = PInt (cols self) /\ 0 < rows self /\ 0 < cols self
  /\ foldM (init_step (rows self) (cols self)) seeds [] = Return (matrix self).
Proof.
  unfold __init__. intros H.
  destruct r as [R| | | | | |]; try (exfalso; exact (raise_msg_Return _ _ _ H)).
  destruct (R >? 0) eqn:ER; cbn [negb] in H; [|exfalso; exact (raise_msg_Return _ _ _ H)].
  destruct c as [C| | | | | |]; try (exfalso; exact (raise_msg_Return _ _ _ H)).
  destruct (C >? 0) eqn:EC; cbn [negb] in H; [|exfalso; exact (raise_msg_Return _ _ _ H)].
  destruct (foldM (init_step R C) seeds []) as [d|] eqn:E; [|discriminate].
  cbn in H. inversion H; subst; cbn. repeat split; auto; lia.
Qed.

Lemma init_loop_dict_ok (R C : Z) (seeds : list pyval) (d : dict) :
  foldM (init_step R C) seeds [] = Return d -> dict_ok R C d.
Proof.
  apply (foldM_preserves (dict_ok R C) (init_step R C) seeds
           (fun b a b' => init_step_dict_ok R C b b' a)).
  repeat split; constructor.
Qed.

(** X1.  A matrix that the constructor returns satisfies the invariants:
    positive dimensions, distinct keys inside the bounds, no stored zero. *)
Theorem init_invariant (r c : pyval) (triples : list pyval)
    (self : Sparse_Matrix) :
  __init__ r c triples = Return self -> invariant self.
Proof.
  intros H. apply init_Return in H. destruct H as [_ [_ [HR [HC H]]]].
  apply invariant_dict_ok. split; [exact HR|]. split; [exact HC|].
  now apply (init_loop_dict_ok _ _ triples).
Qed.

Lemma init_invariant_witness : invariant m_3x3.
Proof.
  exact (init_invariant (PInt 3) (PInt 3) [tup 0 0 1; tup 1 1 3; tup 2 2 1]
           m_3x3 m_3x3_constructed).
Defined.

(** The loop of [__init__] over triples of ints with distinct keys inside
    the bounds: the triples whose value is not zero are appended in order. *)
Lemma init_loop_entries (rows cols : Z) (l : list (key * Z)) (acc : dict) :
  Forall (fun kv => 0 <= fst (fst kv) < rows /\ 0 <= snd (fst kv) < cols) l ->
  NoDup (keys l) ->
  (forall k, In k (keys l) -> ~ In k (keys acc)) ->
  foldM (init_step rows cols) (map entry_triple l) acc
  = Return (acc ++ filter nonzero l).
Proof.
  revert acc. induction l as [|[[r c] v] l IH]; intros acc Hb Hnd Hacc.
  - cbn. now rewrite app_nil_r.
  - inversion Hb as [|? ? [Hr Hc] Hb']; subst. simpl in Hr, Hc.
    inversion Hnd as [|? ? Hk Hnd']; subst.
    cbn [map foldM]. unfold entry_triple at 1, init_step.
    cbn [fst snd subscript nth_error rbind].
    destruct (Z.ltb_spec (-1) r); [|lia].
    destruct (Z.ltb_spec r rows); [|lia].
    destruct (Z.ltb_spec (-1) c); [|lia].
    destruct (Z.ltb_spec c cols); [|lia].
    cbn [andb negb].
    assert (Hin : dict_in (r, c) acc = false).
    { apply dict_in_false. apply Hacc. now left. }
    rewrite Hin. cbn [checked_number is_int_or_float type py_or pytype_truthy pytype_is].
    cbn [filter]. unfold nonzero at 1. cbn [snd].
    destruct (v =? 0); cbn [negb rbind].
    + apply IH; auto. intros k Hk'. apply Hacc. now right.
    + rewrite dict_setitem_new by exact Hin.
      rewrite IH; auto.
      * now rewrite <- app_assoc.
      * intros k Hk'. rewrite keys_app. intros Hk2. apply in_app_or in Hk2.
        destruct Hk2 as [Hk2|[Hk2|[]]].
        -- apply (Hacc k); [now right | exact Hk2].
        -- simpl in Hk2. subst k. contradiction.
Qed.

(** The constructor on such triples. *)
Lemma init_entries (r c : Z) (l : list (key * Z)) :
  0 < r -> 0 < c ->
  Forall (fun kv => 0 <= fst (fst kv) < r /\ 0 <= snd (fst kv) < c) l ->
  NoDup (keys l) ->
  __init__ (PInt r) (PInt c) (map entry_triple l)
  = Return {| rows := r; cols := c; matrix := filter nonzero l |}.
Proof.
  intros Hr Hc Hb Hnd. unfold __init__.
  destruct (Z.gtb_spec r 0); [|lia].
  destruct (Z.gtb_spec c 0); [|lia].
  cbn [negb]. rewrite init_loop_entries; auto.
Qed.

(** The constructor on [[(k[0], k[1], f(v)) for k, v in self.matrix.items()]]. *)
Lemma init_triples_of (f : Z -> Z) (self : Sparse_Matrix) :
  invariant self ->
  __init__ (PInt (rows self)) (PInt (cols self)) (triples_of f (matrix self))
  = Return {| rows := rows self; cols := cols self;
              matrix := filter nonzero (map (fun kv => (fst kv, f (snd kv))) (matrix self)) |}.
Proof.
  intros [Hrows Hcols Hnd Hnz Hb]. unfold triples_of.
  rewrite <- (map_map (fun kv => (fst kv, f (snd kv))) entry_triple).
  apply init_entries; auto.
  - now apply (Forall_map_value (fun k => 0 <= fst k < rows self /\ 0 <= snd k < cols self)).
  - now rewrite keys_map_value.
Qed.

Ltac concrete_invariant :=
  constructor; unfold no_zero_value, keys_in_bounds; cbn;
  [ lia | lia
  | repeat constructor; cbn; intuition congruence
  | repeat constructor; cbn; lia
  | repeat constructor; cbn; lia ].

Lemma invariant_m_3x3 : invariant m_3x3.
Proof. concrete_invariant. Qed.

Lemma invariant_m_2x3 : invariant m_2x3.
Proof. concrete_invariant. Qed.

Lemma invariant_m_a : invariant m_a.
Proof. concrete_invariant. Qed.

(** ** Indexed access *)

Lemma check_row_col_Return (meth : string) (self : Sparse_Matrix) (row_col : pyval) (k : key) :
  check_row_col meth self row_col = Return k
  <-> row_col = at_ (fst k) (snd k)
      /\ 0 <= fst k < rows self /\ 0 <= snd k < cols self.
Proof.
  unfold check_row_col, at_. split.
  - destruct row_col as [| | | | |items|]; no_return.
    destruct items as [|[r| | | | | |] [|[c| | | | | |] [|]]]; no_return.
    destruct (Z.ltb_spec r 0); cbn [orb]; no_return.
    destruct (Z.gtb_spec r (rows self - 1)); no_return.
    destruct (Z.ltb_spec c 0); cbn [orb]; no_return.
    destruct (Z.gtb_spec c (cols self - 1)); no_return.
    intros Hk; inversion Hk; subst. cbn [fst snd]. repeat split; lia.
  - destruct k as [r c]. cbn [fst snd]. intros (-> & Hr & Hc).
    destruct (Z.ltb_spec r 0); [lia|].
    destruct (Z.gtb_spec r (rows self - 1)); [lia|].
    destruct (Z.ltb_spec c 0); [lia|].
    destruct (Z.gtb_spec c (cols self - 1)); [lia|]. reflexivity.
Qed.

Lemma getitem_cell (self : Sparse_Matrix) (r c : Z) :
  0 <= r < rows self -> 0 <= c < cols self ->
  __getitem__ self (at_ r c) = Return (cell self r c).
Proof.
  intros Hr Hc. unfold __getitem__, at_, check_row_col.
  destruct (Z.ltb_spec r 0); [lia|].
  destruct (Z.gtb_spec r (rows self - 1)); [lia|].
  destruct (Z.ltb_spec c 0); [lia|].
  destruct (Z.gtb_spec c (cols self - 1)); [lia|].
  cbn [orb rbind]. unfold cell, dict_in, dict_get0.
  now destruct (dict_get (matrix self) (r, c)).
Qed.

Lemma with_matrix_same (self : Sparse_Matrix) : with_matrix self (matrix self) = self.
Proof. now destruct self. Qed.

(** X2.  A matrix constructed with no triples stores nothing, is falsy, and
    reads zero at every index inside its bounds. *)
Theorem constructor_no_triples (r c : Z) :
  0 < r -> 0 < c ->
  exists self, __init__ (PInt r) (PInt c) [] = Return self
    /\ size self = (r, c)
    /\ __bool__ self = false
    /\ forall i j, 0 <= i < r -> 0 <= j < c -> __getitem__ self (at_ i j) = Return 0.
Proof.
  intros Hr Hc. exists {| rows := r; cols := c; matrix := [] |}. split.
  - unfold __init__. destruct (Z.gtb_spec r 0); [|lia].
    destruct (Z.gtb_spec c 0); [|lia]. reflexivity.
  - repeat split. intros i j Hi Hj. now rewrite getitem_cell.
Qed.

Lemma constructor_no_triples_witness :
  exists self, __init__ (PInt 2) (PInt 3) [] = Return self
    /\ size self = (2, 3)
    /\ __bool__ self = false
    /\ forall i j, 0 <= i < 2 -> 0 <= j < 3 -> __getitem__ self (at_ i j) = Return 0.
Proof. apply (constructor_no_triples 2 3); lia. Defined.

(** [__setitem__] keeps the invariants, whether it returns or raises. *)
Lemma setitem_invariant (row_col value : pyval) (self : Sparse_Matrix) :
  invariant self -> invariant (snd (__setitem__ row_col value self)).
Proof.
  intros Hinv. unfold __setitem__.
  destruct (check_row_col "__setitem__" self row_col) as [k|] eqn:E; [|exact Hinv].
  apply check_row_col_Return in E. destruct E as (_ & Hr & Hc).
  destruct (checked_number value) as [v|]; [|exact Hinv].
  apply invariant_dict_ok in Hinv. destruct Hinv as (Hrows & Hcols & Hd).
  destruct ((v =? 0) && dict_in k (matrix self)).
  - apply invariant_dict_ok. cbn. auto using dict_ok_pop.
  - destruct (Z.eqb_spec v 0); cbn [negb snd].
    + apply invariant_dict_ok. auto.
    + apply invariant_dict_ok. cbn [rows cols matrix with_matrix].
      split; [exact Hrows|]. split; [exact Hcols|].
      destruct k as [r c]. now apply dict_ok_setitem.
Qed.

(** [__delitem__] keeps the invariants, whether it returns or raises. *)
Lemma delitem_invariant (row_col : pyval) (self : Sparse_Matrix) :
  invariant self -> invariant (snd (__delitem__ row_col self)).
Proof.
  intros Hinv. unfold __delitem__.
  destruct (check_row_col "__delitem__" self row_col) as [k|]; [|exact Hinv].
  destruct (dict_in k (matrix self)); [|exact Hinv].
  apply invariant_dict_ok in Hinv. destruct Hinv as (Hrows & Hcols & Hd).
  apply invariant_dict_ok. cbn. auto using dict_ok_pop.
Qed.

(** X3.  [__setitem__] and [__delitem__] keep the invariants, whatever the
    arguments and whether they return or raise. *)
Theorem setitem_delitem_invariant (row_col value : pyval) (self : Sparse_Matrix) :
  invariant self ->
  invariant (snd (__setitem__ row_col value self))
  /\ invariant (snd (__delitem__ row_col self)).
Proof.
  intros H. split; [now apply setitem_invariant | now apply delitem_invariant].
Qed.

Lemma setitem_delitem_invariant_witness :
  invariant (snd (__setitem__ (at_ 0 1) (PInt 2) m_3x3))
  /\ invariant (snd (__delitem__ (at_ 0 1) m_3x3)).
Proof. exact (setitem_delitem_invariant (at_ 0 1) (PInt 2) m_3x3 invariant_m_3x3). Defined.

(** X4.  For an index inside the bounds and an int [v], [__setitem__]
    returns and the following [__getitem__] returns [v]; after assigning
    zero the key is not stored; the size and every other cell are as
    before. *)
Theorem setitem_getitem_int (self : Sparse_Matrix) (r c v : Z) :
  NoDup (keys (matrix self)) -> 0 <= r < rows self -> 0 <= c < cols self ->
  exists self',
    __setitem__ (at_ r c) (PInt v) self = (Return tt, self')
    /\ __getitem__ self' (at_ r c) = Return v
    /\ (v = 0 -> dict_in (r, c) (matrix self') = false)
    /\ size self' = size self
    /\ (forall k', k' <> (r, c) -> dict_get (matrix self') k' = dict_get (matrix self) k').
Proof.
  intros Hnd Hr Hc. unfold __setitem__.
  rewrite (proj2 (check_row_col_Return "__setitem__" self (at_ r c) (r, c)))
    by (cbn [fst snd]; auto).
  cbn [checked_number is_int_or_float type py_or pytype_truthy pytype_is].
  destruct (Z.eqb_spec v 0) as [->|Hv]; cbn [andb negb].
  - destruct (dict_in (r, c) (matrix self)) eqn:E.
    + eexists. split; [reflexivity|].
      assert (G : dict_get (dict_pop (matrix self) (r, c)) (r, c) = None)
        by now apply dict_get_pop_same.
      repeat split.
      * rewrite getitem_cell by (cbn; auto). unfold cell, dict_get0. cbn. now rewrite G.
      * intros _. unfold dict_in. cbn. now rewrite G.
      * intros k' Hk'. cbn. now apply dict_get_pop_other.
    + exists self. split; [reflexivity|]. repeat split; auto.
      rewrite getitem_cell by auto. unfold cell, dict_get0.
      unfold dict_in in E. now destruct (dict_get (matrix self) (r, c)).
  - eexists. split; [reflexivity|]. repeat split.
    + rewrite getitem_cell by (cbn; auto). unfold cell, dict_get0. cbn.
      now rewrite dict_get_setitem_same.
    + intros; contradiction.
    + intros k' Hk'. cbn. now apply dict_get_setitem_other.
Qed.

Lemma setitem_getitem_int_witness :
  exists self',
    __setitem__ (at_ 1 1) (PInt 0) m_3x3 = (Return tt, self')
    /\ __getitem__ self' (at_ 1 1) = Return 0
    /\ (0 = 0 -> dict_in (1, 1) (matrix self') = false)
    /\ size self' = size m_3x3
    /\ (forall k', k' <> (1, 1) -> dict_get (matrix self') k' = dict_get (matrix m_3x3) k').
Proof.
  apply (setitem_getitem_int m_3x3 1 1 0).
  - exact (inv_keys _ invariant_m_3x3).
  - cbn; lia.
  - cbn; lia.
Defined.

(** C5. Assigning the float 1.5 at (0,0) of a 1x1 matrix raises [TypeError]
    and stores nothing, so the following read gives 0. *)
Theorem setitem_rejects_float :
  __setitem__ (at_ 0 0) (PFloat 1.5%float) m_1x1
  = (Raise (TypeError msg_set_value), m_1x1)
  /\ __getitem__ m_1x1 (at_ 0 0) = Return 0.
Proof. split; vm_compute; reflexivity. Qed.

(** [__setitem__] and [__delitem__] raise before they touch the object. *)
Lemma setitem_raise_unchanged (row_col value : pyval) (self self' : Sparse_Matrix) (e : exn) :
  __setitem__ row_col value self = (Raise e, self') -> self' = self.
Proof.
  unfold __setitem__.
  destruct (check_row_col "__setitem__" self row_col); [|now inversion 1].
  destruct (checked_number value) as [v|]; [|now inversion 1].
  destruct ((v =? 0) && dict_in a (matrix self)); [discriminate|].
  destruct (negb (v =? 0)); discriminate.
Qed.

Lemma delitem_raise_unchanged (row_col : pyval) (self self' : Sparse_Matrix) (e : exn) :
  __delitem__ row_col self = (Raise e, self') -> self' = self.
Proof.
  unfold __delitem__.
  destruct (check_row_col "__delitem__" self row_col); [|now inversion 1].
  destruct (dict_in a (matrix self)); discriminate.
Qed.

Lemma delitem_in_range (self : Sparse_Matrix) (r c : Z) :
  0 <= r < rows self -> 0 <= c < cols self ->
  __delitem__ (at_ r c) self
  = (Return tt, with_matrix self (dict_pop (matrix self) (r, c))).
Proof.
  intros Hr Hc. unfold __delitem__.
  rewrite (proj2 (check_row_col_Return "__delitem__" self (at_ r c) (r, c)))
    by (cbn [fst snd]; auto).
  destruct (dict_in (r, c) (matrix self)) eqn:E; [reflexivity|].
  rewrite dict_pop_absent by exact E. now rewrite with_matrix_same.
Qed.

(** ** Rows and columns *)

Lemma row_cells (self : Sparse_Matrix) (r : Z) :
  0 <= r < rows self ->
  row self (PInt r) = Return (map (fun i => cell self r i) (range (cols self))).
Proof.
  intros H. unfold row.
  destruct (Z.ltb_spec (-1) r); [|lia].
  destruct (Z.ltb_spec r (rows self)); [|lia].
  cbn [andb negb]. f_equal. apply map_ext. intros i. apply dict_get0_not_in.
Qed.

Lemma col_cells (self : Sparse_Matrix) (c : Z) :
  0 <= c < cols self ->
  col self (PInt c) = Return (map (fun i => cell self i c) (range (rows self))).
Proof.
  intros H. unfold col.
  destruct (Z.ltb_spec (-1) c); [|lia].
  destruct (Z.ltb_spec c (cols self)); [|lia].
  cbn [andb negb]. f_equal. apply map_ext. intros i. apply dict_get0_not_in.
Qed.

(** ** Resizing *)

(** C1. On the 2x3 matrix holding 5 at (0,2) and 7 at (0,0), [__call__(2, 2)]
    removes the entry at (0,0), which lies inside the new bounds, and keeps
    the entry at (0,2), whose column lies outside them: the column pruning
    deletes in the column of the stale loop variable [k]. *)
Theorem call_prunes_wrong_column :
  __init__ (PInt 2) (PInt 3) [tup 0 2 5; tup 0 0 7] = Return m_2x3
  /\ __call__ (PInt 2) (PInt 2) m_2x3
     = (Return tt, {| rows := 2; cols := 2; matrix := [((0, 2), 5)] |}).
Proof. split; vm_compute; reflexivity. Qed.

(** C2. The 2x3 matrix holding 5 at (0,2) and 7 at (0,0) satisfies the
    invariants, and [__call__(2, 2)] leaves behind a matrix that holds a key
    outside its bounds. *)
Theorem call_breaks_keys_in_bounds :
  exists self', __call__ (PInt 2) (PInt 2) m_2x3 = (Return tt, self')
                /\ invariant m_2x3 /\ ~ keys_in_bounds self'.
Proof.
  eexists. split; [vm_compute; reflexivity|]. split; [exact invariant_m_2x3|].
  intros H. inversion H as [|? ? [_ Hc] _]. simpl in Hc. lia.
Qed.

Lemma call_body_skip (new_rows new_cols : Z) (k : option key) (k1 : key)
    (self : Sparse_Matrix) :
  fst k1 < new_rows -> snd k1 < new_cols ->
  call_body new_rows new_cols k k1 self = (Return tt, self).
Proof.
  intros Hr Hc. unfold call_body, bind.
  destruct (Z.geb_spec (fst k1) new_rows); [lia|].
  destruct (Z.geb_spec (snd k1) new_cols); [lia|]. reflexivity.
Qed.

(** C10.  When every stored key lies within the current bounds and neither
    dimension shrinks, [__call__] leaves the dictionary exactly as it was;
    with positive new dimensions it returns and only [rows] and [cols]
    change. *)
Theorem call_growing_keeps_entries (self : Sparse_Matrix) (new_rows new_cols : Z) :
  keys_in_bounds self -> rows self <= new_rows -> cols self <= new_cols ->
  matrix (snd (__call__ (PInt new_rows) (PInt new_cols) self)) = matrix self
  /\ (0 < new_rows -> 0 < new_cols ->
      __call__ (PInt new_rows) (PInt new_cols) self
      = (Return tt, {| rows := new_rows; cols := new_cols; matrix := matrix self |})).
Proof.
  intros Hb Hr Hc.
  assert (Hloop : forall k,
    for_each (keys (fold_left (fun cp kv => dict_setitem cp (fst kv) (snd kv))
                              (matrix self) []))
             (call_body new_rows new_cols k) self = (Return tt, self)).
  { intros k. apply for_each_skip. intros k1 Hk1.
    apply keys_copy in Hk1. destruct Hk1 as [[]|Hk1].
    unfold keys in Hk1. apply in_map_iff in Hk1. destruct Hk1 as (kv & <- & Hkv).
    unfold keys_in_bounds in Hb. rewrite Forall_forall in Hb.
    destruct (Hb kv Hkv). apply call_body_skip; lia. }
  unfold __call__, bind.
  destruct (Z.gtb_spec new_rows 0); simpl.
  - destruct (Z.gtb_spec new_cols 0); simpl.
    + rewrite Hloop. simpl. split; reflexivity.
    + split; [reflexivity | intros; lia].
  - split; [reflexivity | intros; lia].
Qed.

Lemma call_growing_keeps_entries_witness :
  __call__ (PInt 4) (PInt 3) m_2x3
  = (Return tt, {| rows := 4; cols := 3; matrix := matrix m_2x3 |}).
Proof.
  refine (proj2 (call_growing_keeps_entries m_2x3 4 3 _ _ _) _ _).
  - unfold keys_in_bounds; simpl. repeat constructor; simpl; lia.
  - simpl; lia.
  - simpl; lia.
  - lia.
  - lia.
Defined.

Lemma for_each_delitem {A} (f g : A -> Z) (l : list A) (self : Sparse_Matrix) :
  (forall x, In x l -> 0 <= f x < rows self /\ 0 <= g x < cols self) ->
  for_each l (fun x => __delitem__ (PTuple [PInt (f x); PInt (g x)])) self
  = (Return tt, with_matrix self (fold_left (fun d x => dict_pop d (f x, g x)) l (matrix self))).
Proof.
  revert self. induction l as [|x l IH]; intros self H.
  - cbn. now rewrite with_matrix_same.
  - cbn [for_each fold_left]. unfold bind.
    change (PTuple [PInt (f x); PInt (g x)]) with (at_ (f x) (g x)).
    destruct (H x (or_introl eq_refl)) as [Hf Hg].
    rewrite delitem_in_range by assumption.
    rewrite IH; [reflexivity|]. intros y Hy. apply H. now right.
Qed.

Lemma call_body_prune (new_rows new_cols : Z) (k k1 : key) (self : Sparse_Matrix) :
  0 <= fst k1 < rows self -> 0 <= snd k < cols self ->
  call_body new_rows new_cols (Some k) k1 self
  = (Return tt,
     with_matrix self (prune_step new_rows new_cols (rows self) (cols self) k (matrix self) k1)).
Proof.
  intros Hk1 Hk. unfold call_body, prune_step, bind.
  destruct (fst k1 >=? new_rows).
  - rewrite (for_each_delitem (fun _ => fst k1) (fun c => c)).
    2:{ intros c Hc. apply in_range in Hc. auto. }
    destruct (snd k1 >=? new_cols); [|reflexivity].
    rewrite (for_each_delitem (fun r => r) (fun _ => snd k)).
    2:{ intros r Hr. apply in_range in Hr. cbn. auto. }
    reflexivity.
  - cbn [ret]. destruct (snd k1 >=? new_cols).
    + rewrite (for_each_delitem (fun r => r) (fun _ => snd k)).
      2:{ intros r Hr. apply in_range in Hr. auto. }
      reflexivity.
    + cbn [ret]. now rewrite with_matrix_same.
Qed.

Lemma for_each_call_body (new_rows new_cols : Z) (k : key) (ks : list key)
    (self : Sparse_Matrix) :
  (forall k1, In k1 ks -> 0 <= fst k1 < rows self) -> 0 <= snd k < cols self ->
  for_each ks (call_body new_rows new_cols (Some k)) self
  = (Return tt,
     with_matrix self
       (fold_left (prune_step new_rows new_cols (rows self) (cols self) k) ks (matrix self))).
Proof.
  revert self. induction ks as [|k1 ks IH]; intros self Hks Hk.
  - cbn. now rewrite with_matrix_same.
  - cbn [for_each fold_left]. unfold bind.
    rewrite call_body_prune by (auto; apply Hks; now left).
    rewrite IH; [reflexivity | |exact Hk].
    intros k2 Hk2. apply Hks. now right.
Qed.

Lemma last_key_in (d : dict) :
  match last_key d with
  | Some k => In k (keys d)
  | None => d = []
  end.
Proof.
  unfold last_key. destruct (rev d) as [|[k v] l] eqn:E.
  - apply (f_equal (@rev _)) in E. now rewrite rev_involutive in E.
  - unfold keys. change k with (fst (k, v)). apply in_map.
    apply in_rev. rewrite E. now left.
Qed.

(** With positive int arguments on a matrix whose keys are all inside its
    bounds, [__call__] returns, and the dictionary it leaves is the original
    one after the pruning steps, one for each key in order. *)
Lemma call_in_bounds (self : Sparse_Matrix) (new_rows new_cols : Z) :
  keys_in_bounds self -> 0 < new_rows -> 0 < new_cols ->
  exists d',
    __call__ (PInt new_rows) (PInt new_cols) self
    = (Return tt, {| rows := new_rows; cols := new_cols; matrix := d' |})
    /\ (matrix self = [] -> d' = [])
    /\ (forall k, last_key (matrix self) = Some k ->
        d' = fold_left (prune_step new_rows new_cols (rows self) (cols self) k)
               (keys (fold_left (fun cp kv => dict_setitem cp (fst kv) (snd kv))
                                (matrix self) []))
               (matrix self)).
Proof.
  intros Hb Hr Hc. unfold __call__, bind.
  destruct (Z.gtb_spec new_rows 0); [|lia].
  destruct (Z.gtb_spec new_cols 0); [|lia]. cbn [negb].
  unfold keys_in_bounds in Hb. rewrite Forall_forall in Hb.
  pose proof (last_key_in (matrix self)) as Hlast.
  destruct (last_key (matrix self)) as [k|].
  - rewrite for_each_call_body.
    + eexists. split; [reflexivity|]. split.
      * intros E. rewrite E in Hlast. destruct Hlast.
      * intros k' Hk'. inversion Hk'; subst. reflexivity.
    + intros k1 Hk1. apply keys_copy in Hk1. destruct Hk1 as [[]|Hk1].
      unfold keys in Hk1. apply in_map_iff in Hk1. destruct Hk1 as (kv & <- & Hkv).
      now apply Hb.
    + unfold keys in Hlast. apply in_map_iff in Hlast. destruct Hlast as (kv & <- & Hkv).
      now apply Hb.
  - rewrite Hlast. cbn. rewrite Hlast.
    exists []. split; [reflexivity|]. split; [reflexivity|discriminate].
Qed.

(** On a matrix whose keys are all inside its bounds, [__call__] raises only
    from its two assertions, with the object untouched. *)
Lemma call_raise_unchanged (new_rows new_cols : pyval) (self self' : Sparse_Matrix) (e : exn) :
  keys_in_bounds self ->
  __call__ new_rows new_cols self = (Raise e, self') -> self' = self.
Proof.
  intros Hb. destruct new_rows as [nr| | | | | |]; try (now inversion 1).
  destruct new_cols as [nc| | | | | |];
    try (unfold __call__; destruct (negb (nr >? 0)); now inversion 1).
  destruct (Z.ltb_spec 0 nr); [destruct (Z.ltb_spec 0 nc)|].
  - destruct (call_in_bounds self nr nc Hb) as (d' & E & _); auto.
    rewrite E. discriminate.
  - unfold __call__. destruct (Z.gtb_spec nr 0); [|lia].
    destruct (Z.gtb_spec nc 0); [lia|]. now inversion 1.
  - unfold __call__. destruct (Z.gtb_spec nr 0); [lia|]. now inversion 1.
Qed.

(** C9. After [__call__(2, 2)] on the constructed 2x3 matrix with entries at
    (1,1), (0,2) and (0,0), a second [__call__(1, 1)] raises [TypeError] from
    inside [__delitem__] when the entry at (1,1) is already deleted: the
    object is not as it was before the failing call. *)
Theorem call_fails_after_deleting :
  exists self1 self2,
    __init__ (PInt 2) (PInt 3) [tup 1 1 9; tup 0 2 5; tup 0 0 7] = Return m_2x3'
    /\ __call__ (PInt 2) (PInt 2) m_2x3' = (Return tt, self1)
    /\ __call__ (PInt 1) (PInt 1) self1
       = (Raise (TypeError (msg_col_index "__delitem__")), self2)
    /\ matrix self1 = [((1, 1), 9); ((0, 2), 5)]
    /\ matrix self2 = [((0, 2), 5)].
Proof.
  do 2 eexists. split; [reflexivity|]. split; [vm_compute; reflexivity|].
  split; [vm_compute; reflexivity|]. split; reflexivity.
Qed.

(** X5.  [__setitem__] and [__delitem__] that raise leave the object as it
    was; so does [__call__] on a matrix whose keys are all inside its
    bounds. *)
Theorem raise_leaves_object (self self' : Sparse_Matrix) (e : exn) :
  (forall row_col value, __setitem__ row_col value self = (Raise e, self') -> self' = self)
  /\ (forall row_col, __delitem__ row_col self = (Raise e, self') -> self' = self)
  /\ (keys_in_bounds self ->
      forall new_rows new_cols,
        __call__ new_rows new_cols self = (Raise e, self') -> self' = self).
Proof.
  repeat split.
  - intros row_col value. apply setitem_raise_unchanged.
  - intros row_col. apply delitem_raise_unchanged.
  - intros Hb new_rows new_cols. now apply call_raise_unchanged.
Qed.

Lemma raise_leaves_object_witness :
  snd (__call__ (PInt 0) (PInt 2) m_3x3) = m_3x3.
Proof.
  exact (proj2 (proj2 (raise_leaves_object m_3x3 (snd (__call__ (PInt 0) (PInt 2) m_3x3))
                         (AssertionError msg_call_row)))
           (inv_bounds _ invariant_m_3x3) (PInt 0) (PInt 2) eq_refl).
Defined.

Lemma in_prune_step (nr nc R C : Z) (k k1 : key) (d : dict) (kv : key * Z) :
  In kv (prune_step nr nc R C k d k1) -> In kv d.
Proof.
  unfold prune_step. intros H.
  destruct (snd k1 >=? nc); [apply in_fold_pop in H|];
    destruct (fst k1 >=? nr); auto; now apply in_fold_pop in H.
Qed.

Lemma NoDup_keys_prune_step (nr nc R C : Z) (k k1 : key) (d : dict) :
  NoDup (keys d) -> NoDup (keys (prune_step nr nc R C k d k1)).
Proof.
  unfold prune_step. intros H.
  destruct (snd k1 >=? nc); [apply NoDup_keys_fold_pop|];
    destruct (fst k1 >=? nr); auto; now apply NoDup_keys_fold_pop.
Qed.

Lemma prune_step_removes_row (nr nc R C : Z) (k k1 : key) (d : dict) :
  NoDup (keys d) -> nr <= fst k1 -> 0 <= snd k1 < C ->
  ~ In k1 (keys (prune_step nr nc R C k d k1)).
Proof.
  intros Hnd Hr Hc. unfold prune_step.
  destruct (Z.geb_spec (fst k1) nr); [|lia].
  assert (H1 : ~ In k1 (keys (fold_left (fun d c => dict_pop d (fst k1, c)) (range C) d))).
  { replace k1 with (fst k1, snd k1) at 1 by now destruct k1.
    apply (fold_pop_removes (fun c => (fst k1, c))); [exact Hnd | now apply in_range]. }
  destruct (snd k1 >=? nc); [|exact H1].
  intros Hin. apply H1. eapply keys_fold_pop. exact Hin.
Qed.

Lemma in_fold_prune (nr nc R C : Z) (k : key) (ks : list key) (d : dict) (kv : key * Z) :
  In kv (fold_left (prune_step nr nc R C k) ks d) -> In kv d.
Proof.
  revert d. induction ks as [|k1 ks IH]; intros d H; [exact H|].
  cbn [fold_left] in H. apply IH in H. eapply in_prune_step; eauto.
Qed.

Lemma NoDup_keys_fold_prune (nr nc R C : Z) (k : key) (ks : list key) (d : dict) :
  NoDup (keys d) -> NoDup (keys (fold_left (prune_step nr nc R C k) ks d)).
Proof.
  revert d. induction ks as [|k1 ks IH]; intros d H; [exact H|].
  cbn [fold_left]. apply IH. now apply NoDup_keys_prune_step.
Qed.

Lemma fold_prune_removes_rows (nr nc R C : Z) (k : key) (ks : list key) (d : dict) (k1 : key) :
  NoDup (keys d) -> In k1 ks -> nr <= fst k1 -> 0 <= snd k1 < C ->
  ~ In k1 (keys (fold_left (prune_step nr nc R C k) ks d)).
Proof.
  revert d. induction ks as [|k0 ks IH]; intros d Hnd Hin Hr Hc; [contradiction|].
  cbn [fold_left]. destruct Hin as [->|Hin].
  - intros H. apply (prune_step_removes_row nr nc R C k k1 d Hnd Hr Hc).
    unfold keys in *. apply in_map_iff in H. destruct H as (kv & <- & H).
    apply in_map. eapply in_fold_prune; eauto.
  - apply IH; auto. now apply NoDup_keys_prune_step.
Qed.

(** X6.  On a matrix that satisfies the invariants, [__call__] with positive
    int arguments returns with the new dimensions; every entry it leaves is
    an entry of the original (none added, no value changed) with its row
    inside the new range; the keys stay distinct and no stored value is
    zero. *)
Theorem call_prunes_rows (self : Sparse_Matrix) (new_rows new_cols : Z) :
  invariant self -> 0 < new_rows -> 0 < new_cols ->
  exists self',
    __call__ (PInt new_rows) (PInt new_cols) self = (Return tt, self')
    /\ size self' = (new_rows, new_cols)
    /\ NoDup (keys (matrix self'))
    /\ no_zero_value self'
    /\ Forall (fun kv => In kv (matrix self) /\ 0 <= fst (fst kv) < new_rows)
              (matrix self').
Proof.
  intros [Hrows Hcols Hnd Hnz Hb] Hr Hc.
  destruct (call_in_bounds self new_rows new_cols Hb Hr Hc) as (d' & E & Hnil & Hd').
  eexists. split; [exact E|]. cbn [matrix size rows cols]. split; [reflexivity|].
  pose proof (last_key_in (matrix self)) as Hlast.
  destruct (last_key (matrix self)) as [k|].
  - specialize (Hd' k eq_refl). subst d'.
    assert (Hsub : forall kv,
      In kv (fold_left (prune_step new_rows new_cols (rows self) (cols self) k)
               (keys (fold_left (fun cp kv => dict_setitem cp (fst kv) (snd kv))
                                (matrix self) []))
               (matrix self)) -> In kv (matrix self))
      by (intros kv; apply in_fold_prune).
    split; [now apply NoDup_keys_fold_prune|]. split.
    + unfold no_zero_value in *. cbn [matrix]. rewrite Forall_forall in *.
      intros kv Hkv. apply Hnz, Hsub, Hkv.
    + apply Forall_forall. intros kv Hkv. split; [now apply Hsub|].
      unfold keys_in_bounds in Hb. rewrite Forall_forall in Hb.
      destruct (Hb kv (Hsub kv Hkv)) as [Hkr Hkc]. split; [lia|].
      destruct (Z.lt_ge_cases (fst (fst kv)) new_rows) as [|Hge]; [assumption|].
      exfalso.
      apply (fold_prune_removes_rows new_rows new_cols (rows self) (cols self) k
               (keys (fold_left (fun cp kv => dict_setitem cp (fst kv) (snd kv))
                                (matrix self) []))
               (matrix self) (fst kv)); auto.
      * apply keys_copy_complete. right. unfold keys. apply in_map. now apply Hsub.
      * unfold keys. now apply in_map.
  - rewrite (Hnil Hlast). repeat split; constructor.
Qed.

Lemma call_prunes_rows_witness :
  exists self',
    __call__ (PInt 1) (PInt 3) m_3x3 = (Return tt, self')
    /\ size self' = (1, 3)
    /\ NoDup (keys (matrix self'))
    /\ no_zero_value self'
    /\ Forall (fun kv => In kv (matrix m_3x3) /\ 0 <= fst (fst kv) < 1) (matrix self').
Proof.
  apply (call_prunes_rows m_3x3 1 3 invariant_m_3x3); lia.
Defined.

(** ** Iteration *)

Section Sorted_by_key.
Context {A : Type} (f : A -> Z).

Lemma insert_by_perm (x : A) (l : list A) : Permutation (insert_by f x l) (x :: l).
Proof.
  induction l as [|y l IH]; simpl; [reflexivity|].
  destruct (f x <=? f y); [reflexivity|].
  rewrite IH. apply perm_swap.
Qed.

Lemma sorted_perm (l : list A) : Permutation (sorted l f) l.
Proof.
  induction l as [|x l IH]; simpl; [constructor|].
  rewrite insert_by_perm. now constructor.
Qed.

Lemma insert_by_sorted (x : A) (l : list A) :
  StronglySorted (key_le f) l -> StronglySorted (key_le f) (insert_by f x l).
Proof.
  induction 1 as [|y l Hl IH Hy]; simpl.
  - repeat constructor.
  - destruct (Z.leb_spec (f x) (f y)) as [Hxy|Hxy].
    + constructor; [now constructor|].
      constructor; [exact Hxy|].
      eapply Forall_impl; [|exact Hy]. unfold key_le. intros; lia.
    + constructor; [exact IH|].
      eapply Permutation_Forall; [symmetry; apply insert_by_perm|].
      constructor; [unfold key_le; lia | exact Hy].
Qed.

Lemma sorted_sorted (l : list A) : StronglySorted (key_le f) (sorted l f).
Proof.
  induction l as [|x l IH]; simpl; [constructor|].
  now apply insert_by_sorted.
Qed.

(** Stability: the items of any one key keep the order they had. *)
Lemma insert_by_filter (v : Z) (x : A) (l : list A) :
  filter (fun a => f a =? v) (insert_by f x l)
  = filter (fun a => f a =? v) (x :: l).
Proof.
  induction l as [|y l IH]; [reflexivity|].
  cbn [insert_by]. destruct (Z.leb_spec (f x) (f y)) as [Hxy|Hxy]; [reflexivity|].
  cbn [filter] in *. rewrite IH.
  destruct (Z.eqb_spec (f y) v), (Z.eqb_spec (f x) v); try reflexivity; lia.
Qed.

Lemma sorted_stable (v : Z) (l : list A) :
  filter (fun a => f a =? v) (sorted l f) = filter (fun a => f a =? v) l.
Proof.
  induction l as [|x l IH]; [reflexivity|].
  cbn [sorted fold_right]. rewrite insert_by_filter.
  cbn [filter]. fold (sorted l f). now rewrite IH.
Qed.
(** A list sorted by key is determined by its items of each key, in order:
    whatever algorithm [sorted] runs, a stable one returns this list. *)
Lemma sorted_by_key_unique (l1 l2 : list A) :
  StronglySorted (key_le f) l1 -> StronglySorted (key_le f) l2 ->
  (forall v, filter (fun a => f a =? v) l1 = filter (fun a => f a =? v) l2) ->
  l1 = l2.
Proof.
  intros H1. revert l2. induction H1 as [|x l1 Hl1 IH Hx]; intros l2 H2 Hf.
  - destruct l2 as [|y l2]; [reflexivity|].
    specialize (Hf (f y)). cbn [filter] in Hf. rewrite Z.eqb_refl in Hf. discriminate.
  - destruct H2 as [|y l2 Hl2 Hy].
    + specialize (Hf (f x)). cbn [filter] in Hf. rewrite Z.eqb_refl in Hf. discriminate.
    + assert (Hxy : f x = f y).
      { apply Z.le_antisymm.
        - assert (Hin : In y (filter (fun a => f a =? f y) (x :: l1))).
          { rewrite Hf. cbn [filter]. rewrite Z.eqb_refl. now left. }
          apply filter_In in Hin. destruct Hin as [[->|Hin] _]; [lia|].
          rewrite Forall_forall in Hx. exact (Hx y Hin).
        - assert (Hin : In x (filter (fun a => f a =? f x) (y :: l2))).
          { rewrite <- Hf. cbn [filter]. rewrite Z.eqb_refl. now left. }
          apply filter_In in Hin. destruct Hin as [[->|Hin] _]; [lia|].
          rewrite Forall_forall in Hy. exact (Hy x Hin). }
      pose proof (Hf (f x)) as Hv. cbn [filter] in Hv.
      rewrite <- Hxy, Z.eqb_refl in Hv. inversion Hv as [[Heq Htl]]. subst y.
      f_equal. apply IH; [exact Hl2|]. intros v. specialize (Hf v).
      cbn [filter] in Hf. destruct (f x =? v); [now inversion Hf | exact Hf].
Qed.

Lemma sorted_characterised (l l' : list A) :
  StronglySorted (key_le f) l' ->
  (forall v, filter (fun a => f a =? v) l' = filter (fun a => f a =? v) l) ->
  l' = sorted l f.
Proof.
  intros Hs Hf. apply sorted_by_key_unique; [exact Hs | apply sorted_sorted|].
  intros v. now rewrite Hf, sorted_stable.
Qed.
End Sorted_by_key.

Lemma iter_m_1x2 : __iter__ m_1x2 = [(0, 1, 1); (0, 0, 2)].
Proof. reflexivity. Qed.

(** C3, as stated, fails: the 1x2 matrix holding 1 at (0,1) and 2 at (0,0)
    is enumerated with column 1 before column 0. *)
Lemma iter_not_ascending_column :
  ~ (Permutation (__iter__ m_1x2) (entries m_1x2)
     /\ ascending col_of (__iter__ m_1x2)).
Proof.
  rewrite iter_m_1x2. intros [_ H].
  inversion H as [|? ? _ Hall]; subst.
  inversion Hall as [|? ? Hle _]; subst.
  unfold col_of in Hle; simpl in Hle. lia.
Qed.

Lemma map_item_triple_ascending (l : list (key * Z)) :
  StronglySorted (key_le (fun x => snd x)) l ->
  ascending value_of (map item_triple l).
Proof.
  unfold ascending.
  induction 1 as [|x l _ IH Hx]; simpl; constructor; [exact IH|].
  apply Forall_map. eapply Forall_impl; [|exact Hx]. intros y Hy. exact Hy.
Qed.

Lemma filter_value_map_item_triple (v : Z) (l : list (key * Z)) :
  filter (fun t => value_of t =? v) (map item_triple l)
  = map item_triple (filter (fun x => snd x =? v) l).
Proof.
  induction l as [|x l IH]; [reflexivity|].
  cbn [map filter]. rewrite IH.
  replace (value_of (item_triple x)) with (snd x) by reflexivity.
  destruct (snd x =? v); reflexivity.
Qed.

(** C3, amended.  [__iter__] yields exactly the stored entries as
    [(row, col, value)] triples, in ascending order of the value; entries of
    equal value come in the order of the dictionary; and when no stored
    value is zero, no yielded value is zero. *)
Theorem iter_ascending_value (self : Sparse_Matrix) :
  Permutation (__iter__ self) (entries self)
  /\ ascending value_of (__iter__ self)
  /\ (forall v, filter (fun t => value_of t =? v) (__iter__ self)
                = filter (fun t => value_of t =? v) (entries self))
  /\ (no_zero_value self -> Forall (fun t => value_of t <> 0) (__iter__ self)).
Proof.
  unfold __iter__, entries. fold item_triple.
  change (map (fun x : Z * Z * Z => (fst (fst x), snd (fst x), snd x)))
    with (map item_triple).
  repeat split.
  - apply Permutation_map, sorted_perm.
  - apply map_item_triple_ascending, sorted_sorted.
  - intros v. rewrite !filter_value_map_item_triple. f_equal. apply sorted_stable.
  - intros H. apply Forall_map.
    eapply Permutation_Forall; [symmetry; apply sorted_perm|].
    exact H.
Qed.

Lemma iter_ascending_value_witness :
  no_zero_value m_1x2 /\ Forall (fun t => value_of t <> 0) (__iter__ m_1x2).
Proof.
  assert (H : no_zero_value m_1x2).
  { unfold no_zero_value; simpl. repeat constructor; simpl; lia. }
  split; [exact H|].
  destruct (iter_ascending_value m_1x2) as (_ & _ & _ & Hnz).
  exact (Hnz H).
Defined.

(** ** Addition and negation *)

Lemma size_eqb_neq (a b : Sparse_Matrix) : size a <> size b -> size_eqb (size a) (size b) = false.
Proof.
  unfold size, size_eqb; simpl. intros H.
  destruct (Z.eqb_spec (rows a) (rows b)), (Z.eqb_spec (cols a) (cols b));
    try reflexivity. exfalso; apply H; congruence.
Qed.

(** C4. Adding the 2x2 matrix holding 1 at (1,1) to the 2x2 matrix holding 1
    at (0,0) gives a matrix whose cell (1,1) reads 0, not 0 + 1: only the
    cells stored in the left operand are visited.  Adding the scalar 1 to
    the same left operand leaves cell (1,1) at 0 as well, and adding the
    float 1.5 raises [TypeError]. *)
Theorem add_skips_cells_not_stored_on_the_left :
  __getitem__ m_a (at_ 1 1) = Return 0
  /\ __getitem__ m_b (at_ 1 1) = Return 1
  /\ (s <- __add__ m_a (PMatrix m_b) ;; __getitem__ s (at_ 1 1)) = Return 0
  /\ (s <- __add__ m_a (PInt 1) ;; __getitem__ s (at_ 1 1)) = Return 0
  /\ __add__ m_a (PFloat 1.5%float) = Raise (TypeError msg_add_type).
Proof. repeat split; vm_compute; reflexivity. Qed.

(** Matrix plus matrix of the same size, and matrix plus int: the result
    holds, for each entry stored in [self], the sum when it is not zero, and
    nothing else. *)
Lemma add_stored_entries (self : Sparse_Matrix) :
  invariant self ->
  (forall right_m, size self = size right_m ->
     __add__ self (PMatrix right_m)
     = Return {| rows := rows self; cols := cols self;
                 matrix := add_entries (fun k => cell right_m (fst k) (snd k)) (matrix self) |})
  /\ (forall right_n,
        __add__ self (PInt right_n)
        = Return {| rows := rows self; cols := cols self;
                    matrix := add_entries (fun _ => right_n) (matrix self) |}).
Proof.
  intros [Hrows Hcols Hnd Hnz Hb]. unfold keys_in_bounds in Hb. split.
  - intros right_m Hsize. unfold __add__.
    assert (Hr : rows right_m = rows self) by (unfold size in Hsize; congruence).
    assert (Hc : cols right_m = cols self) by (unfold size in Hsize; congruence).
    unfold size_eqb, size. cbn [fst snd]. rewrite Hr, Hc, !Z.eqb_refl. cbn [andb negb].
    rewrite (mapM_Return _ (fun kv => entry_triple
               (fst kv, snd kv + cell right_m (fst (fst kv)) (snd (fst kv))))).
    + cbn [rbind].
      rewrite <- (map_map (fun kv => (fst kv, snd kv + cell right_m (fst (fst kv)) (snd (fst kv))))
                          entry_triple).
      rewrite init_entries; auto.
      * now apply (Forall_map_value (fun k => 0 <= fst k < rows self /\ 0 <= snd k < cols self)).
      * now rewrite keys_map_value.
    + intros kv Hkv. rewrite Forall_forall in Hb. destruct (Hb kv Hkv).
      change (PTuple [PInt (fst (fst kv)); PInt (snd (fst kv))])
        with (at_ (fst (fst kv)) (snd (fst kv))).
      rewrite getitem_cell by lia. reflexivity.
  - intros right_n. unfold __add__.
    cbn [checked_number is_int_or_float type py_or pytype_truthy pytype_is].
    unfold triples_of.
    rewrite <- (map_map (fun kv => (fst kv, snd kv + right_n)) entry_triple).
    rewrite init_entries; auto.
    + now apply (Forall_map_value (fun k => 0 <= fst k < rows self /\ 0 <= snd k < cols self)).
    + now rewrite keys_map_value.
Qed.

(** The logical cells of such a sum: the sum on the cells stored in [self],
    zero on every other cell. *)
Lemma cell_add_entries (f : key -> Z) (d : dict) (k : key) :
  NoDup (keys d) ->
  dict_get0 (add_entries f d) k
  = if dict_in k d then dict_get0 d k + f k else 0.
Proof.
  intros Hnd. unfold add_entries. destruct (dict_in k d) eqn:E.
  - unfold dict_in, dict_get0 in *. destruct (dict_get d k) as [v|] eqn:G; [|discriminate].
    apply dict_get_in in G.
    apply (dict_get_filter_nonzero _ k (v + f k)).
    + now rewrite keys_map_value.
    + apply in_map_iff. exists (k, v). split; [reflexivity | exact G].
  - apply dict_get0_absent. apply dict_in_false in E. intros H. apply E.
    unfold keys in *. apply in_map_iff in H. destruct H as (kv & <- & H).
    apply filter_In in H. destruct H as [H _].
    apply in_map_iff in H. destruct H as (kv' & <- & H). cbn [fst]. now apply in_map.
Qed.

(** X7.  [__add__] of a matrix of the same size, or of an int, returns a
    matrix of the same size whose logical cell is the sum on the cells
    stored in [self] and zero on all the others. *)
Theorem add_on_stored_cells (self : Sparse_Matrix) :
  invariant self ->
  (forall right_m, size self = size right_m ->
     exists s, __add__ self (PMatrix right_m) = Return s
       /\ size s = size self
       /\ forall r c, cell s r c
                      = if dict_in (r, c) (matrix self)
                        then cell self r c + cell right_m r c else 0)
  /\ (forall right_n,
        exists s, __add__ self (PInt right_n) = Return s
          /\ size s = size self
          /\ forall r c, cell s r c
                         = if dict_in (r, c) (matrix self)
                           then cell self r c + right_n else 0).
Proof.
  intros Hinv. destruct (add_stored_entries self Hinv) as [Hm Hn].
  pose proof (inv_keys _ Hinv) as Hnd. split.
  - intros right_m Hs. eexists. split; [now apply Hm|]. split; [reflexivity|].
    intros r c. unfold cell at 1. cbn [matrix].
    now rewrite (cell_add_entries (fun k => cell right_m (fst k) (snd k))).
  - intros right_n. eexists. split; [now apply Hn|]. split; [reflexivity|].
    intros r c. unfold cell at 1. cbn [matrix].
    now rewrite (cell_add_entries (fun _ => right_n)).
Qed.

Lemma add_on_stored_cells_witness :
  exists s, __add__ m_a (PMatrix m_b) = Return s
    /\ size s = size m_a
    /\ forall r c, cell s r c
                   = if dict_in (r, c) (matrix m_a) then cell m_a r c + cell m_b r c else 0.
Proof.
  exact (proj1 (add_on_stored_cells m_a invariant_m_a) m_b eq_refl).
Defined.

Lemma neg_entries (self : Sparse_Matrix) :
  invariant self ->
  __neg__ self = Return (with_matrix self (map (fun kv => (fst kv, - snd kv)) (matrix self)))
  /\ invariant (with_matrix self (map (fun kv => (fst kv, - snd kv)) (matrix self))).
Proof.
  intros Hinv. pose proof Hinv as [Hrows Hcols Hnd Hnz Hb].
  assert (Hnz' : Forall (fun kv => snd kv <> 0)
                        (map (fun kv => (fst kv, - snd kv)) (matrix self))).
  { apply Forall_map. eapply Forall_impl; [|exact Hnz]. cbn. intros; lia. }
  split.
  - unfold __neg__. rewrite init_triples_of by exact Hinv.
    now rewrite filter_nonzero_all.
  - constructor; cbn [with_matrix rows cols matrix]; auto.
    + now rewrite keys_map_value.
    + now apply (Forall_map_value (fun k => 0 <= fst k < rows self /\ 0 <= snd k < cols self)).
Qed.

Lemma map_neg_neg (d : dict) :
  map (fun kv => (fst kv, - snd kv)) (map (fun kv => (fst kv, - snd kv)) d) = d.
Proof.
  rewrite map_map. rewrite <- (map_id d) at 2. apply map_ext.
  intros [k v]. cbn. f_equal. lia.
Qed.

(** X8.  On a matrix that satisfies the invariants, negating twice gives
    the matrix back, adding the negation gives the matrix with no entry,
    and multiplying by the int 1 gives the matrix back. *)
Theorem neg_add_mul_laws (self : Sparse_Matrix) :
  invariant self ->
  (n <- __neg__ self ;; __neg__ n) = Return self
  /\ (n <- __neg__ self ;; __add__ self (PMatrix n))
     = Return {| rows := rows self; cols := cols self; matrix := [] |}
  /\ __mul__ self (PInt 1) = Return self.
Proof.
  intros Hinv. destruct (neg_entries self Hinv) as [Hneg Hinv'].
  pose proof Hinv as [Hrows Hcols Hnd Hnz Hb]. repeat split.
  - rewrite Hneg. cbn [rbind].
    destruct (neg_entries _ Hinv') as [Hneg' _]. rewrite Hneg'.
    unfold with_matrix. cbn [rows cols matrix]. rewrite map_neg_neg. now destruct self.
  - rewrite Hneg. cbn [rbind].
    rewrite (proj1 (add_stored_entries self Hinv)) by reflexivity.
    do 2 f_equal. unfold add_entries. apply filter_nonzero_none.
    apply Forall_map, Forall_forall. intros [[r c] v] Hkv. cbn [fst snd].
    unfold cell, with_matrix. cbn [matrix].
    rewrite (dict_get0_map_value (fun v => - v) _ (r, c) v Hnd Hkv). lia.
  - unfold __mul__. cbn [checked_number is_int_or_float type py_or pytype_truthy pytype_is].
    rewrite init_triples_of by exact Hinv.
    replace (map (fun kv => (fst kv, snd kv * 1)) (matrix self)) with (matrix self).
    + rewrite filter_nonzero_all by exact Hnz. now destruct self.
    + rewrite <- (map_id (matrix self)) at 1. apply map_ext.
      intros [k v]. cbn. f_equal. lia.
Qed.

Lemma neg_add_mul_laws_witness :
  (n <- __neg__ m_3x3 ;; __neg__ n) = Return m_3x3
  /\ (n <- __neg__ m_3x3 ;; __add__ m_3x3 (PMatrix n))
     = Return {| rows := 3; cols := 3; matrix := [] |}
  /\ __mul__ m_3x3 (PInt 1) = Return m_3x3.
Proof. exact (neg_add_mul_laws m_3x3 invariant_m_3x3). Defined.

(** X9.  On a matrix that satisfies the invariants, unary plus gives the
    matrix back and [abs] gives the matrix with every stored value replaced
    by its magnitude; the reflected addition and multiplication are the
    plain ones; and the reflected subtraction of an int [s] stores [s - v]
    for each stored [v], zeros dropped. *)
Theorem pos_abs_reflected (self : Sparse_Matrix) :
  invariant self ->
  __pos__ self = Return self
  /\ __abs__ self
     = Return (with_matrix self (map (fun kv => (fst kv, Z.abs (snd kv))) (matrix self)))
  /\ (forall left, __radd__ self left = __add__ self left
                   /\ __rmul__ self left = __mul__ self left)
  /\ (forall s, __rsub__ self (PInt s)
                = Return (with_matrix self
                            (filter nonzero
                               (map (fun kv => (fst kv, s - snd kv)) (matrix self))))).
Proof.
  intros Hinv. pose proof Hinv as [Hrows Hcols Hnd Hnz Hb].
  split; [|split; [|split]].
  - unfold __pos__. rewrite init_triples_of by exact Hinv.
    replace (map (fun kv => (fst kv, snd kv)) (matrix self)) with (matrix self).
    + rewrite filter_nonzero_all by exact Hnz. now destruct self.
    + rewrite <- (map_id (matrix self)) at 1. apply map_ext. now intros [k v].
  - unfold __abs__. rewrite init_triples_of by exact Hinv.
    rewrite filter_nonzero_all; [reflexivity|].
    apply Forall_map. eapply Forall_impl; [|exact Hnz]. cbn. intros; lia.
  - intros left. split; reflexivity.
  - intros s. unfold __rsub__.
    cbn [checked_number is_int_or_float type py_or pytype_truthy pytype_is].
    now rewrite init_triples_of by exact Hinv.
Qed.

Lemma pos_abs_reflected_witness :
  __pos__ m_3x3 = Return m_3x3
  /\ __rsub__ m_3x3 (PInt 1)
     = Return {| rows := 3; cols := 3; matrix := [((1, 1), -2)] |}.
Proof.
  destruct (pos_abs_reflected m_3x3 invariant_m_3x3) as (Hpos & _ & _ & Hrsub).
  exact (conj Hpos (Hrsub 1)).
Defined.

(** ** Multiplication and powers *)

Lemma in_grid (R C : Z) (f : Z -> Z -> Z) (k : key) (v : Z) :
  In (k, v) (grid R C f)
  <-> (0 <= fst k < R /\ 0 <= snd k < C) /\ v = f (fst k) (snd k).
Proof.
  unfold grid. rewrite in_concat. split.
  - intros (l & Hl & Hin). apply in_map_iff in Hl. destruct Hl as (r & <- & Hr).
    apply in_map_iff in Hin. destruct Hin as (c & Heq & Hc).
    inversion Heq; subst. apply in_range in Hr, Hc. simpl. auto.
  - intros [[Hr Hc] ->]. destruct k as [r c]. simpl in *.
    exists (map (fun c => ((r, c), f r c)) (range C)). split.
    + apply in_map_iff. exists r. split; [reflexivity | now apply in_range].
    + apply in_map_iff. exists c. split; [reflexivity | now apply in_range].
Qed.

Lemma grid_in_bounds (R C : Z) (f : Z -> Z -> Z) :
  Forall (fun kv => 0 <= fst (fst kv) < R /\ 0 <= snd (fst kv) < C) (grid R C f).
Proof.
  apply Forall_forall. intros [k v] H. apply in_grid in H. simpl. tauto.
Qed.

Lemma NoDup_keys_rows (f : Z -> Z -> Z) (cs rs : list Z) :
  NoDup cs -> NoDup rs ->
  NoDup (keys (List.concat (map (fun r => map (fun c => ((r, c), f r c)) cs) rs))).
Proof.
  intros Hcs. induction 1 as [|r rs Hr Hrs IH]; [constructor|].
  cbn [map List.concat]. rewrite keys_app. apply NoDup_app.
  - unfold keys. rewrite map_map. cbn [fst].
    apply NoDup_map_NoDup_ForallPairs; [|exact Hcs].
    intros x y _ _ H. now inversion H.
  - exact IH.
  - intros k Hk1 Hk2. unfold keys in Hk1, Hk2.
    rewrite map_map in Hk1. apply in_map_iff in Hk1. destruct Hk1 as (c & <- & _).
    apply in_map_iff in Hk2. destruct Hk2 as ([k' v'] & Hfst & Hin). cbn [fst] in Hfst. subst k'.
    apply in_concat in Hin. destruct Hin as (l & Hl & Hin).
    apply in_map_iff in Hl. destruct Hl as (r' & <- & Hr').
    apply in_map_iff in Hin. destruct Hin as (c' & Heq & _).
    inversion Heq; subst. contradiction.
Qed.

Lemma NoDup_keys_grid (R C : Z) (f : Z -> Z -> Z) : NoDup (keys (grid R C f)).
Proof. apply NoDup_keys_rows; apply NoDup_range. Qed.

Lemma length_grid (R C : Z) (f : Z -> Z -> Z) :
  List.length (grid R C f) = (Z.to_nat R * Z.to_nat C)%nat.
Proof.
  unfold grid. rewrite <- (length_range R), <- (length_range C).
  induction (range R) as [|r rs IH]; [reflexivity|].
  cbn [map List.concat List.length]. rewrite length_app, length_map, IH. reflexivity.
Qed.

Lemma in_keys_grid (R C : Z) (f : Z -> Z -> Z) (k : key) :
  In k (keys (grid R C f)) <-> 0 <= fst k < R /\ 0 <= snd k < C.
Proof.
  unfold keys. rewrite in_map_iff. split.
  - intros ([k' v] & <- & H). apply in_grid in H. tauto.
  - intros H. exists (k, f (fst k) (snd k)). split; [reflexivity|].
    apply in_grid. auto.
Qed.

Lemma mul_value_dot (a b : Sparse_Matrix) (r c : Z) :
  cols a = rows b -> 0 <= r < rows a -> 0 <= c < cols b ->
  mul_value a b r c = Return (dot a b r c).
Proof.
  intros Hab Hr Hc. unfold mul_value, dot.
  apply foldM_Return. intros i value Hi. apply in_range in Hi.
  rewrite row_cells by exact Hr. cbn [rbind].
  rewrite tuple_index_map_range by exact Hi. cbn [rbind].
  rewrite col_cells by exact Hc. cbn [rbind].
  rewrite tuple_index_map_range by lia. reflexivity.
Qed.

(** [__mul__] of two matrices whose shapes agree returns their product. *)
Lemma mul_product (a b : Sparse_Matrix) :
  0 < rows a -> 0 < cols b -> cols a = rows b ->
  __mul__ a (PMatrix b) = Return (product a b).
Proof.
  intros Hra Hcb Hab. unfold __mul__.
  rewrite (proj2 (Z.eqb_eq _ _) Hab). cbn [negb].
  rewrite (mapM_Return _ (fun r => map (fun c => entry_triple ((r, c), dot a b r c))
                                       (range (cols b)))).
  - cbn [rbind].
    replace (List.concat _) with (map entry_triple (grid (rows a) (cols b) (dot a b))).
    + rewrite init_entries; auto using grid_in_bounds, NoDup_keys_grid.
    + unfold grid. rewrite concat_map, map_map. f_equal. apply map_ext.
      intros r. now rewrite map_map.
  - intros r Hr. apply in_range in Hr. apply mapM_Return.
    intros c Hc. apply in_range in Hc.
    rewrite mul_value_dot by auto. reflexivity.
Qed.

(** The logical cells of the product are the inner products. *)
Lemma cell_product (a b : Sparse_Matrix) (r c : Z) :
  0 <= r < rows a -> 0 <= c < cols b -> cell (product a b) r c = dot a b r c.
Proof.
  intros Hr Hc. unfold cell, product. cbn [matrix].
  apply dict_get_filter_nonzero; [apply NoDup_keys_grid|].
  apply in_grid. simpl. auto.
Qed.

(** X10.  [__mul__] of matrices with [a.cols == b.rows] returns a matrix of
    shape [(a.rows, b.cols)] whose cell [(r, c)] reads the inner product of
    row [r] of [a] and column [c] of [b]. *)
Theorem mul_matrix_product (a b : Sparse_Matrix) :
  0 < rows a -> 0 < cols b -> cols a = rows b ->
  exists p,
    __mul__ a (PMatrix b) = Return p
    /\ size p = (rows a, cols b)
    /\ forall r c, 0 <= r < rows a -> 0 <= c < cols b ->
                   __getitem__ p (at_ r c) = Return (dot a b r c).
Proof.
  intros Hr Hc Hab. exists (product a b). split; [now apply mul_product|].
  split; [reflexivity|]. intros r c Hr' Hc'.
  rewrite getitem_cell by (cbn; assumption). now rewrite cell_product.
Qed.

Lemma mul_matrix_product_witness :
  exists p,
    __mul__ m_3x3 (PMatrix m_3x3) = Return p
    /\ size p = (3, 3)
    /\ forall r c, 0 <= r < 3 -> 0 <= c < 3 ->
                   __getitem__ p (at_ r c) = Return (dot m_3x3 m_3x3 r c).
Proof.
  apply (mul_matrix_product m_3x3 m_3x3); cbn; lia.
Defined.

Lemma power_chain_loop (m : Sparse_Matrix) (n : nat) :
  foldM (fun pow_mat _ => __mul__ pow_mat (PMatrix m)) (repeat tt n) m
  = power_chain m n.
Proof.
  induction n as [|n IH]; [reflexivity|].
  replace (repeat tt (S n)) with (repeat tt n ++ [tt]).
  - rewrite foldM_app, IH. cbn [power_chain].
    destruct (power_chain m n); cbn [rbind foldM]; [|reflexivity].
    now destruct (__mul__ a (PMatrix m)).
  - now rewrite <- repeat_cons.
Qed.

Lemma power_chain_product (m : Sparse_Matrix) (n : nat) :
  0 < rows m -> rows m = cols m ->
  power_chain m n = Return (matrix_power m n) /\ size (matrix_power m n) = size m.
Proof.
  intros Hr Hsq. induction n as [|n [Hp Hs]].
  - split; reflexivity.
  - cbn [power_chain matrix_power]. rewrite Hp. cbn [rbind].
    unfold size in Hs. inversion Hs as [[Hpr Hpc]].
    rewrite mul_product by lia. split; [reflexivity|].
    unfold size, product; cbn [rows cols]. congruence.
Qed.

(** C7.  For a square matrix [m] and a positive int [n], [__pow__] returns
    what [n - 1] successive multiplications by [m], starting from [m], give:
    the chain of [__mul__], which is the chain of matrix products, a matrix
    of the size of [m]; and [m ** 2] is [m * m]. *)
Theorem pow_repeated_mul (m : Sparse_Matrix) (n : Z) :
  0 < rows m -> rows m = cols m -> 0 < n ->
  __pow__ m (PInt n) = power_chain m (Z.to_nat (n - 1))
  /\ __pow__ m (PInt n) = Return (matrix_power m (Z.to_nat (n - 1)))
  /\ size (matrix_power m (Z.to_nat (n - 1))) = size m
  /\ __pow__ m (PInt 2) = __mul__ m (PMatrix m).
Proof.
  intros Hr Hsq Hn.
  assert (Hpow : forall k, 0 < k ->
            __pow__ m (PInt k) = power_chain m (Z.to_nat (k - 1))).
  { intros k Hk. unfold __pow__.
    destruct (Z.gtb_spec k 0); [|lia].
    rewrite (proj2 (Z.eqb_eq _ _) Hsq). cbn [negb].
    rewrite foldM_const, range2_length. apply power_chain_loop. }
  destruct (power_chain_product m (Z.to_nat (n - 1)) Hr Hsq) as [Hchain Hsize].
  split; [now apply Hpow|]. split; [|split].
  - rewrite Hpow by exact Hn. exact Hchain.
  - exact Hsize.
  - rewrite Hpow by lia. reflexivity.
Qed.

Lemma pow_repeated_mul_witness :
  __pow__ m_3x3 (PInt 3)
  = (p <- __mul__ m_3x3 (PMatrix m_3x3) ;; __mul__ p (PMatrix m_3x3)).
Proof.
  refine (proj1 (pow_repeated_mul m_3x3 3 _ _ _)).
  - simpl; lia.
  - reflexivity.
  - lia.
Defined.

(** ** Shape mismatches *)




(** ** Equality with an int *)

(** C6. The all-zero 1x1 matrix compares unequal to the float 0.0, and the
    1x1 matrix holding 1 compares unequal to the float 1.0, while both
    compare equal to the corresponding int. *)
Theorem eq_rejects_float :
  __eq__ m_1x1 (PFloat 0%float) = Return false
  /\ __eq__ m_1x1 (PInt 0) = Return true
  /\ __eq__ m_1x1_one (PFloat 1%float) = Return false
  /\ __eq__ m_1x1_one (PInt 1) = Return true.
Proof. repeat split; vm_compute; reflexivity. Qed.

Lemma count_values_le (d : dict) (s : Z) :
  (Z.to_nat (count (values d) s) <= List.length d)%nat.
Proof.
  unfold count, values. rewrite Nat2Z.id.
  etransitivity; [apply filter_length_le|]. now rewrite length_map.
Qed.

Lemma count_values_all (d : dict) (s : Z) :
  count (values d) s = Z.of_nat (List.length d) <-> Forall (fun kv => snd kv = s) d.
Proof.
  unfold count, values. split.
  - intros H. apply Nat2Z.inj in H. rewrite <- (length_map snd d) in H.
    apply filter_length_forallb in H. rewrite forallb_forall in H.
    apply Forall_forall. intros kv Hkv. apply Z.eqb_eq. apply H. now apply in_map.
  - intros H. f_equal. rewrite <- (length_map snd d). f_equal.
    apply forallb_filter_id. apply forallb_forall. intros v Hv.
    apply in_map_iff in Hv. destruct Hv as (kv & <- & Hkv).
    rewrite Forall_forall in H. apply Z.eqb_eq. now apply H.
Qed.

(** X11.  On a matrix that satisfies the invariants, comparison with an int
    [s] returns true exactly when every logical cell holds [s]. *)
Theorem eq_int_all_cells (self : Sparse_Matrix) (s : Z) :
  invariant self ->
  exists b, __eq__ self (PInt s) = Return b
    /\ (b = true <->
        forall r c, 0 <= r < rows self -> 0 <= c < cols self -> cell self r c = s).
Proof.
  intros [Hrows Hcols Hnd Hnz Hb].
  unfold no_zero_value in Hnz. unfold keys_in_bounds in Hb.
  rewrite Forall_forall in Hnz, Hb.
  unfold __eq__. cbn [checked_number is_int_or_float type py_or pytype_truthy pytype_is].
  destruct (Z.eqb_spec s 0) as [->|Hs]; cbn [andb negb].
  - unfold __bool__. destruct (matrix self) as [|[[r c] v] d] eqn:E.
    + exists true. split; [reflexivity|]. split; [|reflexivity].
      intros _ r c _ _. unfold cell. now rewrite E.
    + exists false. cbn [List.length]. split; [reflexivity|].
      split; [discriminate|]. intros H. exfalso.
      destruct (Hb ((r, c), v)) as [Hr Hc]; [now left|]. cbn [fst snd] in Hr, Hc.
      specialize (H r c Hr Hc). unfold cell, dict_get0 in H. rewrite E in H.
      cbn [dict_get] in H. rewrite key_eqb_refl in H.
      apply (Hnz ((r, c), v)); [now left | exact H].
  - unfold __len__.
    assert (Hincl : incl (keys (matrix self)) (keys (grid (rows self) (cols self) (fun _ _ => 0)))).
    { intros k Hk. apply in_keys_grid. unfold keys in Hk. apply in_map_iff in Hk.
      destruct Hk as (kv & <- & Hkv). now apply Hb. }
    assert (Hlen : (List.length (matrix self) <= Z.to_nat (rows self) * Z.to_nat (cols self))%nat).
    { rewrite <- (length_grid (rows self) (cols self) (fun _ _ => 0)).
      rewrite <- (length_map fst (matrix self)), <- (length_map fst (grid _ _ _)).
      now apply NoDup_incl_length. }
    assert (Hsize : rows self * cols self
                    = Z.of_nat (Z.to_nat (rows self) * Z.to_nat (cols self))) by lia.
    pose proof (count_values_le (matrix self) s) as Hcnt.
    destruct (Z.eqb_spec (count (values (matrix self)) s) (rows self * cols self)) as [Heq|Hne].
    + exists true. split; [reflexivity|]. split; [|reflexivity]. intros _ r c Hr Hc.
      assert (Hfull : List.length (matrix self)
                      = (Z.to_nat (rows self) * Z.to_nat (cols self))%nat) by lia.
      assert (Hall : Forall (fun kv => snd kv = s) (matrix self)).
      { apply count_values_all. lia. }
      assert (Hrev : incl (keys (grid (rows self) (cols self) (fun _ _ => 0)))
                          (keys (matrix self))).
      { apply NoDup_length_incl; [exact Hnd | | exact Hincl].
        unfold keys. rewrite !length_map, length_grid. lia. }
      assert (Hin : In (r, c) (keys (matrix self))).
      { apply Hrev. apply in_keys_grid. auto. }
      unfold keys in Hin. apply in_map_iff in Hin. destruct Hin as ([k v] & Hk & Hkv).
      cbn [fst] in Hk. subst k. rewrite Forall_forall in Hall.
      unfold cell, dict_get0. rewrite (dict_get_NoDup_in _ _ v Hnd Hkv).
      exact (Hall _ Hkv).
    + exists false. split; [reflexivity|]. split; [discriminate|]. intros H. exfalso.
      apply Hne.
      assert (Hall : Forall (fun kv => snd kv = s) (matrix self)).
      { apply Forall_forall. intros [[r c] v] Hkv.
        destruct (Hb _ Hkv) as [Hr Hc]. cbn [fst snd] in *.
        specialize (H r c Hr Hc). unfold cell, dict_get0 in H.
        now rewrite (dict_get_NoDup_in _ _ v Hnd Hkv) in H. }
      apply count_values_all in Hall. rewrite Hall, Hsize. f_equal.
      apply Nat.le_antisymm; [exact Hlen|].
      rewrite <- (length_grid (rows self) (cols self) (fun _ _ => 0)).
      rewrite <- (length_map fst (matrix self)), <- (length_map fst (grid _ _ _)).
      apply NoDup_incl_length; [apply NoDup_keys_grid|].
      intros [r c] Hk. apply in_keys_grid in Hk. cbn [fst snd] in Hk.
      destruct Hk as [Hr Hc]. specialize (H r c Hr Hc).
      apply dict_in_keys. unfold dict_in. unfold cell, dict_get0 in H.
      destruct (dict_get (matrix self) (r, c)); [reflexivity | congruence].
Qed.

Lemma eq_int_all_cells_witness :
  exists b, __eq__ m_3x3 (PInt 1) = Return b
    /\ (b = true <->
        forall r c, 0 <= r < rows m_3x3 -> 0 <= c < cols m_3x3 -> cell m_3x3 r c = 1).
Proof. exact (eq_int_all_cells m_3x3 1 invariant_m_3x3). Defined.

(** ** Equality with a matrix: [split] and the rendering of rows *)

Local Open Scope string_scope.

Lemma append_assoc (s1 s2 s3 : string) : (s1 ++ s2) ++ s3 = s1 ++ (s2 ++ s3).
Proof. induction s1 as [|c s1 IH]; cbn; [reflexivity | now rewrite IH]. Qed.

Lemma append_nil_r (s : string) : s ++ "" = s.
Proof. induction s as [|c s IH]; cbn; [reflexivity | now rewrite IH]. Qed.

Lemma all_chars_app (p : ascii -> bool) (s1 s2 : string) :
  all_chars p (s1 ++ s2) = all_chars p s1 && all_chars p s2.
Proof.
  induction s1 as [|c s1 IH]; cbn; [reflexivity|].
  now rewrite IH, andb_assoc.
Qed.

Lemma all_chars_impl (p q : ascii -> bool) (s : string) :
  (forall c, p c = true -> q c = true) -> all_chars p s = true -> all_chars q s = true.
Proof.
  intros Hpq. induction s as [|c s IH]; cbn; [reflexivity|].
  rewrite !andb_true_iff. intros [Hc Hs]. auto.
Qed.

Lemma numeric_string_of_uint (d : Decimal.uint) :
  all_chars numeric (NilEmpty.string_of_uint d) = true.
Proof. induction d; cbn; auto. Qed.

Lemma numeric_str_int (z : Z) : all_chars numeric (str_int z) = true.
Proof.
  unfold str_int, NilZero.string_of_int, NilZero.string_of_uint.
  destruct (Z.to_int z) as [d|d]; destruct d; cbn; auto using numeric_string_of_uint.
Qed.

Lemma str_int_inj (a b : Z) : str_int a = str_int b -> a = b.
Proof.
  unfold str_int. intros H. apply DecimalZ.to_int_inj.
  assert (Hnn : forall z, Z.to_int z <> Decimal.Pos Decimal.Nil
                          /\ Z.to_int z <> Decimal.Neg Decimal.Nil).
  { intros [|p|p]; cbn; split; try discriminate;
      intros E; inversion E as [E']; now apply DecimalPos.Unsigned.to_uint_nonnil in E'. }
  destruct (Hnn a) as [Ha1 Ha2], (Hnn b) as [Hb1 Hb2].
  pose proof (NilZero.isi (Z.to_int a) Ha1 Ha2) as Ha.
  pose proof (NilZero.isi (Z.to_int b) Hb1 Hb2) as Hb.
  rewrite H in Ha. rewrite Hb in Ha. now inversion Ha.
Qed.

(** Two strings that agree up to a character absent from both heads. *)
Lemma app_split_at (p : ascii -> bool) (c : ascii) (s1 s2 t1 t2 : string) :
  all_chars p s1 = true -> all_chars p s2 = true -> p c = false ->
  s1 ++ String c t1 = s2 ++ String c t2 -> s1 = s2 /\ t1 = t2.
Proof.
  intros H1 H2 Hc. revert s2 H2.
  induction s1 as [|a s1 IH]; intros [|b s2] H2 E; cbn in *.
  - inversion E. auto.
  - inversion E; subst. rewrite Hc in H2. discriminate.
  - inversion E; subst. rewrite Hc in H1. discriminate.
  - inversion E; subst. apply andb_true_iff in H1, H2.
    destruct (IH (proj2 H1) s2 (proj2 H2)); auto. subst. auto.
Qed.

Lemma prefix_arrow (s : string) :
  prefix " -> " s = true -> exists a b t, s = String a (String b (String ">" t)).
Proof.
  destruct s as [|a [|b [|c t]]]; cbn [prefix]; intros H.
  - discriminate.
  - destruct (ascii_dec " " a); discriminate.
  - destruct (ascii_dec " " a); [|discriminate]. destruct (ascii_dec "-" b); discriminate.
  - destruct (ascii_dec " " a); [|discriminate].
    destruct (ascii_dec "-" b); [|discriminate].
    destruct (ascii_dec ">" c); [|discriminate]. subst. eauto.
Qed.

Lemma third_char_not_gt (a b : ascii) (t : string) :
  all_chars not_gt (String a (String b (String ">" t))) = true -> False.
Proof.
  cbn [all_chars]. intros H.
  apply andb_true_iff in H. destruct H as [_ H].
  apply andb_true_iff in H. destruct H as [_ H].
  apply andb_true_iff in H. destruct H as [H _]. discriminate H.
Qed.

(** [split] on a string whose head, free of [>], is followed by the arrow. *)
Lemma split_from_arrow (x rest cur : string) :
  all_chars not_gt x = true ->
  split_from " -> " (x ++ " -> " ++ rest) 0 cur
  = (cur ++ x) :: split_from " -> " rest 0 "".
Proof.
  revert cur. induction x as [|c x IH]; intros cur Hx.
  - cbn. rewrite append_nil_r. now destruct rest.
  - cbn [all_chars] in Hx. apply andb_true_iff in Hx. destruct Hx as [Hc Hx].
    change (String c x ++ " -> " ++ rest) with (String c (x ++ " -> " ++ rest)).
    cbn [split_from].
    destruct (prefix " -> " (String c (x ++ " -> " ++ rest))) eqn:E.
    + exfalso. apply prefix_arrow in E. destruct E as (a & b & t & E).
      destruct x as [|c1 [|c2 x]]; cbn [append] in E; inversion E; subst.
      cbn [all_chars] in Hx.
      apply andb_true_iff in Hx. destruct Hx as [_ Hx].
      apply andb_true_iff in Hx. destruct Hx as [Hx _]. discriminate Hx.
    + rewrite IH by exact Hx. f_equal. rewrite append_assoc. reflexivity.
Qed.

Lemma split_from_last (x cur : string) :
  all_chars not_gt x = true -> split_from " -> " x 0 cur = [cur ++ x].
Proof.
  revert cur. induction x as [|c x IH]; intros cur Hx.
  - cbn. now rewrite append_nil_r.
  - cbn [all_chars] in Hx. apply andb_true_iff in Hx. destruct Hx as [Hc Hx].
    cbn [split_from].
    destruct (prefix " -> " (String c x)) eqn:E.
    + exfalso. apply prefix_arrow in E. destruct E as (a & b & t & E).
      inversion E; subst. apply (third_char_not_gt a b t).
      cbn [all_chars]. now rewrite Hc.
    + rewrite IH by exact Hx. f_equal. rewrite append_assoc. reflexivity.
Qed.

Lemma split_three (x y z : string) :
  all_chars not_gt x = true -> all_chars not_gt y = true -> all_chars not_gt z = true ->
  split (x ++ " -> " ++ y ++ " -> " ++ z) " -> " = [x; y; z].
Proof.
  intros Hx Hy Hz. unfold split.
  rewrite split_from_arrow by exact Hx. rewrite split_from_arrow by exact Hy.
  rewrite split_from_last by exact Hz. reflexivity.
Qed.

Lemma numeric_not_gt (s : string) : all_chars numeric s = true -> all_chars not_gt s = true.
Proof.
  apply all_chars_impl. intros c.
  destruct c as [[|] [|] [|] [|] [|] [|] [|] [|]]; cbn; congruence.
Qed.

Lemma all_chars_join (p : ascii -> bool) (sep : string) (items : list string) :
  all_chars p sep = true -> Forall (fun s => all_chars p s = true) items ->
  all_chars p (join sep items) = true.
Proof.
  intros Hsep. induction 1 as [|x items Hx Hitems IH]; [reflexivity|].
  cbn [join]. destruct items as [|y items]; [exact Hx|].
  rewrite !all_chars_app, Hx, Hsep, IH. reflexivity.
Qed.

Lemma all_chars_str_tuple (p : ascii -> bool) (items : list string) :
  p "("%char = true -> p ")"%char = true -> p ","%char = true -> p " "%char = true ->
  Forall (fun s => all_chars p s = true) items ->
  all_chars p (str_tuple items) = true.
Proof.
  intros H1 H2 H3 H4 Hitems. unfold str_tuple.
  destruct items as [|x [|y items]].
  - cbn. now rewrite H1, H2.
  - inversion Hitems as [|? ? Hx _]; subst. cbn [append]. cbn [all_chars].
    rewrite all_chars_app. cbn. now rewrite H1, H2, H3, Hx.
  - cbn [append all_chars]. rewrite all_chars_app, all_chars_join; auto.
    + cbn. now rewrite H1, H2.
    + cbn. now rewrite H3, H4.
Qed.

Lemma not_gt_str_int (z : Z) : all_chars not_gt (str_int z) = true.
Proof. apply numeric_not_gt, numeric_str_int. Qed.

Lemma not_gt_str_dict (d : dict) : all_chars not_gt (str_dict d) = true.
Proof.
  unfold str_dict. cbn [append all_chars]. rewrite all_chars_app.
  rewrite all_chars_join; [reflexivity | reflexivity |].
  apply Forall_map, Forall_forall. intros kv _.
  rewrite all_chars_app. cbn [all_chars]. rewrite not_gt_str_int.
  rewrite all_chars_str_tuple; auto.
  repeat constructor; apply not_gt_str_int.
Qed.

Lemma join_int_inj (l1 l2 : list Z) (t1 t2 : string) :
  l1 <> [] -> List.length l1 = List.length l2 ->
  join ", " (map str_int l1) ++ String ")" t1 = join ", " (map str_int l2) ++ String ")" t2 ->
  l1 = l2 /\ t1 = t2.
Proof.
  revert l2. induction l1 as [|x1 l1 IH]; intros l2 Hne Hlen E; [congruence|].
  destruct l2 as [|x2 l2]; [discriminate|].
  destruct l1 as [|y1 l1], l2 as [|y2 l2]; try discriminate.
  - cbn [map join] in E.
    apply (app_split_at numeric) in E; auto using numeric_str_int.
    destruct E as [E ->]. apply str_int_inj in E. subst. auto.
  - cbn [map] in E. cbn [join] in E. rewrite !append_assoc in E. cbn [append] in E.
    apply (app_split_at numeric) in E; auto using numeric_str_int.
    destruct E as [Ex E]. apply str_int_inj in Ex. subst x2.
    inversion E as [E']. 
    destruct (IH (y2 :: l2)) as [Hl Ht];
      [discriminate | cbn [List.length] in *; lia | exact E' |].
    rewrite Hl. auto.
Qed.

Lemma render_row_inj (l1 l2 : list Z) (t1 t2 : string) :
  List.length l1 = List.length l2 ->
  render_row l1 ++ t1 = render_row l2 ++ t2 -> l1 = l2 /\ t1 = t2.
Proof.
  intros Hlen E. unfold render_row in E.
  destruct l1 as [|x1 [|y1 l1]], l2 as [|x2 [|y2 l2]]; try discriminate.
  - inversion E. auto.
  - cbn [map str_tuple] in E. cbn [append] in E. inversion E as [E'].
    rewrite !append_assoc in E'. cbn [append] in E'.
    apply (app_split_at numeric) in E'; auto using numeric_str_int.
    destruct E' as [Ex E']. apply str_int_inj in Ex. subst. inversion E'. auto.
  - change (str_tuple (map str_int (x1 :: y1 :: l1)))
      with ("(" ++ join ", " (map str_int (x1 :: y1 :: l1)) ++ ")") in E.
    change (str_tuple (map str_int (x2 :: y2 :: l2)))
      with ("(" ++ join ", " (map str_int (x2 :: y2 :: l2)) ++ ")") in E.
    remember (join ", " (map str_int (x1 :: y1 :: l1))) as J1 eqn:EJ1.
    remember (join ", " (map str_int (x2 :: y2 :: l2))) as J2 eqn:EJ2.
    rewrite !append_assoc in E. cbn [append] in E. inversion E as [E']. subst J1 J2.
    apply (join_int_inj (x1 :: y1 :: l1) (x2 :: y2 :: l2)) in E';
      [exact E' | discriminate | exact Hlen].
Qed.

Lemma join_rows_inj (C : nat) (rws1 rws2 : list (list Z)) (t1 t2 : string) :
  rws1 <> [] -> List.length rws1 = List.length rws2 ->
  Forall (fun rw => List.length rw = C) rws1 ->
  Forall (fun rw => List.length rw = C) rws2 ->
  join ", " (map render_row rws1) ++ String ")" t1
  = join ", " (map render_row rws2) ++ String ")" t2 ->
  rws1 = rws2 /\ t1 = t2.
Proof.
  revert rws2. induction rws1 as [|r1 rws1 IH]; intros rws2 Hne Hlen H1 H2 E; [congruence|].
  destruct rws2 as [|r2 rws2]; [discriminate|].
  inversion H1 as [|? ? Hr1 H1']; subst. inversion H2 as [|? ? Hr2 H2']; subst.
  destruct rws1 as [|s1 rws1], rws2 as [|s2 rws2]; try discriminate.
  - cbn [map join] in E. apply render_row_inj in E; [|congruence].
    destruct E as [-> E]. inversion E. auto.
  - cbn [map] in E. cbn [join] in E. rewrite !append_assoc in E.
    apply render_row_inj in E; [|congruence].
    destruct E as [-> E]. cbn [append] in E. inversion E as [E'].
    destruct (IH (s2 :: rws2)) as [Hl Ht];
      [discriminate | cbn [List.length] in *; lia | exact H1' | exact H2' | exact E' |].
    rewrite Hl. auto.
Qed.

Lemma render_rows_inj (C : nat) (rws1 rws2 : list (list Z)) :
  List.length rws1 = List.length rws2 ->
  Forall (fun rw => List.length rw = C) rws1 ->
  Forall (fun rw => List.length rw = C) rws2 ->
  render_rows rws1 = render_rows rws2 -> rws1 = rws2.
Proof.
  intros Hlen H1 H2 E. unfold render_rows in E.
  destruct rws1 as [|r1 [|s1 rws1]], rws2 as [|r2 [|s2 rws2]]; try discriminate.
  - reflexivity.
  - cbn [map str_tuple] in E. cbn [append] in E. inversion E as [E'].
    inversion H1; subst. inversion H2; subst.
    apply render_row_inj in E'; [|congruence]. destruct E' as [-> _]. reflexivity.
  - change (str_tuple (map render_row (r1 :: s1 :: rws1)))
      with ("(" ++ join ", " (map render_row (r1 :: s1 :: rws1)) ++ ")") in E.
    change (str_tuple (map render_row (r2 :: s2 :: rws2)))
      with ("(" ++ join ", " (map render_row (r2 :: s2 :: rws2)) ++ ")") in E.
    remember (join ", " (map render_row (r1 :: s1 :: rws1))) as J1 eqn:EJ1.
    remember (join ", " (map render_row (r2 :: s2 :: rws2))) as J2 eqn:EJ2.
    cbn [append] in E. inversion E as [E']. subst J1 J2.
    apply (join_rows_inj C (r1 :: s1 :: rws1) (r2 :: s2 :: rws2)) in E';
      [tauto | discriminate | exact Hlen | exact H1 | exact H2].
Qed.

Lemma not_gt_render_rows (rws : list (list Z)) : all_chars not_gt (render_rows rws) = true.
Proof.
  unfold render_rows. apply all_chars_str_tuple; auto.
  apply Forall_map, Forall_forall. intros rw _.
  unfold render_row. apply all_chars_str_tuple; auto.
  apply Forall_map, Forall_forall. intros z _. apply not_gt_str_int.
Qed.

Lemma mapM_printable {A B} (p : A -> bool) (f : A -> result B) (g : A -> B) (e : exn)
    (l : list A) :
  (forall a, In a l -> f a = if p a then Return (g a) else Raise e) ->
  mapM f l = if forallb p l then Return (map g l) else Raise e.
Proof.
  induction l as [|a l IH]; intros H; [reflexivity|]. cbn [mapM forallb map].
  rewrite (H a (or_introl eq_refl)). destruct (p a); cbn [rbind andb]; [|reflexivity].
  rewrite IH by (intros x Hx; apply H; now right).
  now destruct (forallb p l).
Qed.

Lemma str_of_ints_printable (l : list Z) :
  str_of_ints l
  = if forallb printable l then Return (render_row l) else Raise (ValueError msg_int_digits).
Proof.
  unfold str_of_ints.
  rewrite (mapM_printable printable str_of_int str_int (ValueError msg_int_digits))
    by (intros; apply str_of_int_printable).
  now destruct (forallb printable l).
Qed.

Lemma str_of_rows_printable (rws : list (list Z)) :
  str_of_rows rws
  = if forallb (forallb printable) rws then Return (render_rows rws)
    else Raise (ValueError msg_int_digits).
Proof.
  unfold str_of_rows.
  rewrite (mapM_printable (forallb printable) str_of_ints render_row
             (ValueError msg_int_digits))
    by (intros; apply str_of_ints_printable).
  now destruct (forallb (forallb printable) rws).
Qed.

Lemma str_of_dict_printable (d : dict) :
  str_of_dict d
  = if forallb printable_entry d then Return (str_dict d)
    else Raise (ValueError msg_int_digits).
Proof.
  unfold str_of_dict.
  rewrite (mapM_printable printable_entry _
             (fun kv => str_tuple [str_int (fst (fst kv)); str_int (snd (fst kv))]
                        ++ ": " ++ str_int (snd kv))
             (ValueError msg_int_digits)).
  - now destruct (forallb printable_entry d).
  - intros [[r c] v] _. cbn [fst snd]. rewrite str_of_ints_printable, str_of_int_printable.
    unfold printable_entry. cbn [forallb fst snd].
    destruct (printable r), (printable c), (printable v); reflexivity.
Qed.

Lemma printable_cell (self : Sparse_Matrix) (r c : Z) :
  forallb printable_entry (matrix self) = true -> printable (cell self r c) = true.
Proof.
  intros H. unfold cell, dict_get0.
  destruct (dict_get (matrix self) (r, c)) as [v|] eqn:E; [|apply printable_0].
  apply dict_get_in in E. rewrite forallb_forall in H. specialize (H _ E).
  unfold printable_entry in H. cbn [fst snd] in H.
  now apply andb_true_iff in H.
Qed.

Lemma printable_all_rows (self : Sparse_Matrix) :
  forallb printable_entry (matrix self) = true ->
  forallb (forallb printable) (all_rows self) = true.
Proof.
  intros H. unfold all_rows. apply forallb_forall. intros rw Hrw.
  apply in_map_iff in Hrw. destruct Hrw as [r [<- _]].
  apply forallb_forall. intros z Hz. apply in_map_iff in Hz. destruct Hz as [c [<- _]].
  now apply printable_cell.
Qed.

(** [details] renders the matrix when every int in it can be rendered, and
    raises [ValueError] otherwise. *)
Lemma details_rendered (self : Sparse_Matrix) :
  details self
  = if printable_matrix self
    then Return (str_int (rows self) ++ "x" ++ str_int (cols self) ++ " -> "
                 ++ str_dict (matrix self) ++ " -> " ++ render_rows (all_rows self))
    else Raise (ValueError msg_int_digits).
Proof.
  unfold details.
  rewrite (mapM_Return _ (fun r => map (fun c => cell self r c) (range (cols self))))
    by (intros r Hr; apply in_range in Hr; now apply row_cells).
  cbn [rbind]. fold (all_rows self).
  rewrite !str_of_int_printable, str_of_dict_printable, str_of_rows_printable.
  unfold printable_matrix.
  destruct (printable (rows self)); cbn [rbind andb]; [|reflexivity].
  destruct (printable (cols self)); cbn [rbind andb]; [|reflexivity].
  destruct (forallb printable_entry (matrix self)) eqn:E; cbn [rbind]; [|reflexivity].
  rewrite (printable_all_rows self E). cbn [rbind]. now rewrite !append_assoc.
Qed.

Lemma details_third (self : Sparse_Matrix) :
  (d <- details self ;; list_index (split d " -> ") 2)
  = if printable_matrix self then Return (render_rows (all_rows self))
    else Raise (ValueError msg_int_digits).
Proof.
  rewrite details_rendered. destruct (printable_matrix self); [|reflexivity]. cbn [rbind].
  rewrite <- (append_assoc (str_int (rows self))), <- (append_assoc (str_int (rows self) ++ "x")).
  rewrite split_three; [reflexivity | | apply not_gt_str_dict | apply not_gt_render_rows].
  rewrite !all_chars_app, !not_gt_str_int. reflexivity.
Qed.

Lemma all_rows_eq (a b : Sparse_Matrix) :
  size a = size b ->
  all_rows a = all_rows b
  <-> (forall r c, 0 <= r < rows a -> 0 <= c < cols a -> cell a r c = cell b r c).
Proof.
  intros Hs. unfold size in Hs. inversion Hs as [[Hr Hc]]. unfold all_rows.
  rewrite <- Hr, <- Hc. rewrite map_ext_in_iff. split.
  - intros H r c Hr' Hc'. specialize (H r (proj2 (in_range _ _) Hr')).
    rewrite map_ext_in_iff in H. apply H. now apply in_range.
  - intros H r Hr'. apply in_range in Hr'. apply map_ext_in.
    intros c Hc'. apply in_range in Hc'. auto.
Qed.

Lemma size_eqb_eq (a b : Z * Z) : size_eqb a b = true <-> a = b.
Proof.
  destruct a as [a1 a2], b as [b1 b2]. unfold size_eqb. cbn [fst snd].
  rewrite andb_true_iff, !Z.eqb_eq. split; [intros [-> ->]; reflexivity|].
  intros H. inversion H. tauto.
Qed.

(** Comparison with a matrix: false when the sizes differ; when they are
    equal the two matrices are rendered by [details], the right one first,
    and the texts of their rows are compared. *)
Lemma eq_matrix_rendered (self right_m : Sparse_Matrix) :
  __eq__ self (PMatrix right_m)
  = if size_eqb (size right_m) (size self)
    then if printable_matrix right_m && printable_matrix self
         then Return (String.eqb (render_rows (all_rows right_m))
                                 (render_rows (all_rows self)))
         else Raise (ValueError msg_int_digits)
    else Return false.
Proof.
  unfold __eq__. destruct (size_eqb (size right_m) (size self)); [|reflexivity].
  pose proof (details_third right_m) as Hr. pose proof (details_third self) as Hl.
  destruct (printable_matrix right_m); cbn [andb].
  - destruct (details right_m) as [dr|]; [|discriminate]. cbn [rbind] in Hr |- *.
    rewrite Hr. cbn [rbind].
    destruct (printable_matrix self).
    + destruct (details self) as [ds|]; [|discriminate]. cbn [rbind] in Hl |- *.
      rewrite Hl. cbn [rbind]. now destruct (String.eqb _ _).
    + destruct (details self) as [ds|e]; cbn [rbind] in Hl |- *;
        [|now injection Hl as ->].
      rewrite Hl. reflexivity.
  - destruct (details right_m) as [dr|e]; cbn [rbind] in Hr |- *;
      [|now injection Hr as ->].
    rewrite Hr. reflexivity.
Qed.

Lemma render_all_rows_inj (a b : Sparse_Matrix) :
  size a = size b ->
  render_rows (all_rows a) = render_rows (all_rows b) -> all_rows a = all_rows b.
Proof.
  intros Hs. unfold size in Hs. injection Hs as Hr Hc.
  apply (render_rows_inj (Z.to_nat (cols a))).
  - unfold all_rows. rewrite !length_map, !length_range. congruence.
  - unfold all_rows. apply Forall_map, Forall_forall. intros r _.
    now rewrite length_map, length_range.
  - unfold all_rows. apply Forall_map, Forall_forall. intros r _.
    rewrite length_map, length_range. congruence.
Qed.

(** X12.  Comparison with a matrix, when every int of the two matrices can
    be rendered (at most 4300 digits), returns, and returns true exactly
    when the sizes are equal and every logical cell holds the same value in
    both. *)
Theorem eq_matrix_all_cells (self right_m : Sparse_Matrix) :
  printable_matrix self = true -> printable_matrix right_m = true ->
  exists b, __eq__ self (PMatrix right_m) = Return b
    /\ (b = true <->
        size self = size right_m
        /\ forall r c, 0 <= r < rows self -> 0 <= c < cols self ->
                       cell self r c = cell right_m r c).
Proof.
  intros Hp Hq. rewrite eq_matrix_rendered, Hp, Hq. cbn [andb].
  destruct (size_eqb (size right_m) (size self)) eqn:Es.
  - apply size_eqb_eq in Es. symmetry in Es. eexists. split; [reflexivity|].
    rewrite String.eqb_eq. split.
    + intros E. split; [exact Es|]. apply (all_rows_eq self right_m Es).
      symmetry. now apply render_all_rows_inj.
    + intros [_ H]. f_equal. symmetry. now apply (all_rows_eq self right_m Es).
  - exists false. split; [reflexivity|]. split; [discriminate|].
    intros [Hs _]. rewrite Hs in Es. unfold size_eqb in Es.
    rewrite !Z.eqb_refl in Es. discriminate.
Qed.

Lemma eq_matrix_all_cells_witness :
  exists b, __eq__ m_a (PMatrix m_b) = Return b
    /\ (b = true <->
        size m_a = size m_b
        /\ forall r c, 0 <= r < rows m_a -> 0 <= c < cols m_a ->
                       cell m_a r c = cell m_b r c).
Proof. exact (eq_matrix_all_cells m_a m_b eq_refl eq_refl). Defined.

Local Close Scope string_scope.

(** ** The scenario of the main block *)

(** The scenario of the main block of the source: on
    [m = Sparse_Matrix(3, 3, (0,0,1), (1,1,3), (2,2,1))], [m[1,1]] is 3;
    after [m[1,1] = 0] and [m[0,1] = 2] row 0 is (1, 2, 0) and the matrix
    is truthy; [m == m] is true, [m == 1] is false, and [m + m] doubles
    every stored value. *)
Theorem main_block_scenario :
  __getitem__ m_3x3 (at_ 1 1) = Return 3
  /\ (let m1 := snd (__setitem__ (at_ 1 1) (PInt 0) m_3x3) in
      let m2 := snd (__setitem__ (at_ 0 1) (PInt 2) m1) in
      row m2 (PInt 0) = Return [1; 2; 0]
      /\ __bool__ m2 = true
      /\ __eq__ m2 (PMatrix m2) = Return true
      /\ __eq__ m2 (PInt 1) = Return false
      /\ __add__ m2 (PMatrix m2)
         = Return {| rows := 3; cols := 3;
                     matrix := [((0, 0), 2); ((2, 2), 2); ((0, 1), 4)] |}).
Proof. repeat split; vm_compute; reflexivity. Qed.

(** ** The constructor: what it returns and when it raises *)

Lemma foldM_Raise {A B} (P : exn -> Prop) (f : B -> A -> result B) (l : list A) :
  (forall b a e, In a l -> f b a = Raise e -> P e) ->
  forall b e, foldM f l b = Raise e -> P e.
Proof.
  induction l as [|a l IH]; intros Hf b e H; cbn in H; [discriminate|].
  destruct (f b a) as [b'|e'] eqn:E; cbn in H.
  - eapply IH; eauto. intros b0 a0 e0 Hin. apply Hf. now right.
  - inversion H; subst. eapply Hf; eauto. now left.
Qed.

Lemma init_loop_Return (R C : Z) (seeds : list pyval) (acc d : dict) :
  foldM (init_step R C) seeds acc = Return d ->
  exists l, Forall2 reads_as seeds l
    /\ Forall (fun kv => 0 <= fst (fst kv) < R /\ 0 <= snd (fst kv) < C) l
    /\ d = acc ++ filter nonzero l.
Proof.
  revert acc. induction seeds as [|t seeds IH]; intros acc H; cbn in H.
  - exists []. inversion H. cbn. rewrite app_nil_r. repeat split; constructor.
  - destruct (init_step R C acc t) as [d1|] eqn:E; [|discriminate]. cbn in H.
    apply init_step_Return in E. destruct E as [kv [Ht [Hb [_ Hd1]]]].
    apply IH in H. destruct H as [l [Hl [Hf Hd]]].
    exists (kv :: l). split; [now constructor|]. split; [now constructor|].
    subst d d1. rewrite <- app_assoc. f_equal.
    cbn [filter]. now destruct (nonzero kv).
Qed.

Lemma reads_as_entry_triple (l0 l : list (key * Z)) :
  Forall2 reads_as (map entry_triple l0) l -> l = l0.
Proof.
  revert l. induction l0 as [|[[r0 c0] v0] l0 IH]; intros l H.
  - now inversion H.
  - cbn [map] in H. inversion H as [|x [[r c] v] l1 l2 [rest Hr] Hrest]; subst.
    cbn in Hr. injection Hr as -> -> -> _. f_equal. now apply IH.
Qed.



Lemma printable_operand (z : Z) : printable z = true -> str_effect (PInt z) = Return tt.
Proof. intros H. now rewrite str_effect_int, H. Qed.

(** A turn of the loop on a seed that is a tuple of three items or more,
    with dimensions and indices that [str] can render, raises nothing but
    an [AssertionError]. *)
Lemma init_step_Raise (R C : Z) (d : dict) (t : pyval) (e : exn) :
  printable R = true -> printable C = true -> shaped t ->
  init_step R C d t = Raise e -> exists msg, e = AssertionError msg.
Proof.
  intros HR HC (t0 & t1 & t2 & rest & -> & H0 & H1). unfold init_step.
  cbn [subscript nth_error rbind].
  destruct t0 as [r| | | | | |]; try (intros H; injection H as <-; eauto; fail).
  destruct t1 as [c| | | | | |]; try (intros H; injection H as <-; eauto; fail).
  cbn [printable_item] in H0, H1.
  destruct (negb _).
  { rewrite raise_msg_ok; [intros H; injection H as <-; eauto|].
    repeat constructor; now apply printable_operand. }
  destruct (dict_in _ _).
  { rewrite raise_msg_ok; [intros H; injection H as <-; eauto|].
    repeat constructor; now apply printable_operand. }
  destruct (checked_number t2); [|intros H; injection H as <-; eauto].
  destruct (negb _); discriminate.
Qed.

Lemma init_Raise (r c : pyval) (seeds : list pyval) (e : exn) :
  str_effect r = Return tt -> str_effect c = Return tt -> Forall shaped seeds ->
  __init__ r c seeds = Raise e -> exists msg, e = AssertionError msg.
Proof.
  intros Hr Hc Hs. unfold __init__.
  assert (Hrows : forall e', @raise_msg Sparse_Matrix [str_effect r]
                               (AssertionError msg_init_rows) = Raise e' ->
                             exists msg, e' = AssertionError msg).
  { intros e'. rewrite raise_msg_ok by (repeat constructor; exact Hr).
    intros H; injection H as <-; eauto. }
  assert (Hcols : forall e', @raise_msg Sparse_Matrix [str_effect c]
                               (AssertionError msg_init_cols) = Raise e' ->
                             exists msg, e' = AssertionError msg).
  { intros e'. rewrite raise_msg_ok by (repeat constructor; exact Hc).
    intros H; injection H as <-; eauto. }
  destruct r as [R| | | | | |]; try apply Hrows.
  destruct (negb (R >? 0)); [apply Hrows|].
  destruct c as [C| | | | | |]; try apply Hcols.
  destruct (negb (C >? 0)); [apply Hcols|].
  destruct (foldM (init_step R C) seeds []) as [d|e'] eqn:E; [discriminate|].
  cbn [rbind]. intros H. injection H as <-.
  rewrite str_effect_int in Hr, Hc.
  apply (foldM_Raise (fun e0 => exists msg, e0 = AssertionError msg) (init_step R C) seeds)
    with (b := []); [|exact E].
  intros b a e0 Hin. rewrite Forall_forall in Hs.
  apply init_step_Raise; [now destruct (printable R)|now destruct (printable C)|auto].
Qed.

Lemma shaped_entry_triple (l : list (key * Z)) :
  Forall (fun kv => printable (fst (fst kv)) = true /\ printable (snd (fst kv)) = true) l ->
  Forall shaped (map entry_triple l).
Proof.
  intros H. apply Forall_map. eapply Forall_impl; [|exact H].
  intros [[r c] v] [Hr Hc]. cbn [fst snd] in *.
  exists (PInt r), (PInt c), (PInt v), []. repeat split; assumption.
Qed.

(** X15.  When the constructor raises.  With dimensions that [str] can
    render and seeds that are tuples of three items or more, with indices
    that [str] can render, whatever it raises is an [AssertionError]; it
    raises one when a dimension is not a positive int, when the first three
    items of some seed are not ints with the indices inside the bounds (a
    float value is refused), and when two triples with values that are not
    zero name the same cell.  A seed of two items raises [IndexError], and
    a seed that cannot be indexed raises [TypeError]. *)
Theorem init_rejects :
  (forall r c seeds e,
     str_effect r = Return tt -> str_effect c = Return tt -> Forall shaped seeds ->
     __init__ r c seeds = Raise e -> exists msg, e = AssertionError msg)
  /\ (forall r c seeds,
        (forall R, r = PInt R -> R <= 0) -> str_effect r = Return tt ->
        __init__ r c seeds = Raise (AssertionError msg_init_rows))
  /\ (forall R C seeds,
        printable R = true -> printable C = true -> Forall shaped seeds ->
        Exists (fun t => ~ int_triple_in R C t) seeds ->
        exists msg, __init__ (PInt R) (PInt C) seeds = Raise (AssertionError msg))
  /\ (forall R C l,
        printable R = true -> printable C = true ->
        Forall (fun kv => printable (fst (fst kv)) = true /\ printable (snd (fst kv)) = true) l ->
        ~ NoDup (keys (filter nonzero l)) ->
        exists msg, __init__ (PInt R) (PInt C) (map entry_triple l) = Raise (AssertionError msg))
  /\ (forall R C i j rest,
        0 <= i < R -> 0 <= j < C ->
        __init__ (PInt R) (PInt C) (PTuple [PInt i; PInt j] :: rest)
        = Raise (IndexError msg_tuple_index))
  /\ (forall R C seed rest,
        0 < R -> 0 < C -> subscriptable seed = false ->
        __init__ (PInt R) (PInt C) (seed :: rest)
        = Raise (TypeError (msg_not_subscriptable (type seed)))).
Proof.
  split; [exact init_Raise|]. split; [|split; [|split; [|split]]].
  - intros r c seeds Hr Hs. unfold __init__.
    assert (E : @raise_msg Sparse_Matrix [str_effect r] (AssertionError msg_init_rows)
                = Raise (AssertionError msg_init_rows))
      by (apply raise_msg_ok; repeat constructor; exact Hs).
    destruct r as [R| | | | | |]; try exact E.
    specialize (Hr R eq_refl). destruct (R >? 0) eqn:ER; [|exact E].
    apply Z.gtb_lt in ER. lia.
  - intros R C seeds HR HC Hs Hex.
    destruct (__init__ (PInt R) (PInt C) seeds) as [self|e] eqn:E.
    + exfalso. apply init_Return in E. destruct E as [Hr [Hc [_ [_ E]]]].
      inversion Hr; inversion Hc; subst R C.
      apply init_loop_Return in E. destruct E as [l [Hl [Hb _]]].
      apply Exists_exists in Hex. destruct Hex as [t [Hin Hbad]]. apply Hbad.
      clear Hbad Hs. induction Hl as [|t' kv seeds' l' Hread Hl IH]; [destruct Hin|].
      inversion Hb as [|? ? Hkv Hb']; subst. destruct Hin as [->|Hin]; [|now apply IH].
      destruct Hread as [rest ->]. destruct kv as [[i j] v]. cbn [fst snd] in *.
      exists i, j, v, rest. split; [reflexivity|exact Hkv].
    + destruct (init_Raise (PInt R) (PInt C) seeds e) as [msg ->]; auto using printable_operand.
      now exists msg.
  - intros R C l HR HC Hp Hdup.
    destruct (__init__ (PInt R) (PInt C) (map entry_triple l)) as [self|e] eqn:E.
    + exfalso. apply Hdup. apply init_Return in E. destruct E as [_ [_ [_ [_ E]]]].
      pose proof (init_loop_dict_ok _ _ _ _ E) as [Hnd _].
      apply init_loop_Return in E. destruct E as [l' [Hl [_ Hd]]].
      apply reads_as_entry_triple in Hl. subst l'. cbn [app] in Hd. now rewrite <- Hd.
    + destruct (init_Raise (PInt R) (PInt C) (map entry_triple l) e) as [msg ->];
        auto using printable_operand, shaped_entry_triple.
      now exists msg.
  - intros R C i j rest Hi Hj. unfold __init__.
    destruct (Z.gtb_spec R 0); [|lia]. destruct (Z.gtb_spec C 0); [|lia].
    cbn [negb foldM]. unfold init_step at 1. cbn [subscript nth_error rbind].
    destruct (Z.ltb_spec (-1) i); [|lia]. destruct (Z.ltb_spec i R); [|lia].
    destruct (Z.ltb_spec (-1) j); [|lia]. destruct (Z.ltb_spec j C); [|lia].
    reflexivity.
  - intros R C seed rest HR HC Hs. unfold __init__.
    destruct (Z.gtb_spec R 0); [|lia]. destruct (Z.gtb_spec C 0); [|lia].
    cbn [negb foldM]. unfold init_step at 1.
    destruct seed; try discriminate Hs; reflexivity.
Qed.

Lemma init_rejects_witness :
  exists msg, __init__ (PInt 1) (PInt 1) [PTuple [PInt 0; PInt 0; PFloat 1.5%float]]
              = Raise (AssertionError msg).
Proof.
  refine (proj1 (proj2 (proj2 init_rejects)) 1 1
            [PTuple [PInt 0; PInt 0; PFloat 1.5%float]] eq_refl eq_refl _ _).
  - repeat constructor.
    exists (PInt 0), (PInt 0), (PFloat 1.5%float), []. repeat split.
  - apply Exists_cons_hd. intros [r [c [v [rest [H _]]]]]. discriminate H.
Defined.

(** ** Rows, columns and cells *)

Lemma line_operands_ok (self : Sparse_Matrix) (z : Z) :
  printable z = true -> printable_size self = true ->
  Forall (fun o => o = Return tt) (line_operands self (PInt z)).
Proof.
  unfold printable_size, line_operands. intros Hz Hs. apply andb_true_iff in Hs.
  repeat constructor; apply printable_operand; tauto.
Qed.

Lemma raise_msg_first {A} (o : result unit) (operands : list (result unit)) (e e' : exn) :
  o = Raise e' -> @raise_msg A (o :: operands) e = Raise e'.
Proof. intros ->. reflexivity. Qed.

Lemma oversized_operand (z : Z) :
  printable z = false -> str_effect (PInt z) = Raise (ValueError msg_int_digits).
Proof. intros H. now rewrite str_effect_int, H. Qed.

(** X16.  [row], [col] and indexing agree: the item [c] of row [r] and the
    item [r] of column [c] are both [m[r, c]]; a row has [cols] items and a
    column [rows].  An index outside the matrix, a negative one included,
    makes [row] and [col] raise an [AssertionError] and indexing a
    [TypeError], when [str] can render the index and the dimensions for the
    message; an index of more than 4300 digits makes them raise the
    [ValueError] of [str] instead. *)
Theorem row_col_getitem (self : Sparse_Matrix) (r c : Z) :
  (0 <= r < rows self -> 0 <= c < cols self ->
   exists rw cl,
     row self (PInt r) = Return rw /\ col self (PInt c) = Return cl
     /\ List.length rw = Z.to_nat (cols self) /\ List.length cl = Z.to_nat (rows self)
     /\ tuple_index rw c = __getitem__ self (at_ r c)
     /\ tuple_index cl r = __getitem__ self (at_ r c))
  /\ (~ 0 <= r < rows self -> printable r = true -> printable_size self = true ->
      row self (PInt r) = Raise (AssertionError msg_row)
      /\ __getitem__ self (at_ r c) = Raise (TypeError (msg_row_index "__getitem__")))
  /\ (~ 0 <= c < cols self -> printable c = true -> printable_size self = true ->
      col self (PInt c) = Raise (AssertionError msg_col)
      /\ (0 <= r < rows self ->
          __getitem__ self (at_ r c) = Raise (TypeError (msg_col_index "__getitem__"))))
  /\ (~ 0 <= r < rows self -> printable r = false ->
      row self (PInt r) = Raise (ValueError msg_int_digits)
      /\ __getitem__ self (at_ r c) = Raise (ValueError msg_int_digits)).
Proof.
  assert (Hrow : ~ 0 <= r < rows self -> (-1 <? r) && (r <? rows self) = false).
  { intros H. apply not_true_is_false. rewrite andb_true_iff, !Z.ltb_lt. lia. }
  assert (Hget : ~ 0 <= r < rows self -> (r <? 0) || (r >? rows self - 1) = true).
  { intros H. rewrite orb_true_iff, Z.ltb_lt.
    destruct (Z.gtb_spec r (rows self - 1)); [now right|left; lia]. }
  split; [|split; [|split]].
  - intros Hr Hc.
    exists (map (fun i => cell self r i) (range (cols self))),
           (map (fun i => cell self i c) (range (rows self))).
    rewrite row_cells, col_cells, !length_map, !length_range, getitem_cell by assumption.
    rewrite (tuple_index_map_range (fun i => cell self r i)) by assumption.
    rewrite (tuple_index_map_range (fun i => cell self i c)) by assumption.
    repeat split.
  - intros Hr Hp Hs. split.
    + unfold row. rewrite (Hrow Hr). cbn [negb].
      now apply raise_msg_ok, line_operands_ok.
    + unfold __getitem__, check_row_col, at_. rewrite (Hget Hr).
      rewrite raise_msg_ok; [reflexivity|]. now apply (line_operands_ok self r).
  - intros Hc Hp Hs. split.
    + unfold col.
      replace ((-1 <? c) && (c <? cols self)) with false
        by (symmetry; apply not_true_is_false; rewrite andb_true_iff, !Z.ltb_lt; lia).
      cbn [negb]. now apply raise_msg_ok, line_operands_ok.
    + intros Hr. unfold __getitem__, check_row_col, at_.
      replace ((r <? 0) || (r >? rows self - 1)) with false.
      * replace ((c <? 0) || (c >? cols self - 1)) with true.
        -- rewrite raise_msg_ok; [reflexivity|]. now apply (line_operands_ok self c).
        -- symmetry. rewrite orb_true_iff, Z.ltb_lt.
           destruct (Z.gtb_spec c (cols self - 1)); [now right|left; lia].
      * symmetry. apply not_true_is_false. rewrite orb_true_iff, Z.ltb_lt.
        destruct (Z.gtb_spec r (rows self - 1)); lia.
  - intros Hr Hp. split.
    + unfold row. rewrite (Hrow Hr). cbn [negb].
      now apply raise_msg_first, oversized_operand.
    + unfold __getitem__, check_row_col, at_. rewrite (Hget Hr).
      rewrite (raise_msg_first _ _ _ (ValueError msg_int_digits)); [reflexivity|].
      now apply oversized_operand.
Qed.

Lemma row_col_getitem_witness :
  exists rw cl,
    row m_2x3 (PInt 0) = Return rw /\ col m_2x3 (PInt 2) = Return cl
    /\ List.length rw = Z.to_nat (cols m_2x3) /\ List.length cl = Z.to_nat (rows m_2x3)
    /\ tuple_index rw 2 = __getitem__ m_2x3 (at_ 0 2)
    /\ tuple_index cl 0 = __getitem__ m_2x3 (at_ 0 2).
Proof.
  apply (proj1 (row_col_getitem m_2x3 0 2)); cbn; lia.
Defined.

Lemma NoDup_keys_filter (f : key * Z -> bool) (d : dict) :
  NoDup (keys d) -> NoDup (keys (filter f d)).
Proof.
  induction d as [|kv d IH]; intros H; cbn; [constructor|].
  inversion H as [|? ? Hn Hd]; subst.
  destruct (f kv); cbn; auto. constructor; auto.
  intros Hin. apply Hn. unfold keys in *. apply in_map_iff in Hin.
  destruct Hin as [x [Hx Hin]]. apply filter_In in Hin. apply in_map_iff. exists x. tauto.
Qed.

Lemma keys_filter (f : key * Z -> bool) (d : dict) (k : key) :
  In k (keys (filter f d)) -> In k (keys d).
Proof.
  unfold keys. rewrite !in_map_iff. intros [x [Hx Hin]]. apply filter_In in Hin.
  exists x. tauto.
Qed.

Lemma stored_cell (self : Sparse_Matrix) (r c v : Z) :
  NoDup (keys (matrix self)) -> In ((r, c), v) (matrix self) -> cell self r c = v.
Proof.
  intros Hnd Hin. unfold cell, dict_get0. now rewrite (dict_get_NoDup_in _ _ _ Hnd Hin).
Qed.

Lemma incl_keys_grid (self : Sparse_Matrix) :
  keys_in_bounds self ->
  incl (keys (matrix self)) (keys (grid (rows self) (cols self) (fun _ _ => 0))).
Proof.
  intros Hb k Hk. apply in_keys_grid. unfold keys in Hk. apply in_map_iff in Hk.
  destruct Hk as [kv [<- Hin]]. unfold keys_in_bounds in Hb. rewrite Forall_forall in Hb.
  now apply Hb.
Qed.

(** X17.  Truth value and length.  Under the invariants a matrix is truthy
    exactly when some logical cell holds a value that is not zero; its
    length [rows * cols] is positive and bounds the number of stored
    entries. *)
Theorem bool_some_nonzero_cell (self : Sparse_Matrix) :
  invariant self ->
  (__bool__ self = true
   <-> exists r c, 0 <= r < rows self /\ 0 <= c < cols self /\ cell self r c <> 0)
  /\ 0 < __len__ self
  /\ Z.of_nat (List.length (matrix self)) <= __len__ self.
Proof.
  intros [HR HC Hnd Hnz Hb]. split; [|split].
  - unfold __bool__. split.
    + destruct (matrix self) as [|[[r c] v] d] eqn:E; [discriminate|]. intros _.
      unfold no_zero_value, keys_in_bounds in *. rewrite E in Hnz, Hb.
      inversion Hnz as [|? ? Hv _]; inversion Hb as [|? ? Hrc _]; subst. cbn [fst snd] in *.
      exists r, c. split; [tauto|]. split; [tauto|].
      rewrite (stored_cell self r c v); [exact Hv|now rewrite E|]. rewrite E. now left.
    + intros [r [c [_ [_ H]]]]. unfold cell, dict_get0 in H.
      destruct (matrix self) as [|kv d]; [now cbn in H|reflexivity].
  - unfold __len__. nia.
  - unfold __len__.
    pose proof (NoDup_incl_length Hnd (incl_keys_grid self Hb)) as Hle.
    unfold keys in Hle at 1. rewrite length_map in Hle.
    unfold keys in Hle. rewrite length_map, length_grid in Hle.
    rewrite <- (Z2Nat.id (rows self)), <- (Z2Nat.id (cols self)) by lia.
    rewrite <- Nat2Z.inj_mul. now apply Nat2Z.inj_le.
Qed.

Lemma bool_some_nonzero_cell_witness :
  (__bool__ m_3x3 = true
   <-> exists r c, 0 <= r < rows m_3x3 /\ 0 <= c < cols m_3x3 /\ cell m_3x3 r c <> 0)
  /\ 0 < __len__ m_3x3
  /\ Z.of_nat (List.length (matrix m_3x3)) <= __len__ m_3x3.
Proof. exact (bool_some_nonzero_cell m_3x3 invariant_m_3x3). Defined.

(** ** Cell-wise operations *)

Lemma cell_map_values (g : Z -> Z) (d : dict) (k : key) :
  g 0 = 0 -> NoDup (keys d) ->
  dict_get0 (filter nonzero (map (fun kv => (fst kv, g (snd kv))) d)) k = g (dict_get0 d k).
Proof.
  intros Hg Hnd. unfold dict_get0 at 2. destruct (dict_get d k) as [v|] eqn:E.
  - apply dict_get_filter_nonzero.
    + now rewrite (keys_map_value (fun kv => g (snd kv))).
    + apply dict_get_in in E. apply in_map_iff. now exists (k, v).
  - rewrite Hg. apply dict_get0_absent. intros Hin. apply keys_filter in Hin.
    rewrite (keys_map_value (fun kv => g (snd kv))) in Hin.
    apply dict_in_keys in Hin. unfold dict_in in Hin. now rewrite E in Hin.
Qed.

Lemma invariant_map_values (g : Z -> Z) (self : Sparse_Matrix) :
  invariant self ->
  invariant {| rows := rows self; cols := cols self;
               matrix := filter nonzero (map (fun kv => (fst kv, g (snd kv))) (matrix self)) |}.
Proof.
  intros [HR HC Hnd Hnz Hb]. constructor; cbn; auto.
  - apply NoDup_keys_filter. now rewrite (keys_map_value (fun kv => g (snd kv))).
  - unfold no_zero_value. cbn. apply Forall_forall. intros kv Hin.
    apply filter_In in Hin. destruct Hin as [_ Hin]. unfold nonzero in Hin.
    now apply negb_true_iff, Z.eqb_neq in Hin.
  - unfold keys_in_bounds in *. cbn. apply Forall_forall. intros kv Hin.
    apply filter_In in Hin. destruct Hin as [Hin _]. apply in_map_iff in Hin.
    destruct Hin as [x [<- Hin]]. rewrite Forall_forall in Hb. cbn [fst snd]. now apply Hb.
Qed.

(** X18.  Negation, absolute value and multiplication by an int act on
    every logical cell, stored or not: the result has the size of the
    operand, satisfies the invariants, and its cell [(r, c)] is the image of
    the operand's.  In particular [m * 0] stores nothing. *)
Theorem neg_abs_scale_cells (self : Sparse_Matrix) :
  invariant self ->
  (exists n, __neg__ self = Return n /\ invariant n /\ size n = size self
             /\ forall r c, cell n r c = - cell self r c)
  /\ (exists a, __abs__ self = Return a /\ invariant a /\ size a = size self
                /\ forall r c, cell a r c = Z.abs (cell self r c))
  /\ (forall s, exists p, __mul__ self (PInt s) = Return p /\ invariant p
                          /\ size p = size self
                          /\ forall r c, cell p r c = cell self r c * s)
  /\ __mul__ self (PInt 0) = Return {| rows := rows self; cols := cols self; matrix := [] |}.
Proof.
  intros Hinv. pose proof (inv_keys self Hinv) as Hnd.
  split; [|split; [|split]].
  - eexists. split; [apply (init_triples_of (fun v => - v) self Hinv)|].
    split; [apply (invariant_map_values (fun v => - v) self Hinv)|]. split; [reflexivity|].
    intros r c. unfold cell. cbn [matrix]. now apply (cell_map_values (fun v => - v)).
  - eexists. split; [apply (init_triples_of Z.abs self Hinv)|].
    split; [apply (invariant_map_values Z.abs self Hinv)|]. split; [reflexivity|].
    intros r c. unfold cell. cbn [matrix]. now apply (cell_map_values Z.abs).
  - intros s. eexists. split; [apply (init_triples_of (fun v => v * s) self Hinv)|].
    split; [apply (invariant_map_values (fun v => v * s) self Hinv)|]. split; [reflexivity|].
    intros r c. unfold cell. cbn [matrix]. now apply (cell_map_values (fun v => v * s)).
  - change (__mul__ self (PInt 0)) with
      (__init__ (PInt (rows self)) (PInt (cols self)) (triples_of (fun v => v * 0) (matrix self))).
    rewrite (init_triples_of (fun v => v * 0) self Hinv). do 2 f_equal.
    apply filter_nonzero_none. apply Forall_map, Forall_forall. intros kv _. cbn. lia.
Qed.

Lemma neg_abs_scale_cells_witness :
  exists p, __mul__ m_3x3 (PInt 2) = Return p /\ invariant p
            /\ size p = size m_3x3
            /\ forall r c, cell p r c = cell m_3x3 r c * 2.
Proof.
  exact (proj1 (proj2 (proj2 (neg_abs_scale_cells m_3x3 invariant_m_3x3))) 2).
Defined.

Lemma cell_neg (d : dict) (k : key) :
  dict_get0 (map (fun kv => (fst kv, - snd kv)) d) k = - dict_get0 d k.
Proof.
  unfold dict_get0. induction d as [|[k' v] d IH]; cbn; [reflexivity|].
  destruct (key_eqb k' k); [reflexivity|exact IH].
Qed.

(** X19.  Subtraction.  [self - right] for matrices of one size has the
    size of [self] and, on each cell that [self] stores, the difference of
    the two cells; the cells that [self] does not store are zero in the
    result, whatever [right] holds there.  [m - m] stores nothing, and
    subtracting an int is adding its opposite. *)
Theorem sub_on_stored_cells (self : Sparse_Matrix) :
  invariant self ->
  (forall right_m, invariant right_m -> size self = size right_m ->
     exists s, __sub__ self (PMatrix right_m) = Return s
       /\ size s = size self
       /\ forall r c, cell s r c
                      = if dict_in (r, c) (matrix self)
                        then cell self r c - cell right_m r c else 0)
  /\ __sub__ self (PMatrix self)
     = Return {| rows := rows self; cols := cols self; matrix := [] |}
  /\ (forall right_n, __sub__ self (PInt right_n) = __add__ self (PInt (- right_n))).
Proof.
  intros Hinv. pose proof (inv_keys self Hinv) as Hnd.
  assert (Hsub : forall right_m, invariant right_m -> size self = size right_m ->
            __sub__ self (PMatrix right_m)
            = Return {| rows := rows self; cols := cols self;
                        matrix := add_entries (fun k => - cell right_m (fst k) (snd k))
                                              (matrix self) |}).
  { intros right_m Hr Hs. unfold __sub__. rewrite Hs.
    unfold size_eqb. rewrite !Z.eqb_refl. cbn [andb negb].
    destruct (neg_entries right_m Hr) as [-> _]. cbn [rbind].
    destruct (add_stored_entries self Hinv) as [Hadd _].
    rewrite Hadd by exact Hs. do 2 f_equal. unfold add_entries. f_equal.
    apply map_ext. intros kv. unfold cell, with_matrix. cbn [matrix]. now rewrite cell_neg. }
  split; [|split].
  - intros right_m Hr Hs. eexists. split; [apply (Hsub right_m Hr Hs)|].
    split; [reflexivity|]. intros r c. unfold cell at 1. cbn [matrix].
    rewrite cell_add_entries by exact Hnd. cbn [fst snd].
    destruct (dict_in (r, c) (matrix self)); [unfold cell; lia|reflexivity].
  - rewrite (Hsub self Hinv eq_refl). do 2 f_equal. unfold add_entries.
    apply filter_nonzero_none. apply Forall_map, Forall_forall.
    intros [[r c] v] Hin. cbn [fst snd]. rewrite (stored_cell self r c v Hnd Hin). lia.
  - intros right_n. reflexivity.
Qed.

Lemma sub_on_stored_cells_witness :
  __sub__ m_3x3 (PMatrix m_3x3) = Return {| rows := 3; cols := 3; matrix := [] |}.
Proof. exact (proj1 (proj2 (sub_on_stored_cells m_3x3 invariant_m_3x3))). Defined.

(** ** Equality as a relation, and rebuilding a matrix from its iteration *)

Local Open Scope string_scope.

Lemma dict_get_perm (d d' : dict) (k : key) :
  NoDup (keys d) -> Permutation d d' -> dict_get d' k = dict_get d k.
Proof.
  intros Hnd Hp.
  assert (Hnd' : NoDup (keys d')).
  { unfold keys. eapply Permutation_NoDup; [apply Permutation_map; exact Hp|exact Hnd]. }
  destruct (dict_get d k) as [v|] eqn:E.
  - apply dict_get_in in E. apply dict_get_NoDup_in; [exact Hnd'|].
    eapply Permutation_in; eauto.
  - destruct (dict_get d' k) as [v|] eqn:E'; [|reflexivity].
    apply dict_get_in in E'. apply Permutation_sym in Hp.
    pose proof (Permutation_in _ Hp E') as Hin.
    apply (dict_get_NoDup_in _ _ _ Hnd) in Hin. congruence.
Qed.

Lemma eq_matrix_same_cells (a b : Sparse_Matrix) :
  size a = size b -> printable_matrix a = true -> printable_matrix b = true ->
  (forall r c, 0 <= r < rows a -> 0 <= c < cols a -> cell a r c = cell b r c) ->
  __eq__ a (PMatrix b) = Return true.
Proof.
  intros Hs Ha Hb Hc. rewrite eq_matrix_rendered, Ha, Hb. cbn [andb].
  rewrite (proj2 (size_eqb_eq _ _) (eq_sym Hs)).
  rewrite (proj2 (all_rows_eq a b Hs) Hc). now rewrite String.eqb_refl.
Qed.

(** X20.  A matrix is rebuilt from what it yields:
    [Sparse_Matrix(m.rows, m.cols, *m)] returns a matrix of the same size
    whose dictionary is a permutation of that of [m], so every logical cell
    is the same; the two compare equal when every int of [m] can be
    rendered (at most 4300 digits). *)
Theorem iter_constructor_round_trip (self : Sparse_Matrix) :
  invariant self ->
  exists m',
    __init__ (PInt (rows self)) (PInt (cols self)) (map triple_arg (__iter__ self)) = Return m'
    /\ size m' = size self
    /\ Permutation (matrix m') (matrix self)
    /\ (forall r c, cell m' r c = cell self r c)
    /\ (printable_matrix self = true -> __eq__ m' (PMatrix self) = Return true).
Proof.
  intros [HR HC Hnd Hnz Hb].
  set (l := sorted (matrix self) (fun x => snd x)).
  assert (Hp : Permutation l (matrix self)) by apply sorted_perm.
  assert (Harg : map triple_arg (__iter__ self) = map entry_triple l).
  { unfold __iter__. fold l. rewrite map_map. reflexivity. }
  assert (Hnz' : filter nonzero l = l).
  { apply filter_nonzero_all. eapply Permutation_Forall; [apply Permutation_sym, Hp|exact Hnz]. }
  exists {| rows := rows self; cols := cols self; matrix := l |}.
  assert (Hcells : forall r c,
            cell {| rows := rows self; cols := cols self; matrix := l |} r c = cell self r c).
  { intros r c. unfold cell, dict_get0. cbn [matrix].
    now rewrite (dict_get_perm (matrix self) l (r, c) Hnd (Permutation_sym Hp)). }
  split.
  - rewrite Harg, init_entries; auto.
    + now rewrite Hnz'.
    + eapply Permutation_Forall; [apply Permutation_sym, Hp|exact Hb].
    + unfold keys. eapply Permutation_NoDup; [apply Permutation_map, Permutation_sym, Hp|exact Hnd].
  - split; [reflexivity|]. split; [exact Hp|]. split; [exact Hcells|].
    intros Hpr. apply eq_matrix_same_cells; [reflexivity| |exact Hpr|].
    + unfold printable_matrix in *. cbn [rows cols matrix].
      rewrite !andb_true_iff in Hpr. destruct Hpr as [[-> ->] Hd]. cbn [andb].
      apply forallb_forall. intros kv Hin. rewrite forallb_forall in Hd.
      apply Hd. eapply Permutation_in; eauto.
    + intros r c _ _. apply Hcells.
Qed.

Lemma iter_constructor_round_trip_witness :
  exists m',
    __init__ (PInt (rows m_2x3)) (PInt (cols m_2x3)) (map triple_arg (__iter__ m_2x3)) = Return m'
    /\ size m' = size m_2x3
    /\ Permutation (matrix m') (matrix m_2x3)
    /\ (forall r c, cell m' r c = cell m_2x3 r c)
    /\ (printable_matrix m_2x3 = true -> __eq__ m' (PMatrix m_2x3) = Return true).
Proof. exact (iter_constructor_round_trip m_2x3 invariant_m_2x3). Defined.

Lemma size_eqb_sym (a b : Z * Z) : size_eqb a b = size_eqb b a.
Proof. unfold size_eqb. now rewrite (Z.eqb_sym (fst a)), (Z.eqb_sym (snd a)). Qed.

(** X21.  Comparison as a relation.  Against an operand that is not a
    matrix it returns; against a matrix it returns when every int of the
    two matrices can be rendered (at most 4300 digits).  On matrices it is
    symmetric, in what it returns and in what it raises; it is transitive;
    and a matrix whose ints can be rendered equals itself. *)
Theorem eq_matrix_equivalence (a b c : Sparse_Matrix) :
  (forall right, type right <> t_Sparse_Matrix -> exists r, __eq__ a right = Return r)
  /\ (printable_matrix a = true -> printable_matrix b = true ->
      exists r, __eq__ a (PMatrix b) = Return r)
  /\ (printable_matrix a = true -> __eq__ a (PMatrix a) = Return true)
  /\ __eq__ a (PMatrix b) = __eq__ b (PMatrix a)
  /\ (__eq__ a (PMatrix b) = Return true -> __eq__ b (PMatrix c) = Return true ->
      __eq__ a (PMatrix c) = Return true).
Proof.
  split; [|split; [|split; [|split]]].
  - intros right_v Ht. destruct right_v as [z| | | | | |m]; try (eexists; reflexivity).
    + unfold __eq__. cbn [checked_number is_int_or_float type pytype_is py_or pytype_truthy].
      destruct (_ && _); [eexists; reflexivity|].
      destruct (negb _); [|eexists; reflexivity].
      destruct (_ =? _)%Z; eexists; reflexivity.
    + now cbn in Ht.
  - intros Ha Hb. rewrite eq_matrix_rendered, Ha, Hb. cbn [andb].
    destruct (size_eqb _ _); eexists; reflexivity.
  - intros Ha. rewrite eq_matrix_rendered, Ha. cbn [andb]. rewrite String.eqb_refl.
    now rewrite (proj2 (size_eqb_eq _ _) eq_refl).
  - rewrite !eq_matrix_rendered. rewrite (size_eqb_sym (size b)).
    rewrite (andb_comm (printable_matrix b)).
    now rewrite (String.eqb_sym (render_rows (all_rows b))).
  - rewrite !eq_matrix_rendered. intros H1 H2.
    destruct (size_eqb (size b) (size a)) eqn:S1; [|discriminate].
    destruct (printable_matrix b && printable_matrix a) eqn:P1; [|discriminate].
    destruct (size_eqb (size c) (size b)) eqn:S2; [|discriminate].
    destruct (printable_matrix c && printable_matrix b) eqn:P2; [|discriminate].
    injection H1 as R1. injection H2 as R2.
    apply size_eqb_eq in S1, S2. apply String.eqb_eq in R1, R2.
    apply andb_true_iff in P1, P2. destruct P1 as [_ ->], P2 as [-> _]. cbn [andb].
    rewrite (proj2 (size_eqb_eq (size c) (size a))) by congruence.
    f_equal. apply String.eqb_eq. congruence.
Qed.

Lemma eq_matrix_equivalence_witness :
  __eq__ m_a (PMatrix m_a) = Return true.
Proof. exact (proj1 (proj2 (proj2 (eq_matrix_equivalence m_a m_b m_a))) eq_refl). Defined.

(** X22.  [details] on a matrix whose ints can all be rendered (at most
    4300 digits) returns a text of exactly three fields between the arrows:
    the size, the dictionary in its insertion order, and the rows of the
    dense view.  On any other matrix it raises the [ValueError] of [str]. *)
Theorem details_three_fields (self : Sparse_Matrix) :
  (printable_matrix self = true ->
   exists s, details self = Return s
     /\ split s " -> " = [str_int (rows self) ++ "x" ++ str_int (cols self);
                          str_dict (matrix self);
                          render_rows (all_rows self)])
  /\ (printable_matrix self = false -> details self = Raise (ValueError msg_int_digits)).
Proof.
  rewrite details_rendered. split; intros ->; [|reflexivity].
  eexists. split; [reflexivity|].
  rewrite <- (append_assoc (str_int (rows self))), <- (append_assoc (str_int (rows self) ++ "x")).
  rewrite split_three; [| | apply not_gt_str_dict | apply not_gt_render_rows].
  - now rewrite append_assoc.
  - rewrite !all_chars_app, !not_gt_str_int. reflexivity.
Qed.

Lemma details_three_fields_witness :
  exists s, details m_3x3 = Return s
    /\ split s " -> " = [str_int (rows m_3x3) ++ "x" ++ str_int (cols m_3x3);
                         str_dict (matrix m_3x3);
                         render_rows (all_rows m_3x3)].
Proof. exact (proj1 (details_three_fields m_3x3) eq_refl). Defined.

Local Close Scope string_scope.

(** ** The two renderings *)

Local Open Scope string_scope.

Lemma append_inj_l (s a b : string) : s ++ a = s ++ b -> a = b.
Proof. induction s as [|ch s IH]; cbn; intros H; [exact H|]. inversion H. auto. Qed.

Lemma join_cons_app (sep x : string) (l : list string) (t : string) :
  join sep (x :: l) ++ t
  = x ++ match l with [] => t | _ => sep ++ join sep l ++ t end.
Proof.
  destruct l as [|y l]; [reflexivity|].
  change (join sep (x :: y :: l)) with (x ++ sep ++ join sep (y :: l)).
  now rewrite !append_assoc.
Qed.

Lemma str_triple_render (kv : Z * Z * Z) :
  str_triple kv = render_row [fst (fst kv); snd (fst kv); snd kv].
Proof. reflexivity. Qed.

Lemma str_triple_head (kv : Z * Z * Z) (t : string) :
  exists u, str_triple kv ++ t = String "(" u.
Proof. eexists. reflexivity. Qed.

Lemma repr_triples_inj (d1 d2 : dict) (t1 t2 : string) :
  join "," (map str_triple d1) ++ String ")" t1
  = join "," (map str_triple d2) ++ String ")" t2 ->
  d1 = d2 /\ t1 = t2.
Proof.
  revert d2. induction d1 as [|kv1 d1 IH]; intros [|kv2 d2] H.
  - cbn in H. inversion H. auto.
  - exfalso. cbn [map] in H. rewrite join_cons_app in H.
    destruct (str_triple_head kv2
                match map str_triple d2 with
                | [] => String ")" t2
                | _ :: _ => "," ++ join "," (map str_triple d2) ++ String ")" t2
                end) as [u Hu].
    rewrite Hu in H. cbn in H. discriminate H.
  - exfalso. cbn [map] in H. rewrite join_cons_app in H.
    destruct (str_triple_head kv1
                match map str_triple d1 with
                | [] => String ")" t1
                | _ :: _ => "," ++ join "," (map str_triple d1) ++ String ")" t1
                end) as [u Hu].
    rewrite Hu in H. cbn in H. discriminate H.
  - cbn [map] in H. rewrite !join_cons_app in H.
    rewrite !str_triple_render in H.
    apply render_row_inj in H; [|reflexivity]. destruct H as [Hkv H].
    assert (kv1 = kv2) as ->.
    { destruct kv1 as [[r1 c1] v1], kv2 as [[r2 c2] v2]. cbn in Hkv. now inversion Hkv. }
    destruct d1 as [|x d1], d2 as [|y d2].
    + inversion H. auto.
    + exfalso. cbn [map append] in H. discriminate H.
    + exfalso. cbn [map append] in H. discriminate H.
    + change ("," ++ ?X) with (String "," X) in H.
      assert (H' : join "," (map str_triple (x :: d1)) ++ String ")" t1
                   = join "," (map str_triple (y :: d2)) ++ String ")" t2).
      { cbn [map]. cbn [map append] in H. now inversion H. }
      apply IH in H'. destruct H' as [-> ->]. auto.
Qed.

Lemma split_comma_space (s1 s2 t1 t2 : string) :
  all_chars numeric s1 = true -> all_chars numeric s2 = true ->
  s1 ++ ", " ++ t1 = s2 ++ ", " ++ t2 -> s1 = s2 /\ t1 = t2.
Proof.
  intros H1 H2 H.
  apply (app_split_at numeric ","%char s1 s2 (String " " t1) (String " " t2)) in H;
    [|assumption|assumption|reflexivity].
  destruct H as [-> H]. now inversion H.
Qed.

Lemma repr_text_inj (a b : Sparse_Matrix) : repr_text a = repr_text b -> a = b.
Proof.
  unfold repr_text. intros H. apply append_inj_l in H.
  apply split_comma_space in H; try apply numeric_str_int. destruct H as [Hr H].
  apply split_comma_space in H; try apply numeric_str_int. destruct H as [Hc H].
  apply str_int_inj in Hr, Hc.
  apply (repr_triples_inj (matrix a) (matrix b) "" "") in H. destruct H as [Hd _].
  destruct a, b. cbn in *. congruence.
Qed.

(** [__repr__] renders the matrix when every int in it can be rendered,
    and raises [ValueError] otherwise. *)
Lemma repr_rendered (self : Sparse_Matrix) :
  __repr__ self
  = if forallb printable_entry (matrix self) && printable (rows self) && printable (cols self)
    then Return (repr_text self) else Raise (ValueError msg_int_digits).
Proof.
  unfold __repr__.
  rewrite (mapM_printable printable_entry _ str_triple (ValueError msg_int_digits)).
  - destruct (forallb printable_entry (matrix self)); cbn [rbind andb]; [|reflexivity].
    rewrite !str_of_int_printable.
    destruct (printable (rows self)); cbn [rbind andb]; [|reflexivity].
    now destruct (printable (cols self)).
  - intros [[r c] v] _. cbn [fst snd]. rewrite str_of_ints_printable.
    unfold printable_entry. cbn [forallb fst snd].
    destruct (printable r), (printable c), (printable v); reflexivity.
Qed.

(** X23.  [__repr__] tells matrices apart: two matrices with the same text
    have the same size and the same dictionary, entry for entry in the same
    order. *)
Theorem repr_injective (a b : Sparse_Matrix) (s : string) :
  __repr__ a = Return s -> __repr__ b = Return s -> a = b.
Proof.
  intros Ha Hb. rewrite repr_rendered in Ha, Hb.
  destruct (forallb printable_entry (matrix a) && printable (rows a) && printable (cols a));
    [|discriminate Ha].
  destruct (forallb printable_entry (matrix b) && printable (rows b) && printable (cols b));
    [|discriminate Hb].
  apply repr_text_inj. congruence.
Qed.

Lemma repr_injective_witness : m_a <> m_b /\ __repr__ m_a <> __repr__ m_b.
Proof.
  split; [discriminate|].
  intros H.
  assert (E : m_a = m_b).
  { apply (repr_injective m_a m_b (repr_text m_a)); [reflexivity|].
    rewrite <- H. reflexivity. }
  discriminate E.
Defined.









Local Close Scope string_scope.

(** ** The attribute guard *)

Local Open Scope string_scope.

Lemma attr_get_app {V} (d : attrs V) (n name : string) (v : V) :
  attr_get (d ++ [(n, v)])%list name
  = match attr_get d name with
    | Some x => Some x
    | None => if String.eqb n name then Some v else None
    end.
Proof.
  induction d as [|[n' v'] d IH]; cbn [attr_get app]; [reflexivity|].
  destruct (String.eqb n' name); [reflexivity|exact IH].
Qed.

Lemma setattr_cases {V} (name : string) (value : V) (d : attrs V) :
  (declared name = true /\ attr_in name d = false
   /\ __setattr__ name value d = Return (d ++ [(name, value)])%list)
  \/ ((declared name = false \/ attr_in name d = true)
      /\ __setattr__ name value d = Raise (AssertionError msg_setattr)).
Proof.
  unfold __setattr__. destruct (declared name), (attr_in name d); cbn; auto.
Qed.

Lemma assign_all_keeps {V} (ops : list (string * V)) (d : attrs V) (name : string) (v : V) :
  attr_get d name = Some v -> attr_get (assign_all ops d) name = Some v.
Proof.
  revert d. induction ops as [|[n x] ops IH]; intros d H; [exact H|].
  unfold assign_all. cbn [fold_left fst snd]. apply IH.
  destruct (setattr_cases n x d) as [[_ [_ ->]]|[_ ->]]; [|exact H].
  now rewrite attr_get_app, H.
Qed.

Lemma assign_all_declared {V} (ops : list (string * V)) (d : attrs V) :
  (forall name, attr_in name d = true -> declared name = true) ->
  forall name, attr_in name (assign_all ops d) = true -> declared name = true.
Proof.
  revert d. induction ops as [|[n x] ops IH]; intros d H; [exact H|].
  unfold assign_all. cbn [fold_left fst snd]. apply IH.
  destruct (setattr_cases n x d) as [[Hd [_ ->]]|[_ ->]]; [|exact H].
  intros name. unfold attr_in. rewrite attr_get_app.
  destruct (attr_get d name) eqn:E.
  - intros _. apply H. unfold attr_in. now rewrite E.
  - destruct (String.eqb_spec n name) as [<-|]; [now intros _|discriminate].
Qed.

(** X25.  The guard of [__setattr__].  An assignment succeeds only for one
    of the names [rows], [cols], [matrix] that is not bound yet, and then
    binds it; any other raises an [AssertionError].  So along any run of
    assignments a bound attribute keeps its value, and an instance never
    holds an attribute of another name. *)
Theorem setattr_write_once {V} (ops : list (string * V)) (d : attrs V) :
  (forall name value d',
     __setattr__ name value d = Return d' ->
     declared name = true /\ attr_in name d = false /\ attr_get d' name = Some value
     /\ forall other, other <> name -> attr_get d' other = attr_get d other)
  /\ (forall name value,
        declared name = false \/ attr_in name d = true ->
        __setattr__ name value d = Raise (AssertionError msg_setattr))
  /\ (forall name v, attr_get d name = Some v -> attr_get (assign_all ops d) name = Some v)
  /\ (forall name, attr_in name (assign_all ops []) = true -> declared name = true).
Proof.
  split; [|split; [|split]].
  - intros name value d' H.
    destruct (setattr_cases name value d) as [[Hd [Hin E]]|[_ E]]; rewrite E in H;
      [|discriminate].
    injection H as <-. split; [exact Hd|]. split; [exact Hin|].
    unfold attr_in in Hin. split.
    + rewrite attr_get_app. destruct (attr_get d name); [discriminate|].
      now rewrite String.eqb_refl.
    + intros other Ho. rewrite attr_get_app. destruct (attr_get d other); [reflexivity|].
      destruct (String.eqb_spec name other); congruence.
  - intros name value H.
    destruct (setattr_cases name value d) as [[Hd [Hin _]]|[_ E]]; [|exact E].
    destruct H; congruence.
  - intros name v. apply assign_all_keeps.
  - apply assign_all_declared. intros name H. discriminate H.
Qed.

Lemma setattr_write_once_witness :
  attr_get (assign_all [("rows", 5%Z); ("size", 1%Z)] [("rows", 2%Z)]) "rows" = Some 2%Z.
Proof.
  exact (proj1 (proj2 (proj2 (setattr_write_once [("rows", 5%Z); ("size", 1%Z)]
                                 [("rows", 2%Z)])))
           "rows" 2%Z eq_refl).
Defined.

Lemma declared_cases (name : string) :
  declared name = true -> name = "rows" \/ name = "cols" \/ name = "matrix".
Proof.
  unfold declared. cbn [existsb]. rewrite !orb_true_iff, !String.eqb_eq. intuition discriminate.
Qed.

(** X26.  The attributes of an instance over its life.  The three
    assignments that end [__init__] pass the guard; after them every
    assignment raises; the [del] of [rows] and [cols] in [__call__] is what
    lets its two assignments through, and they leave [matrix] as it was and
    [rows] and [cols] with the new values; after them every assignment
    raises again. *)
Theorem instance_attributes {V} (r c m new_rows new_cols : V) :
  exists d0 d1 d2 d3 d4,
    (d <- __setattr__ "rows" r [] ;; d <- __setattr__ "cols" c d ;; __setattr__ "matrix" m d)
    = Return d0
    /\ (forall name value, __setattr__ name value d0 = Raise (AssertionError msg_setattr))
    /\ attr_del "rows" d0 = Some d1 /\ attr_del "cols" d1 = Some d2
    /\ __setattr__ "rows" new_rows d2 = Return d3
    /\ __setattr__ "cols" new_cols d3 = Return d4
    /\ attr_get d4 "rows" = Some new_rows /\ attr_get d4 "cols" = Some new_cols
    /\ attr_get d4 "matrix" = Some m
    /\ (forall name value, __setattr__ name value d4 = Raise (AssertionError msg_setattr)).
Proof.
  exists [("rows", r); ("cols", c); ("matrix", m)], [("cols", c); ("matrix", m)],
         [("matrix", m)], [("matrix", m); ("rows", new_rows)],
         [("matrix", m); ("rows", new_rows); ("cols", new_cols)].
  repeat (split; [reflexivity|]). split; [|repeat (split; [reflexivity|])].
  - intros name value.
    destruct (setattr_cases name value [("rows", r); ("cols", c); ("matrix", m)])
      as [[Hd [Hin _]]|[_ E]]; [|exact E].
    apply declared_cases in Hd. destruct Hd as [-> | [-> | ->]]; discriminate Hin.
  - intros name value.
    destruct (setattr_cases name value
                [("matrix", m); ("rows", new_rows); ("cols", new_cols)])
      as [[Hd [Hin _]]|[_ E]]; [|exact E].
    apply declared_cases in Hd. destruct Hd as [-> | [-> | ->]]; discriminate Hin.
Qed.

Local Close Scope string_scope.

(** ** Operands of other types *)

(** X27.  An operand that is neither an int nor a [Sparse_Matrix] (a float,
    a bool, a string, ...) makes every arithmetic operator raise a
    [TypeError], makes [==] return false, and is refused as a value by
    [__setitem__]: the assignment raises whatever the index is, with the
    [TypeError] of the value when the index is inside the bounds, and
    leaves the matrix as it was. *)
Theorem unsupported_operand (self : Sparse_Matrix) (right : pyval) :
  type right <> t_int -> type right <> t_Sparse_Matrix ->
  __add__ self right = Raise (TypeError msg_add_type)
  /\ __radd__ self right = Raise (TypeError msg_add_type)
  /\ __sub__ self right = Raise (TypeError msg_sub_type)
  /\ __rsub__ self right = Raise (TypeError msg_sub_type)
  /\ __mul__ self right = Raise (TypeError msg_mul_type)
  /\ __rmul__ self right = Raise (TypeError msg_mul_type)
  /\ __pow__ self right = Raise (TypeError msg_pow_type)
  /\ __eq__ self right = Return false
  /\ (forall row_col, exists e, __setitem__ row_col right self = (Raise e, self))
  /\ (forall r c, 0 <= r < rows self -> 0 <= c < cols self ->
        __setitem__ (at_ r c) right self = (Raise (TypeError msg_set_value), self)).
Proof.
  intros Hi Hm.
  assert (Hset : forall v, checked_number v = None ->
            (forall row_col, exists e, __setitem__ row_col v self = (Raise e, self))
            /\ (forall r c, 0 <= r < rows self -> 0 <= c < cols self ->
                  __setitem__ (at_ r c) v self = (Raise (TypeError msg_set_value), self))).
  { intros v Hv. split.
    - intros row_col. unfold __setitem__.
      destruct (check_row_col "__setitem__" self row_col) as [k|e] eqn:E.
      + rewrite Hv. eexists; reflexivity.
      + eexists; reflexivity.
    - intros r c Hr Hc. unfold __setitem__.
      rewrite (proj2 (check_row_col_Return "__setitem__" self (at_ r c) (r, c)))
        by (cbn [fst snd]; auto).
      now rewrite Hv. }
  destruct right as [z|f|b|s| |items|m]; cbn in Hi, Hm; try congruence;
    (repeat (split; [reflexivity|])); now apply Hset.
Qed.

Lemma unsupported_operand_witness :
  __add__ m_3x3 (PFloat 1.5%float) = Raise (TypeError msg_add_type)
  /\ __eq__ m_3x3 (PBool true) = Return false.
Proof.
  split.
  - refine (proj1 (unsupported_operand m_3x3 (PFloat 1.5%float) _ _)); discriminate.
  - refine (proj1 (proj2 (proj2 (proj2 (proj2 (proj2 (proj2 (proj2
              (unsupported_operand m_3x3 (PBool true) _ _))))))))); discriminate.
Defined.

(** ** Deleting a cell *)

(** X28.  [del m[r, c]] inside the bounds is [m[r, c] = 0]: it returns, the
    cell then reads zero and is not stored, the size and every other cell
    are as before, and deleting it again changes nothing. *)
Theorem delitem_clears_cell (self : Sparse_Matrix) (r c : Z) :
  NoDup (keys (matrix self)) -> 0 <= r < rows self -> 0 <= c < cols self ->
  exists self',
    __delitem__ (at_ r c) self = (Return tt, self')
    /\ __setitem__ (at_ r c) (PInt 0) self = (Return tt, self')
    /\ __getitem__ self' (at_ r c) = Return 0
    /\ dict_in (r, c) (matrix self') = false
    /\ size self' = size self
    /\ (forall k', k' <> (r, c) -> dict_get (matrix self') k' = dict_get (matrix self) k')
    /\ __delitem__ (at_ r c) self' = (Return tt, self').
Proof.
  intros Hnd Hr Hc.
  exists (with_matrix self (dict_pop (matrix self) (r, c))).
  assert (Hout : dict_in (r, c) (dict_pop (matrix self) (r, c)) = false).
  { unfold dict_in. now rewrite dict_get_pop_same. }
  split; [now apply delitem_in_range|]. split; [|split; [|split; [|split; [|split]]]].
  - unfold __setitem__.
    rewrite (proj2 (check_row_col_Return "__setitem__" self (at_ r c) (r, c)))
      by (cbn [fst snd]; auto).
    cbn [checked_number is_int_or_float type pytype_is py_or pytype_truthy].
    cbn [Z.eqb andb negb].
    destruct (dict_in (r, c) (matrix self)) eqn:E; [reflexivity|].
    rewrite dict_pop_absent by exact E. now rewrite with_matrix_same.
  - rewrite getitem_cell by assumption. unfold cell. cbn [with_matrix matrix].
    f_equal. apply dict_get0_absent. now apply dict_in_false.
  - exact Hout.
  - reflexivity.
  - intros k' Hk. cbn [with_matrix matrix]. now apply dict_get_pop_other.
  - rewrite delitem_in_range by assumption. cbn [with_matrix matrix rows cols].
    rewrite (dict_pop_absent _ _ Hout). reflexivity.
Qed.

Lemma delitem_clears_cell_witness :
  exists self',
    __delitem__ (at_ 1 1) m_3x3 = (Return tt, self')
    /\ __setitem__ (at_ 1 1) (PInt 0) m_3x3 = (Return tt, self')
    /\ __getitem__ self' (at_ 1 1) = Return 0
    /\ dict_in (1, 1) (matrix self') = false
    /\ size self' = size m_3x3
    /\ (forall k', k' <> (1, 1) -> dict_get (matrix self') k' = dict_get (matrix m_3x3) k')
    /\ __delitem__ (at_ 1 1) self' = (Return tt, self').
Proof.
  apply (delitem_clears_cell m_3x3 1 1); [apply invariant_m_3x3| |]; cbn; lia.
Defined.

(** ** Multiplying by the identity *)

Lemma fold_left_ext_in {A B} (f g : A -> B -> A) (l : list B) (a : A) :
  (forall x b, In b l -> f x b = g x b) -> fold_left f l a = fold_left g l a.
Proof.
  revert a. induction l as [|b l IH]; intros a H; [reflexivity|]. cbn.
  rewrite (H a b (or_introl eq_refl)). apply IH. intros x b' Hb. apply H. now right.
Qed.

Lemma sum_zero (t : Z -> Z) (l : list Z) (a : Z) :
  (forall i, In i l -> t i = 0) -> fold_left (fun v i => v + t i) l a = a.
Proof.
  revert a. induction l as [|x l IH]; intros a H; [reflexivity|]. cbn.
  rewrite IH by (intros i Hi; apply H; now right).
  rewrite (H x (or_introl eq_refl)). lia.
Qed.

Lemma sum_single (t : Z -> Z) (c : Z) (l : list Z) (a : Z) :
  NoDup l -> In c l -> (forall i, In i l -> i <> c -> t i = 0) ->
  fold_left (fun v i => v + t i) l a = a + t c.
Proof.
  revert a. induction l as [|x l IH]; intros a Hnd Hin H; [destruct Hin|].
  inversion Hnd as [|? ? Hx Hl]; subst. cbn [fold_left].
  destruct (Z.eq_dec x c) as [->|Hne].
  - apply sum_zero. intros i Hi. apply H; [now right|]. intros ->. contradiction.
  - destruct Hin as [->|Hin]; [congruence|].
    rewrite IH; auto.
    + rewrite (H x (or_introl eq_refl) Hne). lia.
    + intros i Hi. apply H. now right.
Qed.

Lemma cell_identity (n i j : Z) :
  0 <= i < n -> cell (identity n) i j = if i =? j then 1 else 0.
Proof.
  intros Hi. unfold cell, identity. cbn [matrix].
  assert (Hnd : NoDup (keys (map (fun i => ((i, i), 1)) (range n)))).
  { unfold keys. rewrite map_map. cbn [fst].
    apply Finite.Injective_map_NoDup; [|apply NoDup_range].
    intros x y H. now inversion H. }
  destruct (Z.eqb_spec i j) as [<-|Hne].
  - unfold dict_get0. rewrite (dict_get_NoDup_in _ (i, i) 1 Hnd); [reflexivity|].
    apply in_map_iff. exists i. split; [reflexivity|now apply in_range].
  - apply dict_get0_absent. unfold keys. rewrite map_map. cbn [fst].
    intros H. apply in_map_iff in H. destruct H as [x [H _]]. inversion H. congruence.
Qed.

Lemma cell_identity_col (n i j : Z) :
  0 <= j < n -> cell (identity n) i j = if i =? j then 1 else 0.
Proof.
  intros Hj. destruct (Z.eqb_spec i j) as [->|Hne].
  - rewrite cell_identity by assumption. now rewrite Z.eqb_refl.
  - unfold cell, identity. cbn [matrix]. apply dict_get0_absent.
    unfold keys. rewrite map_map. cbn [fst].
    intros H. apply in_map_iff in H. destruct H as [x [H _]]. inversion H. congruence.
Qed.

Lemma dot_identity_r (self : Sparse_Matrix) (r c : Z) :
  0 <= c < cols self -> dot self (identity (cols self)) r c = cell self r c.
Proof.
  intros Hc. unfold dot.
  rewrite (sum_single (fun i => cell self r i * cell (identity (cols self)) i c) c).
  - rewrite cell_identity, Z.eqb_refl by assumption. lia.
  - apply NoDup_range.
  - now apply in_range.
  - intros i Hi Hne. apply in_range in Hi. rewrite cell_identity by assumption.
    destruct (Z.eqb_spec i c); [congruence|lia].
Qed.

Lemma dot_identity_l (self : Sparse_Matrix) (r c : Z) :
  0 <= r < rows self -> dot (identity (rows self)) self r c = cell self r c.
Proof.
  intros Hr. unfold dot. cbn [identity cols].
  rewrite (sum_single (fun i => cell (identity (rows self)) r i * cell self i c) r).
  - rewrite cell_identity, Z.eqb_refl by assumption. lia.
  - apply NoDup_range.
  - now apply in_range.
  - intros i Hi Hne. apply in_range in Hi. rewrite cell_identity_col by assumption.
    destruct (Z.eqb_spec r i); [congruence|lia].
Qed.

(** A product whose cells are cells of a matrix that can be rendered can
    be rendered. *)
Lemma printable_product (a b self : Sparse_Matrix) :
  rows a = rows self -> cols b = cols self -> printable_matrix self = true ->
  (forall r c, 0 <= r < rows self -> 0 <= c < cols self -> dot a b r c = cell self r c) ->
  printable_matrix (product a b) = true.
Proof.
  intros Hr Hc Hp Hdot. unfold printable_matrix in *. cbn [product rows cols matrix].
  rewrite !andb_true_iff in Hp. destruct Hp as [[Hpr Hpc] Hd].
  rewrite Hr, Hc, Hpr, Hpc. cbn [andb].
  apply forallb_forall. intros [[r c] v] Hin. apply filter_In in Hin. destruct Hin as [Hin _].
  apply in_grid in Hin. cbn [fst snd] in Hin. destruct Hin as [[Hr' Hc'] ->].
  unfold printable_entry. cbn [fst snd].
  rewrite (printable_below r (rows self)), (printable_below c (cols self)) by assumption.
  rewrite Hdot by assumption. now rewrite printable_cell.
Qed.

(** X29.  The identity matrix is neutral for [*] on both sides: the
    products [m * I] and [I * m] have the size of [m] and hold the value of
    [m] in every logical cell; they compare equal to [m] when every int of
    [m] can be rendered (at most 4300 digits).  (Their dictionaries are in
    row-major order, so they need not be that of [m].) *)
Theorem mul_identity (self : Sparse_Matrix) :
  0 < rows self -> 0 < cols self ->
  exists p q,
    __mul__ self (PMatrix (identity (cols self))) = Return p
    /\ __mul__ (identity (rows self)) (PMatrix self) = Return q
    /\ size p = size self /\ size q = size self
    /\ (forall r c, 0 <= r < rows self -> 0 <= c < cols self ->
                    __getitem__ p (at_ r c) = __getitem__ self (at_ r c)
                    /\ __getitem__ q (at_ r c) = __getitem__ self (at_ r c))
    /\ (printable_matrix self = true ->
        __eq__ p (PMatrix self) = Return true
        /\ __eq__ q (PMatrix self) = Return true).
Proof.
  intros HR HC.
  exists (product self (identity (cols self))), (product (identity (rows self)) self).
  assert (Hp : forall r c, 0 <= r < rows self -> 0 <= c < cols self ->
                 cell (product self (identity (cols self))) r c = cell self r c).
  { intros r c Hr Hc. rewrite cell_product by assumption. now apply dot_identity_r. }
  assert (Hq : forall r c, 0 <= r < rows self -> 0 <= c < cols self ->
                 cell (product (identity (rows self)) self) r c = cell self r c).
  { intros r c Hr Hc. rewrite cell_product by assumption. now apply dot_identity_l. }
  split; [now apply mul_product|]. split; [now apply mul_product|].
  split; [reflexivity|]. split; [reflexivity|]. split.
  - intros r c Hr Hc. rewrite !getitem_cell by assumption. now rewrite Hp, Hq.
  - intros Hpr. split.
    + apply eq_matrix_same_cells; [reflexivity| |exact Hpr|exact Hp].
      apply (printable_product _ _ self); auto.
      intros r c _ Hc. now apply dot_identity_r.
    + apply eq_matrix_same_cells; [reflexivity| |exact Hpr|exact Hq].
      apply (printable_product _ _ self); auto.
      intros r c Hr _. now apply dot_identity_l.
Qed.

Lemma mul_identity_witness :
  exists p q,
    __mul__ m_2x3 (PMatrix (identity (cols m_2x3))) = Return p
    /\ __mul__ (identity (rows m_2x3)) (PMatrix m_2x3) = Return q
    /\ size p = size m_2x3 /\ size q = size m_2x3
    /\ (forall r c, 0 <= r < rows m_2x3 -> 0 <= c < cols m_2x3 ->
                    __getitem__ p (at_ r c) = __getitem__ m_2x3 (at_ r c)
                    /\ __getitem__ q (at_ r c) = __getitem__ m_2x3 (at_ r c))
    /\ (printable_matrix m_2x3 = true ->
        __eq__ p (PMatrix m_2x3) = Return true
        /\ __eq__ q (PMatrix m_2x3) = Return true).
Proof. apply (mul_identity m_2x3); reflexivity. Defined.

(** ** Resizing that keeps the columns *)

Lemma filter_all {A} (f : A -> bool) (l : list A) :
  (forall x, In x l -> f x = true) -> filter f l = l.
Proof.
  induction l as [|x l IH]; intros H; [reflexivity|]. cbn.
  rewrite (H x (or_introl eq_refl)). f_equal. apply IH. intros y Hy. apply H. now right.
Qed.

Lemma filter_both {A} (f g : A -> bool) (l : list A) :
  filter f (filter g l) = filter (fun x => g x && f x) l.
Proof.
  induction l as [|x l IH]; [reflexivity|]. cbn.
  destruct (g x); cbn; [destruct (f x)|]; now rewrite IH.
Qed.

Lemma dict_pop_filter (d : dict) (k : key) :
  NoDup (keys d) -> dict_pop d k = filter (fun kv => negb (key_eqb (fst kv) k)) d.
Proof.
  induction d as [|[k' v] d IH]; intros Hnd; [reflexivity|].
  inversion Hnd as [|? ? Hk Hd]; subst. cbn [dict_pop filter fst].
  destruct (key_eqb k' k) eqn:E; cbn [negb].
  - apply key_eqb_eq in E. subst k'. symmetry. apply filter_all.
    intros [k1 v1] Hin. cbn [fst]. apply negb_true_iff, key_eqb_neq. intros ->.
    apply Hk. unfold keys. apply in_map_iff. now exists (k, v1).
  - f_equal. now apply IH.
Qed.

Lemma pop_row_filter (r : Z) (cs : list Z) (d : dict) :
  NoDup (keys d) ->
  fold_left (fun d c => dict_pop d (r, c)) cs d
  = filter (fun kv => negb (existsb (fun c => key_eqb (fst kv) (r, c)) cs)) d.
Proof.
  revert d. induction cs as [|c cs IH]; intros d Hnd; cbn [fold_left existsb].
  - symmetry. now apply filter_all.
  - rewrite IH by now apply NoDup_keys_dict_pop.
    rewrite dict_pop_filter by exact Hnd. rewrite filter_both.
    apply filter_ext. intros kv. now rewrite negb_orb.
Qed.

Lemma prune_step_rows_only (nr nc R C : Z) (k k1 : key) (d : dict) :
  NoDup (keys d) -> Forall (fun kv => 0 <= snd (fst kv) < C) d -> snd k1 < nc ->
  prune_step nr nc R C k d k1
  = filter (fun kv => negb ((fst k1 >=? nr) && (fst (fst kv) =? fst k1))) d.
Proof.
  intros Hnd Hb Hk1. unfold prune_step.
  replace (snd k1 >=? nc) with false by (symmetry; rewrite Z.geb_leb; apply Z.leb_gt; lia).
  destruct (fst k1 >=? nr); cbn [andb].
  - rewrite pop_row_filter by exact Hnd. apply filter_ext_in.
    intros [[r c] v] Hin. cbn [fst snd]. f_equal.
    rewrite Forall_forall in Hb. specialize (Hb _ Hin). cbn [fst snd] in Hb.
    destruct (Z.eqb_spec r (fst k1)) as [->|Hne].
    + apply existsb_exists. exists c. split; [now apply in_range|].
      apply key_eqb_eq. reflexivity.
    + apply not_true_is_false. intros H. apply existsb_exists in H.
      destruct H as [c' [_ H]]. apply key_eqb_eq in H. inversion H. congruence.
  - symmetry. now apply filter_all.
Qed.

Lemma fold_prune_rows_only (nr nc R C : Z) (k : key) (ks : list key) (d : dict) :
  NoDup (keys d) -> Forall (fun kv => 0 <= snd (fst kv) < C) d ->
  (forall k1, In k1 ks -> snd k1 < nc) ->
  fold_left (prune_step nr nc R C k) ks d
  = filter (fun kv => forallb (fun k1 => negb ((fst k1 >=? nr) && (fst (fst kv) =? fst k1))) ks)
           d.
Proof.
  revert d. induction ks as [|k1 ks IH]; intros d Hnd Hb Hks; cbn [fold_left forallb].
  - symmetry. now apply filter_all.
  - rewrite (prune_step_rows_only nr nc R C k k1 d Hnd Hb) by (apply Hks; now left).
    rewrite IH.
    + apply filter_both.
    + now apply NoDup_keys_filter.
    + apply Forall_forall. intros kv Hin. apply filter_In in Hin.
      rewrite Forall_forall in Hb. now apply Hb.
    + intros k2 Hk2. apply Hks. now right.
Qed.

(** X30.  A resize that does not shrink the columns is exact: [m(r, c)]
    with [c] at least the current number of columns returns, keeps exactly
    the entries whose row is below [r], in their order, and the resized
    matrix satisfies the invariants. *)
Theorem call_shrinking_rows (self : Sparse_Matrix) (new_rows new_cols : Z) :
  invariant self -> 0 < new_rows -> cols self <= new_cols ->
  __call__ (PInt new_rows) (PInt new_cols) self
  = (Return tt, {| rows := new_rows; cols := new_cols;
                   matrix := filter (fun kv => fst (fst kv) <? new_rows) (matrix self) |})
  /\ invariant {| rows := new_rows; cols := new_cols;
                  matrix := filter (fun kv => fst (fst kv) <? new_rows) (matrix self) |}.
Proof.
  intros [HR HC Hnd Hnz Hb] Hnr Hnc. split.
  - destruct (call_in_bounds self new_rows new_cols Hb Hnr) as [d' [E [Hnil Hlast]]]; [lia|].
    rewrite E. do 2 f_equal.
    pose proof (last_key_in (matrix self)) as Hk.
    destruct (last_key (matrix self)) as [k|].
    + rewrite (Hlast k eq_refl).
      rewrite (fold_prune_rows_only new_rows new_cols (rows self) (cols self)).
      * apply filter_ext_in. intros [[r c] v] Hin. cbn [fst snd].
        destruct (Z.ltb_spec r new_rows) as [Hlt|Hge].
        -- apply forallb_forall. intros k1 _. apply negb_true_iff, andb_false_iff.
           destruct (Z.eqb_spec r (fst k1)) as [->|]; [left|now right].
           rewrite Z.geb_leb. apply Z.leb_gt. lia.
        -- apply not_true_is_false. intros H. rewrite forallb_forall in H.
           specialize (H (r, c)). cbn [fst] in H. rewrite Z.eqb_refl in H.
           replace (r >=? new_rows) with true in H by (symmetry; apply Z.geb_le; lia).
           cbn in H. assert (false = true); [|discriminate]. apply H.
           apply keys_copy_complete. right. unfold keys. apply in_map_iff.
           now exists ((r, c), v).
      * exact Hnd.
      * unfold keys_in_bounds in Hb. eapply Forall_impl; [|exact Hb]. cbn. tauto.
      * intros k1 Hk1. apply keys_copy in Hk1. destruct Hk1 as [[]|Hk1].
        unfold keys in Hk1. apply in_map_iff in Hk1. destruct Hk1 as [kv [<- Hin]].
        unfold keys_in_bounds in Hb. rewrite Forall_forall in Hb. specialize (Hb _ Hin). lia.
    + rewrite Hk in *. now rewrite Hnil.
  - constructor; cbn [rows cols matrix]; try lia.
    + now apply NoDup_keys_filter.
    + unfold no_zero_value. cbn [matrix]. apply Forall_forall. intros kv Hin.
      apply filter_In in Hin. unfold no_zero_value in Hnz. rewrite Forall_forall in Hnz.
      now apply Hnz.
    + unfold keys_in_bounds. cbn [rows cols matrix]. apply Forall_forall. intros kv Hin.
      apply filter_In in Hin. destruct Hin as [Hin Hlt]. apply Z.ltb_lt in Hlt.
      unfold keys_in_bounds in Hb. rewrite Forall_forall in Hb. specialize (Hb _ Hin). lia.
Qed.

Lemma call_shrinking_rows_witness :
  __call__ (PInt 2) (PInt 3) m_3x3
  = (Return tt, {| rows := 2; cols := 3;
                   matrix := filter (fun kv => fst (fst kv) <? 2) (matrix m_3x3) |}).
Proof.
  refine (proj1 (call_shrinking_rows m_3x3 2 3 invariant_m_3x3 _ _)); cbn; lia.
Defined.

(** ** Ints of more than 4300 digits *)

Lemma str_limit_digits :
  String.length (str_int (str_limit - 1)) = 4300%nat
  /\ String.length (str_int str_limit) = 4301%nat.
Proof. split; vm_compute; reflexivity. Qed.

Lemma m_big_constructed :
  __init__ (PInt 1) (PInt 1) [tup 0 0 str_limit] = Return m_big.
Proof. reflexivity. Qed.

Lemma m_wide_constructed : __init__ (PInt str_limit) (PInt 1) [] = Return m_wide.
Proof. reflexivity. Qed.

Lemma size_operands_oversized {A} (self right_m : Sparse_Matrix) (e : exn) :
  printable_size self = false ->
  @raise_msg A (size_operands self right_m) e = Raise (ValueError msg_int_digits).
Proof.
  intros H. apply raise_msg_first. rewrite str_effect_size.
  unfold printable_size in H. now rewrite H.
Qed.

(** X13.  What an int of more than 4300 digits does.  Such an int can be a
    dimension or a stored value, and [str] refuses it with [ValueError].
    So a matrix that holds one cannot be rendered: [details], [__repr__],
    [__str__] and the comparison of the matrix with itself raise
    [ValueError]; and when a dimension is such an int, a failed size
    assertion of [+], [-], [*] and [**] raises [ValueError], not
    [AssertionError], because its message renders the sizes.  So does
    [**] with such an exponent that is not positive. *)
Theorem oversized_int_raises (self : Sparse_Matrix) :
  (printable_matrix self = false ->
     details self = Raise (ValueError msg_int_digits)
     /\ __repr__ self = Raise (ValueError msg_int_digits)
     /\ __eq__ self (PMatrix self) = Raise (ValueError msg_int_digits))
  /\ (printable_size self = false
      \/ (exists r c, 0 <= r < rows self /\ 0 <= c < cols self
                      /\ printable (cell self r c) = false) ->
      __str__ self = Raise (ValueError msg_int_digits))
  /\ (printable_size self = false ->
      (forall b, size self <> size b ->
                 __add__ self (PMatrix b) = Raise (ValueError msg_int_digits)
                 /\ __sub__ self (PMatrix b) = Raise (ValueError msg_int_digits))
      /\ (forall b, cols self <> rows b ->
                    __mul__ self (PMatrix b) = Raise (ValueError msg_int_digits))
      /\ (rows self <> cols self ->
          forall n, 0 < n -> __pow__ self (PInt n) = Raise (ValueError msg_int_digits)))
  /\ (forall n, n <= 0 -> printable n = false ->
                __pow__ self (PInt n) = Raise (ValueError msg_int_digits)).
Proof.
  split; [|split; [|split]].
  - intros H. split; [|split].
    + now rewrite details_rendered, H.
    + rewrite repr_rendered. unfold printable_matrix in H.
      destruct (printable (rows self)), (printable (cols self)),
        (forallb printable_entry (matrix self)); cbn in *; try discriminate; reflexivity.
    + rewrite eq_matrix_rendered, H. cbn [andb].
      now rewrite (proj2 (size_eqb_eq _ _) eq_refl).
  - unfold __str__. rewrite !str_of_int_printable. unfold printable_size.
    intros [H|[r [c [Hr [Hc H]]]]].
    + destruct (printable (rows self)); cbn [rbind]; [|reflexivity].
      cbn [andb] in H. now rewrite H.
    + destruct (printable (rows self)); cbn [rbind]; [|reflexivity].
      destruct (printable (cols self)); cbn [rbind]; [|reflexivity].
      rewrite (mapM_printable (fun rc => printable (dict_get0 (matrix self) rc)) _
                 (fun rc => String.length (str_int (dict_get0 (matrix self) rc)))
                 (ValueError msg_int_digits)).
      * replace (forallb _ _) with false; [reflexivity|].
        symmetry. apply not_true_is_false. intros F. rewrite forallb_forall in F.
        specialize (F (r, c)). unfold cell in H. rewrite F in H; [discriminate|].
        apply in_flat_map. exists c. split; [now apply in_range|].
        apply in_map_iff. exists r. split; [reflexivity|now apply in_range].
      * intros rc _. rewrite str_of_int_printable.
        now destruct (printable (dict_get0 (matrix self) rc)).
  - intros H. split; [|split].
    + intros b Hs. split.
      * unfold __add__. rewrite (size_eqb_neq self b Hs). cbn [negb].
        now apply size_operands_oversized.
      * unfold __sub__. rewrite (size_eqb_neq self b Hs). cbn [negb].
        now apply size_operands_oversized.
    + intros b Hs. unfold __mul__. apply Z.eqb_neq in Hs. rewrite Hs. cbn [negb].
      now apply size_operands_oversized.
    + intros Hs n Hn. unfold __pow__. destruct (Z.gtb_spec n 0); [|lia]. cbn [negb].
      apply Z.eqb_neq in Hs. rewrite Hs. cbn [negb].
      apply raise_msg_first. rewrite str_effect_size.
      unfold printable_size in H. now rewrite H.
  - intros n Hn Hp. unfold __pow__. destruct (Z.gtb_spec n 0); [lia|]. cbn [negb].
    now apply raise_msg_first, oversized_operand.
Qed.

Lemma oversized_int_raises_witness :
  __init__ (PInt 1) (PInt 1) [tup 0 0 str_limit] = Return m_big
  /\ __eq__ m_big (PMatrix m_big) = Raise (ValueError msg_int_digits)
  /\ __init__ (PInt str_limit) (PInt 1) [] = Return m_wide
  /\ __add__ m_wide (PMatrix m_1x1) = Raise (ValueError msg_int_digits).
Proof.
  split; [exact m_big_constructed|]. split.
  - exact (proj2 (proj2 (proj1 (oversized_int_raises m_big) eq_refl))).
  - split; [exact m_wide_constructed|].
    refine (proj1 (proj1 (proj1 (proj2 (proj2 (oversized_int_raises m_wide))) eq_refl)
                     m_1x1 _)).
    discriminate.
Defined.
